(* ===== verification/_CoqProject ===== *)
-Q . S2P
Prelude.v
PyString.v
Graph.v
SpeedClean.v
Snapshot.v
Disk.v
Plot.v
Frontier.v
Search.v
Machine.v
Reconstruct.v
Pipeline.v
Frames.v
Program.v
Determinism.v
