(* ===== verification/Prelude.v ===== *)
(** * A verification library for pathfinding-animator (src/main.py)

    The program ([src/main.py], one script) loads a road network with
    osmnx, cleans the [maxspeed] tag of every edge into a number and an
    edge [weight = length / maxspeed], runs an animated Dijkstra search
    ([dijkstra]) between two random nodes, and walks the [previous] links
    back ([reconstruct_path]) to print the route's distance, average speed
    and travel time.  Every step restyles edges and may save a frame of
    the animation ([save_frame]), numbered by the global [frame_count] and
    sampled according to the global [stage], as [frame_%05d.png] in the
    folder [Try]; at the end [generate_video] sorts the frame files into
    [output.mp4] and deletes the folder.

    ** Parts of the program and the files that model them

    - [Prelude] (this file): Python floats as [Dist] (rationals [Q] with
      [Inf] for [float("inf")]); the exceptions the script can raise
      ([exn]: [KeyError], [ValueError], [ZeroDivisionError],
      [FileNotFoundError]); the
      state-and-exception monad [PyM] ([Ok], [Raise], and [OutOfFuel] for
      loops run with fuel) with its notation in [py_scope]; [keeps], an
      observation a computation leaves alone, and [rel], two runs of a
      computation from related states; [adds], a counter a computation
      raises by a bounded amount; the hint databases [pf], [keeps] and
      [adds] with their tactics; shared lemmas on lists, sums and
      distances.
    - [PyString]: [str(n)], the format spec [05d], [str.endswith] and
      the string order of [sorted], with the lemmas that relate the order
      of zero-padded numerals to that of the numbers.
    - [Graph]: the [MultiDiGraph] [G] as a [Graph] value (nodes and keyed
      edges with their cleaned data, [Edge]); the dictionaries
      [G.nodes[n]] ([NodeAttr]: visited, distance, previous, size,
      highlight, color); the whole mutable state of the script ([St]: the
      node dictionaries, the edge styles, the [algorithm_uses] counters,
      the globals [stage] and [frame_count], the frames written and the
      lines printed); the primitive reads and writes, which raise
      [KeyError] as Python does; the style utilities (lines 39-63); walks,
      path weights and [shortest]; the conditions on graphs
      ([wf_graph], [keys_from_zero], [simple_graph], [pos_weights]) with
      boolean checks that decide them on concrete graphs; [paints], the
      edges a computation restyles and the style it gives them.
    - [SpeedClean] (Module [SpeedClean]): lines 26-37, the parsing of a
      [maxspeed] tag that is a string, a list or a number, with
      [filter(str.isdigit)], [int] and [min] ([parse_speed],
      [clean_maxspeed], [clean_edge], [clean_edges]).
    - [Snapshot]: [save_frame] (lines 97-124): the sampling policy and
      the [Frame] record of what is drawn.
    - [Disk]: the output parameters (lines 16-19), the file system the
      script touches ([Disk]: image files, directories, videos, console),
      [os.makedirs] (line 23), the frame files of line 122 ([frame_file],
      [savefig], [write_frames]) and [generate_video] (lines 227-244:
      [listdir], the [.png] filter, [os.path.join], [sorted], [imread],
      the [imageio] writer, the prints and [shutil.rmtree]).
    - [Plot]: the plot setup (lines 65-94): node positions, the polyline
      of every edge, the line styles read with their [.get] defaults, the
      figure parameters and the axes limits ([plot_setup]).
    - [Frontier]: [heapq] is a library; its contract is the typeclass
      [Frontier] with laws [FrontierLaws] (pop returns an entry least in
      Python's tuple order on [(distance, node)]); [ListHeap] implements
      it.  The search is proved against the laws only.
    - [Search]: [dijkstra] (lines 126-184): reset ([reset_nodes],
      [dijkstra_init]), one relaxation ([relax_edge]), one iteration of
      [while pq] ([dijkstra_body]) and the loop ([dijkstra_loop]); the
      invariant [dinv], the termination measure and the correctness
      theorems.
    - [Machine]: the loop of [dijkstra] as a state machine: the step
      relation [dstep] of an iteration that continues, [dstop] of the one
      that returns, the configuration [init_config] the setup builds.
    - [Reconstruct]: [reconstruct_path] (lines 187-225): one step back
      ([recon_body]) and the loop ([recon_loop]), refined by the abstract
      route [pred_route]; the printed metrics.
    - [Pipeline]: the script (lines 246-250, [main_script]): [dijkstra]
      then [reconstruct_path]; end-to-end theorems and the specification's
      scenarios.
    - [Frames]: only [save_frame] touches [frame_count] and the frames:
      their numbering through a whole run and the number of frames a run
      saves.
    - [Program]: the whole program (lines 15-24, 246-253, [program]) on
      the pair of [St] and [Disk]: [makedirs], the script with its frames
      written to the folder in order ([with_frames]), then
      [generate_video].
    - [Determinism]: two runs side by side: the search and the script
      depend only on which nodes exist.

    ** What the theorems show

    - Search: total correctness ([dijkstra_correct]): with [2 + |E|]
      iterations the search returns, finalizes nodes at their shortest
      distance, builds a shortest-path tree of [previous] links, and ends
      [Found] at the destination's shortest distance, or [Finding] when
      no path leads there; one iteration keeps the invariant and lowers
      the measure ([dijkstra_iteration]); stale heap entries are
      discarded ([dijkstra_body_stale]); nodes are finalized in order of
      distance ([dijkstra_closer_finalized]); an unknown destination
      raises [KeyError] after the reset ([dijkstra_unknown_dest]).
    - Machine: the invariant holds in every reachable configuration, by
      rule induction ([reachable_good]); finalized nodes are never
      reopened ([finalized_frozen]); the fuelled loop is a run of the
      machine ([dijkstra_runs_machine]), so both apply to [dijkstra].
    - Reconstruction: the loop refines [pred_route]
      ([recon_loop_refines]); the printed metrics are those of the walk
      back from the destination, of the recorded distance on a simple
      graph ([reconstruct_reached]); the route is drawn: every edge
      joining two consecutive nodes of it gets the path style, every
      other edge the unvisited one ([reconstruct_styles]); the
      unreachable and origin = destination cases
      ([reconstruct_unreachable], [reconstruct_same_node]).
    - Script: the three printed lines for connected endpoints, a shortest
      route on simple graphs ([main_reachable]); ["Unnaccessible goal"]
      otherwise ([main_unreachable]); [ZeroDivisionError] when the
      endpoints coincide ([main_same_node]).  The specification's
      scenario (2 km, 50, 2.4 min) and the parallel-edge case, where the
      key-0 edge is reported although the search took another, are
      checked by computation ([spec_scenario], [parallel_edges_key0]).
    - Determinism: two runs from states with the same nodes agree on
      everything the search computes ([dijkstra_deterministic]), so a
      second run on the result of a first reproduces it; a second run of
      the script prints the same lines ([main_script_repeat]).
    - Cleaning: the roundtrip of numerals through the digit filter, the
      concatenated lists, the minimum of a list, the error cases and the
      positivity of the weights it produces.
    - Frames: numbering without overwriting, and ceil(n/32) frames while
      finding; a run saves at most [2 |V| + 24] frames
      ([main_script_frames_bounded]).
    - Files and video: below 100000 the names [frame_%05d.png] sort as
      their numbers ([frame_names_sorted]); from 100000 to 999999 a frame
      [m] sorts before every frame [n < 100000] above [m / 10]
      ([frame_order_breaks]).
    - Program: on a graph of at most 49988 nodes and with no frame left
      in [Try], [output.mp4] holds exactly the frames of the run in the
      order they were saved, and the folder is removed
      ([program_video]); a [.png] file an earlier run left in [Try] ends
      up in the video unless the run writes over it
      ([program_stale_frame]); when [start = end] the run raises before
      [generate_video] and leaves its frames in [Try]
      ([program_same_node]).
    - Plot: the setup raises [ValueError] exactly on a graph without
      nodes; otherwise one polyline per edge, styled as unvisited, and
      axes limits enclosing every node ([plot_setup_spec]).

    ** Fuel

    [dijkstra_loop] runs with [dijkstra_fuel g = 2 + |E|]: every
    continuing iteration lowers the measure (frontier size plus the
    out-edges of unfinalized nodes), which starts at [1 + |E|], so the
    loop returns before the fuel ends ([dijkstra_total]).  [decimal]
    (for [str(n)]) runs with fuel [S n], more than the [n / 10] steps it
    takes.
    [recon_loop] runs with [recon_fuel g = 1 + |V|]: on a graph with
    positive weights each step back moves to a node strictly closer to
    the origin, so the number of nodes closer than the current one drops
    ([closer_pred], [pred_route_exists]).  [OutOfFuel] is thus never the
    result under the theorems' hypotheses.

    ** Not modelled

    Loading the map with osmnx (lines 1-13: network I/O, the graph is a
    parameter, and so are the node coordinates and edge geometries the
    plot setup reads), the matplotlib objects of the plot setup (a
    [PlotSetup] record of what they are given), the drawing and PNG
    encoding inside [save_frame] (what is drawn is recorded in a
    [Frame], and an image file holds that record), the video encoding of
    [imageio] (a video is its [fps] and list of frames), and
    [random.choice] (the endpoints are universally quantified).  The
    order in which [os.listdir] lists the folder is the order of the file
    table; the video does not depend on it since the paths are sorted.
    Floats are exact rationals: rounding is not modelled.  The order of
    [G.nodes] in the highlighted-node list is the order of the node map,
    not networkx's insertion order. *)

From stdpp Require Export base gmap strings list.
From Stdlib Require Export QArith Lqa ZArith.

(** ** Python floats: rationals with positive infinity *)

Inductive Dist : Type :=
| Fin (q : Q)
| Inf.

(** Python's [a > b] on the floats that occur in the search. *)
Definition dist_gtb (a b : Dist) : bool :=
  match a, b with
  | Fin x, Fin y => negb (Qle_bool x y)
  | Inf, Fin _ => true
  | _, Inf => false
  end.

(** Python's [a + w] for a distance and a finite weight. *)
Definition dist_add (a : Dist) (w : Q) : Dist :=
  match a with
  | Fin x => Fin (x + w)
  | Inf => Inf
  end.

(** The order of the extended line, up to [Qeq]. *)
Definition dist_le (a b : Dist) : Prop :=
  match a, b with
  | _, Inf => True
  | Inf, Fin _ => False
  | Fin x, Fin y => (x <= y)%Q
  end.

#[export] Instance dist_le_dec a b : Decision (dist_le a b).
Proof.
  destruct a as [x|], b as [y|]; simpl; try apply _.
  destruct (Qlt_le_dec y x); [right; lra|left; done].
Defined.

(** Syntactic equality of rationals (not [Qeq]), for records holding them. *)
#[export] Instance Q_eq_dec : EqDecision Q.
Proof. intros [a b] [c d]. destruct (decide (a = c)), (decide (b = d)); subst;
  [left; done|right; congruence..]. Defined.

#[export] Instance Dist_eq_dec : EqDecision Dist.
Proof. solve_decision. Defined.

(** ** Exceptions and the script's monad *)

(** The exceptions the modelled code can raise. *)
Inductive exn : Type :=
| KeyError
| ValueError
| ZeroDivisionError
| FileNotFoundError.

#[export] Instance exn_eq_dec : EqDecision exn.
Proof. solve_decision. Defined.

(** A computation on a state [S] returns a value and a new state, raises an
    exception in the state reached so far, or runs out of the fuel that
    bounds a [while] loop. *)
Inductive res (S A : Type) : Type :=
| Ok (a : A) (s : S)
| Raise (e : exn) (s : S)
| OutOfFuel.
Arguments Ok {S A} a s.
Arguments Raise {S A} e s.
Arguments OutOfFuel {S A}.

Definition PyM (S A : Type) : Type := S -> res S A.

Definition ret {S A} (a : A) : PyM S A := fun s => Ok a s.

Definition bind {S A B} (m : PyM S A) (k : A -> PyM S B) : PyM S B :=
  fun s => match m s with
           | Ok a s' => k a s'
           | Raise e s' => Raise e s'
           | OutOfFuel => OutOfFuel
           end.

Definition raise {S A} (e : exn) : PyM S A := fun s => Raise e s.
Definition get {S} : PyM S S := fun s => Ok s s.
Definition modify {S} (f : S -> S) : PyM S unit := fun s => Ok tt (f s).

Declare Scope py_scope.
Delimit Scope py_scope with py.
Notation "x <- m ;; k" := (bind m (fun x => k))
  (at level 100, m at next level, right associativity) : py_scope.
Notation "m ;;; k" := (bind m (fun _ => k))
  (at level 100, right associativity) : py_scope.
Open Scope py_scope.

(** Python's true division [x / y], raising [ZeroDivisionError] on 0. *)
Definition py_div {S} (x y : Q) : PyM S Q :=
  fun s => if Qeq_bool y 0 then Raise ZeroDivisionError s else Ok (x / y)%Q s.

(** [for _ in range(n): m] *)
Fixpoint repeat_m {S} (n : nat) (m : PyM S unit) : PyM S unit :=
  match n with
  | O => ret tt
  | S k => m ;;; repeat_m k m
  end.

(** [for x in xs: f x] *)
Fixpoint for_each {S A} (xs : list A) (f : A -> PyM S unit) : PyM S unit :=
  match xs with
  | [] => ret tt
  | x :: xs' => f x ;;; for_each xs' f
  end.

(** ** Automation *)

Create HintDb pf discriminated.

Ltac invc H := inversion H; subst; clear H.

(** Unfold the monad's combinators at the head of a goal or hypothesis. *)
Ltac py_simpl := cbn [bind ret raise get modify repeat_m for_each] in *.

(** ** Shared lemmas on the monad *)

Lemma bind_Ok {S A B} (m : PyM S A) (k : A -> PyM S B) s a s' :
  m s = Ok a s' -> bind m k s = k a s'.
Proof. unfold bind. intros ->. reflexivity. Qed.

Lemma bind_Raise {S A B} (m : PyM S A) (k : A -> PyM S B) s e s' :
  m s = Raise e s' -> bind m k s = Raise e s'.
Proof. unfold bind. intros ->. reflexivity. Qed.

(** [for_each] runs when every iteration runs, and preserves what every
    iteration preserves. *)
Lemma for_each_Ok {S A} (P : S -> Prop) (xs : list A) (f : A -> PyM S unit) s :
  P s ->
  (forall x s0, x ∈ xs -> P s0 -> exists s1, f x s0 = Ok tt s1 /\ P s1) ->
  exists s', for_each xs f s = Ok tt s' /\ P s'.
Proof.
  revert s. induction xs as [|x xs IH]; intros s Hs Hf; simpl.
  - eauto.
  - destruct (Hf x s) as [s1 [E1 P1]]; [left|done|].
    unfold bind. rewrite E1. apply IH; [done|].
    intros y s0 Hy. apply Hf. by right.
Qed.

Lemma repeat_m_Ok {S} (P : S -> Prop) n (m : PyM S unit) s :
  P s -> (forall s0, P s0 -> exists s1, m s0 = Ok tt s1 /\ P s1) ->
  exists s', repeat_m n m s = Ok tt s' /\ P s'.
Proof.
  revert s. induction n as [|n IH]; intros s Hs Hm; simpl; [eauto|].
  destruct (Hm s Hs) as [s1 [E1 P1]]. unfold bind. rewrite E1. auto.
Qed.

(** ** Computations that leave an observation alone

    [keeps obs m]: whenever [m] returns normally, [obs] of the state is
    unchanged (used for the printed output, which most code never
    touches). *)
Definition keeps {S A B} (obs : S -> B) (m : PyM S A) : Prop :=
  forall s a s', m s = Ok a s' -> obs s' = obs s.

Lemma keeps_ret {S A B} (obs : S -> B) (a : A) : keeps obs (ret a).
Proof. intros s ? s' E. by invc E. Qed.

Lemma keeps_raise {S A B} (obs : S -> B) e : keeps obs (raise (A := A) e).
Proof. intros s ? s' E. done. Qed.

Lemma keeps_modify {S B} (obs : S -> B) f : (forall s, obs (f s) = obs s) -> keeps obs (modify f).
Proof. intros H s ? s' E. invc E. apply H. Qed.

Lemma keeps_bind {S A C B} (obs : S -> B) (m : PyM S A) (k : A -> PyM S C) :
  keeps obs m -> (forall x, keeps obs (k x)) -> keeps obs (bind m k).
Proof.
  intros Hm Hk s c s' E. unfold bind in E. destruct (m s) as [a s1| |] eqn:E1; try done.
  rewrite (Hk a s1 c s' E). by apply (Hm s a s1).
Qed.

Lemma keeps_for_each {S A B} (obs : S -> B) (xs : list A) (f : A -> PyM S unit) :
  (forall x, keeps obs (f x)) -> keeps obs (for_each xs f).
Proof. intros Hf. induction xs as [|x xs IH]; simpl; [apply keeps_ret|by apply keeps_bind]. Qed.

Lemma keeps_repeat_m {S B} (obs : S -> B) n (m : PyM S unit) :
  keeps obs m -> keeps obs (repeat_m n m).
Proof. intros Hm. induction n as [|n IH]; simpl; [apply keeps_ret|by apply keeps_bind]. Qed.

Lemma keeps_py_div {S B} (obs : S -> B) x y : keeps obs (py_div x y).
Proof. intros s a s' E. unfold py_div in E. by destruct (Qeq_bool y 0); invc E. Qed.

Create HintDb keeps discriminated.
#[export] Hint Resolve keeps_ret keeps_raise keeps_py_div : keeps.

(** Split a [keeps] goal along the structure of the computation. *)
Ltac keeps_solve :=
  repeat first
    [ apply keeps_bind; [|intros ?]
    | apply keeps_for_each; intros ?
    | apply keeps_repeat_m
    | progress case_match
    | solve [eauto with keeps] ].

(** ** Computations that raise a counter by a bounded amount

    [adds obs b m]: whenever [m] returns normally, the counter [obs] has
    grown by at most [b] (used for the number of frames a run saves). *)
Definition adds {S A} (obs : S -> nat) (b : nat) (m : PyM S A) : Prop :=
  forall s a s', m s = Ok a s' -> (obs s' <= obs s + b)%nat.

Lemma adds_keeps {S A} (obs : S -> nat) (m : PyM S A) : keeps obs m -> adds obs 0 m.
Proof. intros H s a s' E. rewrite (H s a s' E). lia. Qed.

Lemma adds_mono {S A} (obs : S -> nat) b b' (m : PyM S A) : (b <= b')%nat -> adds obs b m -> adds obs b' m.
Proof. intros Hb H s a s' E. specialize (H s a s' E). lia. Qed.

Lemma adds_bind {S A C} (obs : S -> nat) b1 b2 (m : PyM S A) (k : A -> PyM S C) :
  adds obs b1 m -> (forall x, adds obs b2 (k x)) -> adds obs (b1 + b2)%nat (bind m k).
Proof.
  intros Hm Hk s c s' E. unfold bind in E. destruct (m s) as [a s1| |] eqn:E1; try done.
  specialize (Hk a s1 c s' E). specialize (Hm s a s1 E1). lia.
Qed.

Lemma adds_repeat_m {S} (obs : S -> nat) n b (m : PyM S unit) :
  adds obs b m -> adds obs (n * b)%nat (repeat_m n m).
Proof.
  intros Hm. induction n as [|n IH]; simpl; [apply adds_keeps, keeps_ret|]. by apply adds_bind.
Qed.

Lemma adds_ret {S A} (obs : S -> nat) b (a : A) : adds obs b (ret a).
Proof. intros s ? s' E. invc E. lia. Qed.

(** A prefix that keeps the counter spends nothing of the bound, nor does a
    continuation that keeps it. *)
Lemma adds_bind_keeps {S A C} (obs : S -> nat) b (m : PyM S A) (k : A -> PyM S C) :
  keeps obs m -> (forall x, adds obs b (k x)) -> adds obs b (bind m k).
Proof. intros Hm Hk. apply (adds_bind obs 0 b); [by apply adds_keeps|done]. Qed.

Lemma adds_bind_then_keeps {S A C} (obs : S -> nat) b (m : PyM S A) (k : A -> PyM S C) :
  adds obs b m -> (forall x, keeps obs (k x)) -> adds obs b (bind m k).
Proof.
  intros Hm Hk. replace b with (b + 0)%nat by lia. apply adds_bind; [done|]. intros x. by apply adds_keeps.
Qed.

Create HintDb adds discriminated.
#[export] Hint Resolve adds_ret : adds.

(** Split an [adds] goal: the parts that keep the counter are discharged
    by [keeps_solve], the others by the [adds] hints. *)
Ltac adds_solve :=
  repeat first
    [ apply adds_bind_keeps; [solve [keeps_solve]|intros ?]
    | apply adds_bind_then_keeps; [|intros ?; solve [keeps_solve]]
    | progress case_match
    | solve [apply adds_keeps; keeps_solve]
    | solve [eauto with adds] ].

(** A computation that returned went through each of its steps. *)
Lemma bind_Ok_inv {S A B} (m : PyM S A) (k : A -> PyM S B) s b s' :
  bind m k s = Ok b s' -> exists a s1, m s = Ok a s1 /\ k a s1 = Ok b s'.
Proof. unfold bind. destruct (m s) as [a s1| |]; [eauto|done|done]. Qed.

(** ** Two runs of one computation

    [rel R Q m1 m2]: from states related by [R], the two computations end
    alike (both return, both raise the same exception, or both run out of
    fuel), in states related by [R], returning values related by [Q].  A
    relational reading of the monad, used to show that a computation only
    depends on part of its state. *)
Definition res_rel {S A B} (R : S -> S -> Prop) (Q : A -> B -> Prop) (r1 : res S A) (r2 : res S B) : Prop :=
  match r1, r2 with
  | Ok a s1, Ok b s2 => Q a b /\ R s1 s2
  | Raise e1 s1, Raise e2 s2 => e1 = e2 /\ R s1 s2
  | OutOfFuel, OutOfFuel => True
  | _, _ => False
  end.

Definition rel {S A B} (R : S -> S -> Prop) (Q : A -> B -> Prop) (m1 : PyM S A) (m2 : PyM S B) : Prop :=
  forall s1 s2, R s1 s2 -> res_rel R Q (m1 s1) (m2 s2).

Lemma rel_ret {S A B} (R : S -> S -> Prop) (Q : A -> B -> Prop) a b : Q a b -> rel R Q (ret a) (ret b).
Proof. intros Hq s1 s2 Hr. by split. Qed.

Lemma rel_raise {S A B} (R : S -> S -> Prop) (Q : A -> B -> Prop) e : rel R Q (raise e) (raise e).
Proof. intros s1 s2 Hr. by split. Qed.

Lemma rel_fuel {S A B} (R : S -> S -> Prop) (Q : A -> B -> Prop) :
  rel R Q (fun _ => OutOfFuel) (fun _ => OutOfFuel).
Proof. done. Qed.

Lemma rel_bind {S A B C D} (R : S -> S -> Prop) (Q : A -> B -> Prop) (Q' : C -> D -> Prop)
    m1 m2 (k1 : A -> PyM S C) (k2 : B -> PyM S D) :
  rel R Q m1 m2 -> (forall a b, Q a b -> rel R Q' (k1 a) (k2 b)) -> rel R Q' (bind m1 k1) (bind m2 k2).
Proof.
  intros Hm Hk s1 s2 Hr. unfold bind. specialize (Hm s1 s2 Hr).
  destruct (m1 s1) as [a t1|e1 t1|], (m2 s2) as [b t2|e2 t2|]; try done.
  destruct Hm as [Hq Ht]. by apply Hk.
Qed.

Lemma rel_for_each {S A} (R : S -> S -> Prop) (xs : list A) (f : A -> PyM S unit) :
  (forall x, rel R eq (f x) (f x)) -> rel R eq (for_each xs f) (for_each xs f).
Proof.
  intros Hf. induction xs as [|x xs IH]; simpl; [by apply rel_ret|].
  apply (rel_bind _ eq); [done|]. by intros ?? ->.
Qed.

Lemma rel_repeat_m {S} (R : S -> S -> Prop) n (m : PyM S unit) :
  rel R eq m m -> rel R eq (repeat_m n m) (repeat_m n m).
Proof.
  intros Hm. induction n as [|n IH]; simpl; [by apply rel_ret|].
  apply (rel_bind _ eq); [done|]. by intros ?? ->.
Qed.

Lemma rel_modify {S} (R : S -> S -> Prop) f : (forall s1 s2, R s1 s2 -> R (f s1) (f s2)) -> rel R eq (modify f) (modify f).
Proof. intros Hf s1 s2 Hr. split; auto. Qed.

(** ** Shared lemmas on distances *)

Lemma dist_gtb_true a b : dist_gtb a b = true <-> ~ dist_le a b.
Proof.
  destruct a as [x|], b as [y|]; simpl.
  - by rewrite negb_true_iff, <- not_true_iff_false, Qle_bool_iff.
  - split; [discriminate|intros H; by destruct H].
  - split; [intros _ []|done].
  - split; [discriminate|intros H; by destruct H].
Qed.

Lemma dist_gtb_false a b : dist_gtb a b = false <-> dist_le a b.
Proof.
  pose proof (dist_gtb_true a b). destruct (dist_gtb a b).
  - split; [done|]. intros Hle. exfalso. by apply H.
  - split; [|done]. intros _. destruct (decide (dist_le a b)); [done|].
    exfalso. apply (proj2 H) in n. discriminate.
Qed.

Lemma dist_le_refl a : dist_le a a.
Proof. destruct a; simpl; [apply Qle_refl|done]. Qed.

Lemma dist_le_trans a b c : dist_le a b -> dist_le b c -> dist_le a c.
Proof.
  destruct a, b, c; simpl; try done. apply Qle_trans.
Qed.

Lemma dist_le_Inf a : dist_le a Inf.
Proof. by destruct a. Qed.

Lemma dist_le_add a w : (0 <= w)%Q -> dist_le a (dist_add a w).
Proof. destruct a; simpl; [lra|done]. Qed.

Lemma dist_le_add_mono a b w : dist_le a b -> dist_le (dist_add a w) (dist_add b w).
Proof. destruct a, b; simpl; try done. lra. Qed.

#[export] Hint Resolve dist_le_refl dist_le_Inf dist_le_add : pf.

Local Open Scope nat_scope.

(** ** Shared lemmas on sums over lists *)

Lemma sum_list_with_cons {A} (f : A -> nat) a l :
  sum_list_with f (a :: l) = f a + sum_list_with f l.
Proof. reflexivity. Qed.

Lemma sum_list_with_ext {A} (f f' : A -> nat) (l : list A) :
  (forall y, y ∈ l -> f' y = f y) -> sum_list_with f' l = sum_list_with f l.
Proof.
  induction l as [|a l IH]; intros Hf; [done|]. rewrite !sum_list_with_cons.
  rewrite (Hf a) by left. rewrite IH; [done|]. intros y Hy. apply Hf. by right.
Qed.

(** Changing a summand at one element of a duplicate-free list. *)
Lemma sum_list_with_point {A} `{EqDecision A} (f f' : A -> nat) (l : list A) x :
  NoDup l -> x ∈ l -> (forall y, y <> x -> f' y = f y) ->
  sum_list_with f' l + f x = sum_list_with f l + f' x.
Proof.
  induction l as [|a l IH]; intros Hnd Hx Hf; [set_solver|].
  apply NoDup_cons in Hnd as [Ha Hnd]. rewrite !sum_list_with_cons.
  destruct (decide (a = x)) as [->|Hne].
  - rewrite (sum_list_with_ext f f' l); [lia|]. intros y Hy. apply Hf. set_solver.
  - apply elem_of_cons in Hx as [->|Hx]; [done|].
    rewrite (Hf a) by done. specialize (IH Hnd Hx Hf). lia.
Qed.

Lemma sum_list_with_le {A} (f f' : A -> nat) (l : list A) :
  (forall y, f' y <= f y) -> sum_list_with f' l <= sum_list_with f l.
Proof.
  intros Hf. induction l as [|a l IH]; [done|]. rewrite !sum_list_with_cons.
  specialize (Hf a). lia.
Qed.

(** At most one element of a duplicate-free list is equal to [x]. *)
Lemma sum_list_with_lt {A} (f f' : A -> nat) (l : list A) y :
  (forall z, f' z <= f z) -> y ∈ l -> f' y < f y -> sum_list_with f' l < sum_list_with f l.
Proof.
  intros Hle Hy Hlt. induction l as [|x l IH]; [set_solver|]. rewrite !sum_list_with_cons.
  pose proof (sum_list_with_le f f' l Hle). pose proof (Hle x).
  apply elem_of_cons in Hy as [->|Hy]; [lia|]. specialize (IH Hy). lia.
Qed.

Lemma sum_list_with_bounded {A} (f : A -> nat) (l : list A) :
  (forall y, f y <= 1) -> sum_list_with f l <= length l.
Proof. intros H. induction l as [|x l IH]; [done|]. rewrite sum_list_with_cons. simpl. specialize (H x). lia. Qed.

Lemma sum_list_with_indicator {A} `{EqDecision A} (l : list A) x :
  NoDup l -> sum_list_with (fun y => if decide (x = y) then 1 else 0) l <= 1.
Proof.
  induction l as [|a l IH]; intros Hnd; [simpl; lia|]. rewrite sum_list_with_cons.
  apply NoDup_cons in Hnd as [Ha Hnd]. case_decide; [subst|by apply IH].
  rewrite (sum_list_with_ext (fun _ => 0)); [|intros y Hy; case_decide; [set_solver|done]].
  clear. induction l; [simpl; lia|]. rewrite sum_list_with_cons. lia.
Qed.

Lemma sum_list_with_plus {A} (f h : A -> nat) (l : list A) :
  sum_list_with (fun y => f y + h y) l = sum_list_with f l + sum_list_with h l.
Proof. induction l as [|a l IH]; [done|]. rewrite !sum_list_with_cons, IH. lia. Qed.

Lemma sum_list_with_zero {A} (l : list A) : sum_list_with (fun _ => 0) l = 0.
Proof. induction l as [|a l IH]; [done|]. by rewrite sum_list_with_cons, IH. Qed.
