(* ===== verification/PyString.v ===== *)
(** * PyString: the string operations the script uses

    Python's [str] as [String.string] over ASCII characters:
    - [str(n)] of a natural number ([decimal]) and the format spec
      [f"{n:05d}"] of line 122 ([format_0d 5]): the decimal digits,
      left-padded with '0' to the width;
    - [str.endswith] (line 232) and the prefix test behind [os.listdir];
    - the order [sorted] uses on strings: Python compares code points one
      by one, a proper prefix first, which on ASCII is [String.compare]
      and stdpp's total order [String.le].

    The lemmas relate the order of two strings to that of their parts: a
    common prefix does not matter, and two numbers written on the same
    number of digits compare as the numbers do. *)

From S2P Require Import Prelude.
From Stdlib Require Import Ascii.
Local Open Scope nat_scope.

Module PyString.

(** ** Definitions *)

Definition digit_char (d : nat) : Ascii.ascii := Ascii.ascii_of_nat (48 + d).

Fixpoint decimal_aux (fuel n : nat) : string :=
  match fuel with
  | O => EmptyString
  | S f =>
      if (n <? 10)%nat then String (digit_char n) EmptyString
      else String.append (decimal_aux f (n / 10)) (String (digit_char (n mod 10)) EmptyString)
  end.

(** [str(n)]; the fuel [S n] is more than the [n / 10] steps need. *)
Definition decimal (n : nat) : string := decimal_aux (S n) n.

(** [k] characters '0'. *)
Fixpoint zeros (k : nat) : string :=
  match k with
  | O => EmptyString
  | S k' => String "0"%char (zeros k')
  end.

(** The format spec [0wd] applied to [n >= 0]: [str(n)], left-padded with
    '0' up to width [w] (longer numerals are kept whole). *)
Definition format_0d (w n : nat) : string :=
  let s := decimal n in String.append (zeros (w - String.length s)) s.

(** The [k] lowest decimal digits of [n], most significant first. *)
Fixpoint fixed_digits (k n : nat) : string :=
  match k with
  | O => EmptyString
  | S k' => String.append (fixed_digits k' (n / 10)) (String (digit_char (n mod 10)) EmptyString)
  end.

(** [s.endswith(suf)]: some suffix of [s] is [suf]. *)
Fixpoint ends_with (suf s : string) : bool :=
  bool_decide (s = suf) ||
  match s with
  | EmptyString => false
  | String _ s' => ends_with suf s'
  end.

(** [s] with the prefix [pre] removed, when [s] starts with it. *)
Fixpoint strip_prefix (pre s : string) : option string :=
  match pre, s with
  | EmptyString, _ => Some s
  | String a pre', String b s' => if bool_decide (a = b) then strip_prefix pre' s' else None
  | String _ _, EmptyString => None
  end.

(** ** Appending *)

Lemma append_cons c s1 s2 : String.append (String c s1) s2 = String c (String.append s1 s2).
Proof. reflexivity. Qed.

Lemma append_empty_l s : String.append EmptyString s = s.
Proof. reflexivity. Qed.

Lemma append_empty_r s : String.append s EmptyString = s.
Proof. induction s as [|c s IH]; [reflexivity|]. by rewrite append_cons, IH. Qed.

Lemma append_assoc s1 s2 s3 :
  String.append (String.append s1 s2) s3 = String.append s1 (String.append s2 s3).
Proof. induction s1 as [|c s IH]; [reflexivity|]. by rewrite !append_cons, IH. Qed.

Lemma length_append s1 s2 : String.length (String.append s1 s2) = String.length s1 + String.length s2.
Proof. induction s1 as [|c s IH]; [reflexivity|]. rewrite append_cons. simpl. by rewrite IH. Qed.

#[export] Hint Rewrite append_cons append_empty_l append_empty_r append_assoc length_append : pystr.

(** ** Order *)

(** Past two parts of the same length, the comparison goes on with what
    follows them. *)
Lemma compare_app_len x y a b :
  String.length x = String.length y ->
  String.compare (String.append x a) (String.append y b) =
  match String.compare x y with Eq => String.compare a b | c => c end.
Proof.
  revert y. induction x as [|c x IH]; intros [|d y] Hl; simpl in Hl; try done.
  rewrite !append_cons. cbn [String.compare]. destruct (Ascii.compare c d); auto.
Qed.

Lemma compare_refl x : String.compare x x = Eq.
Proof. induction x as [|c x IH]; [done|]. cbn. unfold Ascii.compare. by rewrite N.compare_refl. Qed.

(** A common prefix does not change the order. *)
Lemma compare_prefix p a b : String.compare (String.append p a) (String.append p b) = String.compare a b.
Proof. by rewrite compare_app_len, compare_refl. Qed.

Lemma digit_char_compare d1 d2 :
  d1 < 10 -> d2 < 10 -> Ascii.compare (digit_char d1) (digit_char d2) = Nat.compare d1 d2.
Proof.
  intros H1 H2. unfold Ascii.compare, digit_char, Ascii.ascii_of_nat.
  rewrite !Ascii.N_ascii_embedding by lia. rewrite <- Nat2N.inj_compare.
  destruct (Nat.compare_spec d1 d2); [apply Nat.compare_eq_iff|apply Nat.compare_lt_iff|
    apply Nat.compare_gt_iff]; lia.
Qed.

Lemma fixed_digits_length k n : String.length (fixed_digits k n) = k.
Proof. revert n. induction k as [|k IH]; intros n; [done|]. simpl. rewrite length_append, IH. simpl. lia. Qed.

(** Two numbers below [10 ^ k], written on [k] digits, compare as the
    numbers do. *)
Lemma fixed_digits_compare k n m :
  n < 10 ^ k -> m < 10 ^ k ->
  String.compare (fixed_digits k n) (fixed_digits k m) = Nat.compare n m.
Proof.
  revert n m. induction k as [|k IH]; intros n m Hn Hm; simpl in Hn, Hm; [by replace n with 0 by lia;
    replace m with 0 by lia|].
  cbn [fixed_digits]. rewrite compare_app_len by (by rewrite !fixed_digits_length).
  rewrite IH by (apply Nat.Div0.div_lt_upper_bound; lia).
  pose proof (Nat.div_mod_eq n 10). pose proof (Nat.div_mod_eq m 10).
  pose proof (Nat.mod_upper_bound n 10 ltac:(lia)). pose proof (Nat.mod_upper_bound m 10 ltac:(lia)).
  destruct (Nat.compare_spec (n / 10) (m / 10)) as [E|E|E].
  - cbn [String.compare]. rewrite digit_char_compare by done.
    destruct (Nat.compare_spec (n mod 10) (m mod 10)); symmetry;
      [apply Nat.compare_eq_iff|apply Nat.compare_lt_iff|apply Nat.compare_gt_iff]; lia.
  - symmetry. apply Nat.compare_lt_iff. lia.
  - symmetry. apply Nat.compare_gt_iff. lia.
Qed.

(** ** Padding *)

Lemma zeros_snoc k : String.append (zeros k) (String "0"%char EmptyString) = String "0"%char (zeros k).
Proof. induction k as [|k IH]; [done|]. simpl. rewrite append_cons. by rewrite IH. Qed.

Lemma fixed_digits_zero k : fixed_digits k 0 = zeros k.
Proof. induction k as [|k IH]; [done|]. cbn [fixed_digits]. rewrite Nat.Div0.div_0_l, IH. apply zeros_snoc. Qed.

Lemma decimal_aux_pad w fuel n :
  n < 10 ^ S w -> n < fuel ->
  String.append (zeros (S w - String.length (decimal_aux fuel n))) (decimal_aux fuel n) = fixed_digits (S w) n.
Proof.
  revert fuel n. induction w as [|w IH]; intros [|f] n Hn Hf; try lia; cbn [decimal_aux].
  - simpl in Hn. rewrite (proj2 (Nat.ltb_lt n 10)) by lia. cbn [fixed_digits].
    rewrite Nat.mod_small by lia. reflexivity.
  - destruct (Nat.ltb_spec n 10) as [Hlt|Hge].
    + change (fixed_digits (S (S w)) n) with
        (String.append (fixed_digits (S w) (n / 10)) (String (digit_char (n mod 10)) EmptyString)).
      rewrite Nat.div_small, Nat.mod_small, fixed_digits_zero by lia.
      replace (S (S w) - String.length (String (digit_char n) EmptyString)) with (S w) by (simpl; lia).
      reflexivity.
    + rewrite length_append. cbn [String.length].
      replace (S (S w) - (String.length (decimal_aux f (n / 10)) + 1))
        with (S w - String.length (decimal_aux f (n / 10))) by lia.
      rewrite <- append_assoc, IH.
      * reflexivity.
      * apply Nat.Div0.div_lt_upper_bound. simpl in *. lia.
      * assert (n / 10 < n) by (apply Nat.div_lt; lia). lia.
Qed.

(** Below [10 ^ w], [f"{n:0wd}"] is [n] written on exactly [w] digits. *)
Lemma format_0d_fixed w n : 0 < w -> n < 10 ^ w -> format_0d w n = fixed_digits w n.
Proof. intros Hw Hn. destruct w as [|w]; [lia|]. apply decimal_aux_pad; lia. Qed.

(** [str(n)] has more than [k] digits from [10 ^ k] on. *)
Lemma decimal_aux_length k fuel n : 10 ^ k <= n -> n < fuel -> k < String.length (decimal_aux fuel n).
Proof.
  revert fuel n. induction k as [|k IH]; intros [|f] n Hk Hf; try lia; cbn [decimal_aux].
  - destruct (n <? 10); [simpl; lia|]. rewrite length_append. simpl. lia.
  - rewrite Nat.pow_succ_r' in Hk. rewrite (proj2 (Nat.ltb_ge n 10)) by (pose proof (Nat.pow_le_mono_r 10 0 k); simpl in *; lia).
    rewrite length_append. cbn [String.length].
    assert (10 ^ k <= n / 10) by (apply Nat.div_le_lower_bound; lia).
    assert (n / 10 < n) by (apply Nat.div_lt; pose proof (Nat.pow_le_mono_r 10 0 k); simpl in *; lia).
    specialize (IH f (n / 10) ltac:(done) ltac:(lia)). lia.
Qed.

(** From [10 ^ w] on, [f"{n:0wd}"] is [str(n)] unpadded: [n] on [w + 1]
    digits below [10 ^ (w + 1)]. *)
Lemma format_0d_over w n : 10 ^ w <= n -> n < 10 ^ S w -> format_0d w n = fixed_digits (S w) n.
Proof.
  intros H1 H2. unfold format_0d, decimal. rewrite <- (decimal_aux_pad w (S n) n) by lia.
  pose proof (decimal_aux_length w (S n) n H1 ltac:(lia)).
  replace (w - String.length (decimal_aux (S n) n)) with 0 by lia.
  by replace (S w - String.length (decimal_aux (S n) n)) with 0 by lia.
Qed.

(** Past the width, the order of the padded numerals is no longer that of
    the numbers: [m >= 10 ^ w] sorts before any [n < 10 ^ w] whose
    numeral is above the first [w] digits of [m]'s. *)
Lemma format_0d_overflow_compare w n m sfx :
  0 < w -> n < 10 ^ w -> 10 ^ w <= m -> m < 10 ^ S w -> m / 10 < n ->
  String.compare (String.append (format_0d w m) sfx) (String.append (format_0d w n) sfx) = Lt.
Proof.
  intros Hw Hn Hm Hm' Hlt. rewrite format_0d_over, (format_0d_fixed w n) by done.
  cbn [fixed_digits]. rewrite append_assoc, compare_app_len by (by rewrite !fixed_digits_length).
  rewrite fixed_digits_compare; [by rewrite (proj2 (Nat.compare_lt_iff _ _) Hlt)| |done].
  apply Nat.Div0.div_lt_upper_bound. by rewrite <- Nat.pow_succ_r'.
Qed.

(** ** Suffixes and prefixes *)

Lemma ends_with_append suf p : ends_with suf (String.append p suf) = true.
Proof.
  induction p as [|c p IH].
  - rewrite append_empty_l. destruct suf; cbn [ends_with]; by rewrite bool_decide_true.
  - rewrite append_cons. cbn [ends_with]. rewrite IH. apply orb_true_r.
Qed.

Lemma strip_prefix_append pre s : strip_prefix pre (String.append pre s) = Some s.
Proof. induction pre as [|c pre IH]; [by destruct s|]. simpl. by rewrite bool_decide_true. Qed.

Lemma strip_prefix_Some pre s r : strip_prefix pre s = Some r -> s = String.append pre r.
Proof.
  revert s. induction pre as [|c pre IH]; intros [|d s] E; simpl in E; try by simplify_eq.
  case_bool_decide; [subst|done]. rewrite append_cons. f_equal. by apply IH.
Qed.

End PyString.
