(* ===== verification/Graph.v ===== *)
(** * Graph: the road network, its attributes and the script's state

    Models the networkx [MultiDiGraph] [G] of src/main.py as the search
    uses it: a list of nodes, a list of keyed directed edges carrying the
    cleaned [length], [maxspeed] and [weight] (these never change after
    the cleaning loop), the mutable per-node dictionary [G.nodes[n]]
    (search fields and highlight), the mutable edge styling written by
    [style_*_edge] (lines 39-63), the per-algorithm use counters of
    [reconstruct_path], the global [stage] and the frame counter.

    The order of [g_edges] is the order of [G.edges]: [out_edges] keeps
    it, which is the order networkx yields [G.out_edges(node)] in. *)

From S2P Require Import Prelude.
Local Open Scope nat_scope.

Abbreviation node := nat (only parsing).

(** [(u, v, key)], the key of an edge of a multigraph. *)
Definition ekey : Type := (node * node * nat)%type.

(** ** Static structure *)

Record Edge : Type := mkEdge {
  e_u : node;
  e_v : node;
  e_key : nat;
  e_length : Q;
  e_maxspeed : Z;
  e_weight : Q
}.

Definition ekey_of (e : Edge) : ekey := (e_u e, e_v e, e_key e).

#[export] Instance Edge_eq_dec : EqDecision Edge.
Proof. solve_decision. Defined.

Record Graph : Type := mkGraph {
  g_nodes : list node;
  g_edges : list Edge
}.

(** [G.out_edges(n, keys=True)] *)
Definition out_edges (g : Graph) (n : node) : list Edge :=
  filter (fun e => e_u e = n) (g_edges g).

(** [G[u][v]]: the parallel edges from [u] to [v], in key order. *)
Definition edges_between (g : Graph) (u v : node) : list Edge :=
  filter (fun e => e_u e = u /\ e_v e = v) (g_edges g).

(** [G.edges[k]], [None] where networkx raises [KeyError]. *)
Definition find_edge (g : Graph) (k : ekey) : option Edge :=
  List.find (fun e => bool_decide (ekey_of e = k)) (g_edges g).

Definition is_edge (g : Graph) (k : ekey) : bool :=
  bool_decide (k ∈ ekey_of <$> g_edges g).

(** The graph is well formed: nodes are distinct, edge keys are distinct,
    and every edge joins two nodes of the graph. *)
Record wf_graph (g : Graph) : Prop := {
  wf_nodes_nodup : NoDup (g_nodes g);
  wf_keys_nodup : NoDup (ekey_of <$> g_edges g);
  wf_edge_src : forall e, e ∈ g_edges g -> e_u e ∈ g_nodes g;
  wf_edge_dst : forall e, e ∈ g_edges g -> e_v e ∈ g_nodes g
}.

(** ** Mutable attributes *)

(** The global [stage] of the script. *)
Inductive Stage : Type := Finding | Reconstructing | Found.

#[export] Instance Stage_eq_dec : EqDecision Stage.
Proof. solve_decision. Defined.

(** [G.nodes[n]]: the fields the search and the styling write. *)
Record NodeAttr : Type := mkNodeAttr {
  visited : bool;
  distance : Dist;
  previous : option node;
  node_size : nat;
  highlight : bool;
  node_color : string
}.

(** The color, alpha and line width written on [G.edges[k]]. *)
Record EdgeStyle : Type := mkEdgeStyle {
  color : string;
  alpha : Q;
  linewidth : Q
}.

(** A saved frame: its number (the [frame_%05d.png] file name) and what is
    drawn: the edge styles (lines 109-111) and the highlighted nodes with
    their size and color (lines 113-118). *)
Record Frame : Type := mkFrame {
  fr_index : nat;
  fr_styles : gmap ekey EdgeStyle;
  fr_points : list (node * nat * string)
}.

(** A line the script prints (lines 202, 219-221). *)
Inductive Printed : Type :=
| PUnaccessible
| PDistance (km : Q)
| PAvgSpeed (v : Q)
| PTotalTime (minutes : Q).

Record St : Type := mkSt {
  nattr : gmap node NodeAttr;
  estyle : gmap ekey EdgeStyle;
  euses : gmap (ekey * string) nat;
  stage : Stage;
  frame_count : nat;
  frames : list Frame;
  printed : list Printed
}.

Definition set_nattr (m : gmap node NodeAttr) (s : St) : St :=
  mkSt m (estyle s) (euses s) (stage s) (frame_count s) (frames s) (printed s).
Definition set_estyle (m : gmap ekey EdgeStyle) (s : St) : St :=
  mkSt (nattr s) m (euses s) (stage s) (frame_count s) (frames s) (printed s).
Definition set_euses (m : gmap (ekey * string) nat) (s : St) : St :=
  mkSt (nattr s) (estyle s) m (stage s) (frame_count s) (frames s) (printed s).
Definition set_stage_st (x : Stage) (s : St) : St :=
  mkSt (nattr s) (estyle s) (euses s) x (frame_count s) (frames s) (printed s).
Definition add_printed (x : Printed) (s : St) : St :=
  mkSt (nattr s) (estyle s) (euses s) (stage s) (frame_count s) (frames s) (printed s ++ [x]).
Definition add_frame (f : Frame) (s : St) : St :=
  mkSt (nattr s) (estyle s) (euses s) (stage s) (S (frame_count s)) (frames s ++ [f]) (printed s).

(** ** Primitive operations on the graph's dictionaries *)

(** [G.nodes[n]], raising [KeyError] for an unknown node. *)
Definition get_node (n : node) : PyM St NodeAttr :=
  fun s => match nattr s !! n with
           | Some a => Ok a s
           | None => Raise KeyError s
           end.

(** [G.nodes[n][field] = value], the update given as a function. *)
Definition update_node (n : node) (f : NodeAttr -> NodeAttr) : PyM St unit :=
  fun s => match nattr s !! n with
           | Some a => Ok tt (set_nattr (<[n := f a]> (nattr s)) s)
           | None => Raise KeyError s
           end.

(** [G.edges[k]["color"] = ...; ["alpha"] = ...; ["linewidth"] = ...] *)
Definition set_edge_style (g : Graph) (k : ekey) (st : EdgeStyle) : PyM St unit :=
  fun s => if is_edge g k then Ok tt (set_estyle (<[k := st]> (estyle s)) s)
           else Raise KeyError s.

Definition set_stage (x : Stage) : PyM St unit := modify (set_stage_st x).

(** [print(...)] *)
Definition print (x : Printed) : PyM St unit := modify (add_printed x).

(** ** Style utilities, lines 39-63 *)

Definition unvisited_style : EdgeStyle := mkEdgeStyle "#d36206" (1#5) (1#2).
Definition visited_style : EdgeStyle := mkEdgeStyle "#d36206" 1 1.
Definition active_style : EdgeStyle := mkEdgeStyle "#e8a900" 1 1.
Definition path_style : EdgeStyle := mkEdgeStyle "white" 1 1.

Definition style_unvisited_edge (g : Graph) (k : ekey) := set_edge_style g k unvisited_style.
Definition style_visited_edge (g : Graph) (k : ekey) := set_edge_style g k visited_style.
Definition style_active_edge (g : Graph) (k : ekey) := set_edge_style g k active_style.
Definition style_path_edge (g : Graph) (k : ekey) := set_edge_style g k path_style.

Definition style_start_end (n : node) : PyM St unit :=
  update_node n (fun a => mkNodeAttr (visited a) (distance a) (previous a) 25 true "#FFFFFF").

(** [for edge in G.edges: style_unvisited_edge(edge)] *)
Definition style_all_unvisited (g : Graph) : PyM St unit :=
  for_each (ekey_of <$> g_edges g) (style_unvisited_edge g).

(** ** Paths *)

(** [walk g u es v]: the edges [es] form a directed path from [u] to [v]. *)
Inductive walk (g : Graph) : node -> list Edge -> node -> Prop :=
| walk_nil u : walk g u [] u
| walk_cons e es v :
    e ∈ g_edges g -> walk g (e_v e) es v -> walk g (e_u e) (e :: es) v.

Definition pweight (es : list Edge) : Q := fold_right (fun e acc => e_weight e + acc)%Q 0%Q es.

(** [d] is the length of a shortest path from [s] to [t]. *)
Definition shortest (g : Graph) (s t : node) (d : Q) : Prop :=
  (exists es, walk g s es t /\ pweight es == d) /\
  (forall es, walk g s es t -> (d <= pweight es)%Q).

Definition nonneg_weights (g : Graph) : Prop := forall e, e ∈ g_edges g -> (0 <= e_weight e)%Q.
Definition pos_weights (g : Graph) : Prop := forall e, e ∈ g_edges g -> (0 < e_weight e)%Q.

(** Every node of [g] has its dictionary, and nothing else. *)
Definition wf_nodes (g : Graph) (m : gmap node NodeAttr) : Prop :=
  forall n, n ∈ g_nodes g <-> is_Some (m !! n).

(** networkx numbers the parallel edges of a pair [u, v] from key 0, so
    every pair joined by an edge has an edge of key 0. *)
Definition keys_from_zero (g : Graph) : Prop :=
  forall e, e ∈ g_edges g -> is_edge g (e_u e, e_v e, 0) = true.

(** No two edges join the same pair of nodes. *)
Definition simple_graph (g : Graph) : Prop :=
  forall e e', e ∈ g_edges g -> e' ∈ g_edges g -> e_u e = e_u e' -> e_v e = e_v e' -> e = e'.

(** Every edge has a positive speed limit, as [clean_edge] guarantees. *)
Definition pos_speeds (g : Graph) : Prop := forall e, e ∈ g_edges g -> (0 < e_maxspeed e)%Z.

Definition wf_state (g : Graph) (s : St) : Prop := wf_nodes g (nattr s).

(** The state of a freshly loaded graph: one dictionary per node, with
    the search fields at their reset values (the script always runs
    [dijkstra] first, which resets them), no styles and no frames. *)
Definition blank_attr : NodeAttr := mkNodeAttr false Inf None 0 false "".

Definition blank_state (ns : list node) : St :=
  mkSt (list_to_map ((fun n => (n, blank_attr)) <$> ns)) ∅ ∅ Finding 0 [] [].

(** ** Decision procedures for the well-formedness conditions *)

Definition wf_graph_b (g : Graph) : bool :=
  bool_decide (NoDup (g_nodes g)) && bool_decide (NoDup (ekey_of <$> g_edges g)) &&
  forallb (fun e => bool_decide (e_u e ∈ g_nodes g) && bool_decide (e_v e ∈ g_nodes g)) (g_edges g).

Definition nonneg_weights_b (g : Graph) : bool := forallb (fun e => Qle_bool 0 (e_weight e)) (g_edges g).
Definition pos_weights_b (g : Graph) : bool :=
  forallb (fun e => negb (Qle_bool (e_weight e) 0)) (g_edges g).

(** ** Reading the search fields *)

Definition dist_of (m : gmap node NodeAttr) (n : node) : Dist :=
  match m !! n with Some a => distance a | None => Inf end.
Definition vis_of (m : gmap node NodeAttr) (n : node) : bool :=
  match m !! n with Some a => visited a | None => false end.
Definition prev_of (m : gmap node NodeAttr) (n : node) : option node :=
  match m !! n with Some a => previous a | None => None end.

Definition dist_at (s : St) : node -> Dist := dist_of (nattr s).
Definition vis_at (s : St) : node -> bool := vis_of (nattr s).
Definition prev_at (s : St) : node -> option node := prev_of (nattr s).

(** The [previous] links form a tree of shortest-path edges rooted at
    [orig]: the origin is at distance 0 and has no [previous], it is the only reached node
    without one, and a node's [previous] is reached and joined to it by an
    edge accounting exactly for the node's distance. *)
Definition pred_tree (g : Graph) (orig : node) (m : gmap node NodeAttr) : Prop :=
  dist_of m orig = Fin 0 /\ prev_of m orig = None /\
  (forall n, prev_of m n = None -> dist_of m n <> Inf -> n = orig) /\
  (forall n p, prev_of m n = Some p -> dist_of m p <> Inf /\
     exists e, e ∈ out_edges g p /\ e_v e = n /\ dist_of m n = dist_add (dist_of m p) (e_weight e)).

(** An operation is quiet when it leaves the stage and the frames alone. *)
Definition quiet (s s' : St) : Prop :=
  stage s' = stage s /\ frame_count s' = frame_count s /\ frames s' = frames s /\
  printed s' = printed s.

(** ** Lemmas *)

Lemma out_edges_spec g n e : e ∈ out_edges g n <-> e ∈ g_edges g /\ e_u e = n.
Proof. unfold out_edges. rewrite list_elem_of_filter. tauto. Qed.

Lemma is_edge_of g e : e ∈ g_edges g -> is_edge g (ekey_of e) = true.
Proof. intros H. unfold is_edge. apply bool_decide_eq_true. by apply list_elem_of_fmap_2. Qed.

Lemma get_node_Some n a s : nattr s !! n = Some a -> get_node n s = Ok a s.
Proof. unfold get_node. by intros ->. Qed.

Lemma set_edge_style_nattr g k x s s' :
  set_edge_style g k x s = Ok tt s' -> nattr s' = nattr s.
Proof. unfold set_edge_style. destruct (is_edge g k); intros H; by invc H. Qed.

Lemma walk_app g u es1 v es2 w :
  walk g u es1 v -> walk g v es2 w -> walk g u (es1 ++ es2) w.
Proof. induction 1; simpl; [done|]. intros. constructor; auto. Qed.

Lemma walk_snoc g u es e :
  walk g u es (e_u e) -> e ∈ g_edges g -> walk g u (es ++ [e]) (e_v e).
Proof. intros. eapply walk_app; [done|]. repeat constructor; done. Qed.

(** A set of nodes that no edge leaves contains every node reachable from it. *)
Lemma walk_closed g (ns : list node) u es v :
  Forall (fun e => e_u e ∈ ns -> e_v e ∈ ns) (g_edges g) -> walk g u es v -> u ∈ ns -> v ∈ ns.
Proof.
  intros Hc Hw. induction Hw as [|e es v He Hw IH]; [done|].
  intros Hu. apply IH. rewrite Forall_forall in Hc. by apply Hc.
Qed.

Lemma pweight_app es1 es2 : pweight (es1 ++ es2) == (pweight es1 + pweight es2)%Q.
Proof. induction es1 as [|e es IH]; simpl; [lra|]. rewrite IH. lra. Qed.

Lemma pweight_nonneg g u es v : nonneg_weights g -> walk g u es v -> (0 <= pweight es)%Q.
Proof.
  intros Hw. induction 1 as [|e es v He _ IH]; simpl; [lra|].
  specialize (Hw e He). lra.
Qed.

Lemma update_node_Some n f a s :
  nattr s !! n = Some a -> update_node n f s = Ok tt (set_nattr (<[n := f a]> (nattr s)) s).
Proof. unfold update_node. by intros ->. Qed.

Lemma wf_nodes_insert g m n a :
  wf_nodes g m -> is_Some (m !! n) -> wf_nodes g (<[n := a]> m).
Proof.
  intros Hwf Hn k. rewrite (Hwf k), lookup_insert.
  case_decide; subst; [|done]. split; intros _; [done|]. done.
Qed.

Lemma wf_nodes_in g m n : wf_nodes g m -> n ∈ g_nodes g -> exists a, m !! n = Some a.
Proof. intros Hwf Hn. by apply Hwf in Hn as [a Ha]; exists a. Qed.

Lemma dist_of_insert m n a k :
  dist_of (<[n := a]> m) k = if decide (n = k) then distance a else dist_of m k.
Proof. unfold dist_of. rewrite lookup_insert. by case_decide. Qed.

Lemma vis_of_insert m n a k :
  vis_of (<[n := a]> m) k = if decide (n = k) then visited a else vis_of m k.
Proof. unfold vis_of. rewrite lookup_insert. by case_decide. Qed.

Lemma prev_of_insert m n a k :
  prev_of (<[n := a]> m) k = if decide (n = k) then previous a else prev_of m k.
Proof. unfold prev_of. rewrite lookup_insert. by case_decide. Qed.

Lemma dist_of_Some m n a : m !! n = Some a -> dist_of m n = distance a.
Proof. unfold dist_of. by intros ->. Qed.

Lemma vis_of_Some m n a : m !! n = Some a -> vis_of m n = visited a.
Proof. unfold vis_of. by intros ->. Qed.

Lemma vis_of_true m n : vis_of m n = true -> exists a, m !! n = Some a /\ visited a = true.
Proof. unfold vis_of. destruct (m !! n); [eauto|done]. Qed.

Lemma quiet_refl s : quiet s s.
Proof. done. Qed.

Lemma quiet_trans s1 s2 s3 : quiet s1 s2 -> quiet s2 s3 -> quiet s1 s3.
Proof. intros (A & B & C & C') (D & E & F & F'). repeat split; congruence. Qed.

Lemma update_node_Ok n f a s :
  nattr s !! n = Some a ->
  exists s', update_node n f s = Ok tt s' /\ nattr s' = <[n := f a]> (nattr s) /\ quiet s s'.
Proof. intros Hn. rewrite (update_node_Some n f a s Hn). eexists. split; [reflexivity|]. done. Qed.

Lemma set_edge_style_Ok g k x s :
  is_edge g k = true ->
  exists s', set_edge_style g k x s = Ok tt s' /\ nattr s' = nattr s /\ quiet s s'.
Proof. unfold set_edge_style. intros ->. eexists. split; [reflexivity|]. done. Qed.

(** Restyling edges of the graph never fails and is invisible to the search. *)
Lemma restyle_Ok g x ks s :
  (forall k, k ∈ ks -> is_edge g k = true) ->
  exists s', for_each ks (fun k => set_edge_style g k x) s = Ok tt s' /\
    nattr s' = nattr s /\ quiet s s'.
Proof.
  intros Hks.
  apply (for_each_Ok (fun s0 => nattr s0 = nattr s /\ quiet s s0)); [split; [done|apply quiet_refl]|].
  intros k s0 Hk [N Q].
  destruct (set_edge_style_Ok g k x s0) as [s1 [E [N1 Q1]]]; [auto|].
  exists s1. split; [done|]. split; [congruence|]. eapply quiet_trans; eauto.
Qed.

Lemma out_edges_keys g n k : k ∈ ekey_of <$> out_edges g n -> is_edge g k = true.
Proof.
  intros Hk. apply list_elem_of_fmap in Hk as [e [-> He]].
  apply is_edge_of. by apply out_edges_spec in He as [He _].
Qed.

Lemma style_all_unvisited_Ok g s :
  exists s', style_all_unvisited g s = Ok tt s' /\ nattr s' = nattr s /\ quiet s s'.
Proof. apply restyle_Ok. intros k Hk. unfold is_edge. by apply bool_decide_eq_true. Qed.

Lemma all_keys g k : k ∈ ekey_of <$> g_edges g -> is_edge g k = true.
Proof. intros Hk. unfold is_edge. by apply bool_decide_eq_true. Qed.

Definition keys_from_zero_b (g : Graph) : bool :=
  forallb (fun e => is_edge g (e_u e, e_v e, 0)) (g_edges g).

Definition simple_graph_b (g : Graph) : bool :=
  forallb (fun e => forallb (fun e' =>
    negb (bool_decide (e_u e = e_u e' /\ e_v e = e_v e')) || bool_decide (e = e')) (g_edges g)) (g_edges g).

Definition pos_speeds_b (g : Graph) : bool := forallb (fun e => Z.ltb 0 (e_maxspeed e)) (g_edges g).

Lemma pos_speeds_b_spec g : pos_speeds_b g = true -> pos_speeds g.
Proof.
  unfold pos_speeds_b. rewrite forallb_forall. intros H e He. apply Z.ltb_lt, H. by apply list_elem_of_In.
Qed.

Lemma keys_from_zero_b_spec g : keys_from_zero_b g = true -> keys_from_zero g.
Proof.
  unfold keys_from_zero_b. rewrite forallb_forall. intros H e He. apply H. by apply list_elem_of_In.
Qed.

Lemma simple_graph_b_spec g : simple_graph_b g = true -> simple_graph g.
Proof.
  unfold simple_graph_b. rewrite forallb_forall. intros H e e' He He' Hu Hv.
  apply list_elem_of_In, H in He. rewrite forallb_forall in He.
  apply list_elem_of_In, He, orb_true_iff in He' as [H1|H1].
  - rewrite bool_decide_eq_true_2 in H1 by done. done.
  - by apply bool_decide_eq_true in H1.
Qed.

Lemma wf_graph_b_spec g : wf_graph_b g = true -> wf_graph g.
Proof.
  unfold wf_graph_b. intros H. apply andb_prop in H as [H H3]. apply andb_prop in H as [H1 H2].
  apply bool_decide_eq_true in H1, H2. rewrite forallb_forall in H3.
  split; [done|done|..]; intros e He; apply list_elem_of_In, H3 in He;
    apply andb_prop in He as [A B]; by apply bool_decide_eq_true in A, B.
Qed.

Lemma nonneg_weights_b_spec g : nonneg_weights_b g = true -> nonneg_weights g.
Proof.
  unfold nonneg_weights_b. rewrite forallb_forall. intros H e He.
  apply Qle_bool_iff, H. by apply list_elem_of_In.
Qed.

Lemma pos_weights_b_spec g : pos_weights_b g = true -> pos_weights g.
Proof.
  unfold pos_weights_b. rewrite forallb_forall. intros H e He.
  apply list_elem_of_In, H, negb_true_iff in He.
  destruct (Qlt_le_dec 0 (e_weight e)) as [Hlt|Hle]; [done|].
  apply Qle_bool_iff in Hle. congruence.
Qed.

Lemma shortest_Qeq g u v d d' : shortest g u v d -> d == d' -> shortest g u v d'.
Proof.
  intros [[es [Hw Hd]] Hmin] E. split; [exists es; split; [done|lra]|].
  intros es' Hes'. specialize (Hmin es' Hes'). lra.
Qed.

Lemma pos_nonneg_weights g : pos_weights g -> nonneg_weights g.
Proof. intros H e He. specialize (H e He). lra. Qed.

Lemma wf_nodes_dom g m : dom m = list_to_set (g_nodes g) -> wf_nodes g m.
Proof.
  intros H n. rewrite <- elem_of_dom, H, elem_of_list_to_set. done.
Qed.

Lemma find_edge_Some g k e : find_edge g k = Some e -> e ∈ g_edges g /\ ekey_of e = k.
Proof.
  unfold find_edge. intros H. apply List.find_some in H as [Hin Hk].
  apply bool_decide_eq_true in Hk. split; [by apply list_elem_of_In|done].
Qed.

Lemma find_edge_exists g e : e ∈ g_edges g -> exists e', find_edge g (ekey_of e) = Some e'.
Proof.
  unfold find_edge. intros He. destruct (List.find _ _) as [e'|] eqn:E; [eauto|].
  exfalso. apply list_elem_of_In in He.
  pose proof (List.find_none _ _ E e He) as Hf. simpl in Hf.
  rewrite bool_decide_eq_true_2 in Hf; done.
Qed.

Lemma is_edge_find g k : is_edge g k = true -> exists e, find_edge g k = Some e.
Proof.
  unfold is_edge. rewrite bool_decide_eq_true. intros (e & -> & He)%list_elem_of_fmap.
  by apply find_edge_exists.
Qed.

Lemma edges_between_spec g u v e : e ∈ edges_between g u v <-> e ∈ g_edges g /\ e_u e = u /\ e_v e = v.
Proof. unfold edges_between. rewrite list_elem_of_filter. tauto. Qed.

(** [pred_tree] checked on the nodes the dictionary holds. *)
Definition pred_tree_b (g : Graph) (orig : node) (m : gmap node NodeAttr) : bool :=
  bool_decide (dist_of m orig = Fin 0) && bool_decide (prev_of m orig = None) &&
  forallb (fun na =>
    match previous na.2 with
    | None => bool_decide (distance na.2 = Inf) || bool_decide (na.1 = orig)
    | Some p =>
        bool_decide (dist_of m p <> Inf) &&
        existsb (fun e => bool_decide (e_v e = na.1 /\ distance na.2 = dist_add (dist_of m p) (e_weight e)))
          (out_edges g p)
    end) (map_to_list m).

Lemma pred_tree_b_spec g orig m : pred_tree_b g orig m = true -> pred_tree g orig m.
Proof.
  unfold pred_tree_b. intros H. apply andb_prop in H as [H H3]. apply andb_prop in H as [H1 H2].
  apply bool_decide_eq_true in H1, H2. rewrite forallb_forall in H3.
  assert (Hn : forall n a, m !! n = Some a -> _) by
    (intros n a Hna; apply (H3 (n, a)), list_elem_of_In, elem_of_map_to_list, Hna).
  split_and!; [done|done|..].
  - intros n Hp Hd. unfold prev_of, dist_of in *. destruct (m !! n) as [a|] eqn:Ha; [|done].
    specialize (Hn n a Ha). simpl in Hn. rewrite Hp in Hn.
    apply orb_true_iff in Hn as [Hn|Hn]; apply bool_decide_eq_true in Hn; done.
  - intros n p Hp. unfold prev_of in Hp. destruct (m !! n) as [a|] eqn:Ha; [|done].
    specialize (Hn n a Ha). simpl in Hn. rewrite Hp in Hn.
    apply andb_prop in Hn as [Hf He]. apply bool_decide_eq_true in Hf.
    apply existsb_exists in He as (e & Hin & He). apply bool_decide_eq_true in He as [Hv Hd].
    split; [done|]. exists e. split; [by apply list_elem_of_In|]. unfold dist_of at 1. by rewrite Ha.
Qed.

#[export] Hint Resolve walk_nil walk_snoc is_edge_of quiet_refl : pf.

(** ** Nothing here prints *)

Lemma keeps_get_node n : keeps printed (get_node n).
Proof. intros s a s' E. unfold get_node in E. by destruct (nattr s !! n); invc E. Qed.

Lemma keeps_update_node n f : keeps printed (update_node n f).
Proof. intros s a s' E. unfold update_node in E. by destruct (nattr s !! n); invc E. Qed.

Lemma keeps_set_edge_style g k x : keeps printed (set_edge_style g k x).
Proof. intros s a s' E. unfold set_edge_style in E. by destruct (is_edge g k); invc E. Qed.

Lemma keeps_set_stage x : keeps printed (set_stage x).
Proof. by apply keeps_modify. Qed.

#[export] Hint Resolve keeps_get_node keeps_update_node keeps_set_edge_style keeps_set_stage : keeps.

(** Nor do they add or remove a node's dictionary. *)
Definition nodes_of (s : St) : gset node := dom (nattr s).

Lemma keeps_nodes_get_node n : keeps nodes_of (get_node n).
Proof. intros s a s' E. unfold get_node in E. by destruct (nattr s !! n); invc E. Qed.

Lemma keeps_nodes_update_node n f : keeps nodes_of (update_node n f).
Proof.
  intros s a s' E. unfold update_node in E. destruct (nattr s !! n) eqn:En; invc E.
  unfold nodes_of. simpl. by apply dom_insert_lookup_L.
Qed.

Lemma keeps_nodes_set_edge_style g k x : keeps nodes_of (set_edge_style g k x).
Proof. intros s a s' E. unfold set_edge_style in E. by destruct (is_edge g k); invc E. Qed.

Lemma keeps_nodes_set_stage x : keeps nodes_of (set_stage x).
Proof. by apply keeps_modify. Qed.

Lemma keeps_nodes_print x : keeps nodes_of (print x).
Proof. by apply keeps_modify. Qed.

#[export] Hint Resolve keeps_nodes_get_node keeps_nodes_update_node keeps_nodes_set_edge_style
  keeps_nodes_set_stage keeps_nodes_print : keeps.
#[export] Hint Unfold style_unvisited_edge style_visited_edge style_active_edge style_path_edge
  style_start_end : keeps.
#[export] Hint Extern 1 (keeps _ (style_all_unvisited _)) =>
  unfold style_all_unvisited; apply keeps_for_each; intros : keeps.

(** ** Which edges a computation restyles

    [painted m ks x m']: the style table [m'] is [m] with every key of
    [ks] set to [x].  [paints ks x m]: whenever [m] returns normally, it
    has set exactly the keys [ks] to [x] (what a frame then draws). *)
Definition painted (m : gmap ekey EdgeStyle) (ks : list ekey) (x : EdgeStyle)
    (m' : gmap ekey EdgeStyle) : Prop :=
  forall k, m' !! k = if decide (k ∈ ks) then Some x else m !! k.

Definition paints {A} (ks : list ekey) (x : EdgeStyle) (m : PyM St A) : Prop :=
  forall s a s', m s = Ok a s' -> painted (estyle s) ks x (estyle s').

Lemma painted_nil m x : painted m [] x m.
Proof. intros k. case_decide; [set_solver|done]. Qed.

Lemma painted_trans m0 m1 m2 ks1 ks2 x :
  painted m0 ks1 x m1 -> painted m1 ks2 x m2 -> painted m0 (ks1 ++ ks2) x m2.
Proof. intros H1 H2 k. rewrite H2, H1. repeat case_decide; try done; set_solver. Qed.

Lemma painted_ext m ks ks' x m' : (forall k, k ∈ ks <-> k ∈ ks') -> painted m ks x m' -> painted m ks' x m'.
Proof. intros Hks H k. rewrite H. repeat case_decide; naive_solver. Qed.

Lemma paints_keeps {A} x (m : PyM St A) : keeps estyle m -> paints [] x m.
Proof. intros H s a s' E. rewrite (H s a s' E). apply painted_nil. Qed.

Lemma paints_bind {A B} ks1 ks2 x (m : PyM St A) (f : A -> PyM St B) :
  paints ks1 x m -> (forall a, paints ks2 x (f a)) -> paints (ks1 ++ ks2) x (bind m f).
Proof. intros Hm Hf s b s' (a & s1 & E1 & E2)%bind_Ok_inv. eapply painted_trans; [by eapply Hm|by eapply Hf]. Qed.

Lemma paints_set_edge_style g k x : paints [k] x (set_edge_style g k x).
Proof.
  intros s a s' E k'. unfold set_edge_style in E. destruct (is_edge g k); invc E. simpl.
  rewrite lookup_insert. repeat case_decide; subst; try done; set_solver.
Qed.

Lemma paints_for_each {X} (key : X -> ekey) x (xs : list X) (h : X -> PyM St unit) :
  (forall y, paints [key y] x (h y)) -> paints (key <$> xs) x (for_each xs h).
Proof.
  intros Hh. induction xs as [|y xs IH]; simpl; [by apply paints_keeps, keeps_ret|].
  by apply (paints_bind [key y] (key <$> xs)).
Qed.

(** Line 193: every edge of the graph gets the unvisited style. *)
Lemma paints_style_all_unvisited g : paints (ekey_of <$> g_edges g) unvisited_style (style_all_unvisited g).
Proof.
  pose proof (paints_for_each id unvisited_style (ekey_of <$> g_edges g) (style_unvisited_edge g)) as H.
  rewrite list_fmap_id in H. apply H. intros k. apply paints_set_edge_style.
Qed.

Lemma keeps_style_get_node n : keeps estyle (get_node n).
Proof. intros s a s' E. unfold get_node in E. by destruct (nattr s !! n); invc E. Qed.

Lemma keeps_style_set_stage x : keeps estyle (set_stage x).
Proof. by apply keeps_modify. Qed.

Lemma keeps_style_print x : keeps estyle (print x).
Proof. by apply keeps_modify. Qed.

#[export] Hint Resolve keeps_style_get_node keeps_style_set_stage keeps_style_print : keeps.

(** Discharges the conditions on a concrete graph by computation. *)
Ltac solve_graph_hyps :=
  repeat match goal with
  | |- wf_graph _ => apply wf_graph_b_spec; vm_compute; reflexivity
  | |- nonneg_weights _ => apply nonneg_weights_b_spec; vm_compute; reflexivity
  | |- pos_weights _ => apply pos_weights_b_spec; vm_compute; reflexivity
  | |- pos_speeds _ => apply pos_speeds_b_spec; vm_compute; reflexivity
  | |- keys_from_zero _ => apply keys_from_zero_b_spec; vm_compute; reflexivity
  | |- simple_graph _ => apply simple_graph_b_spec; vm_compute; reflexivity
  | |- pred_tree _ _ _ => apply pred_tree_b_spec; vm_compute; reflexivity
  | |- wf_state _ _ => apply wf_nodes_dom; vm_compute; reflexivity
  | |- ?P => lazymatch P with _ ∈ _ => idtac | _ ∉ _ => idtac end;
             apply (bool_decide_unpack P); vm_compute; exact I
  | |- _ <= _ => vm_compute; lia
  end.
