(* ===== verification/SpeedClean.v ===== *)
(** * SpeedClean: the cleaning loop of main.py, lines 26-37

    For every edge, [maxspeed] defaults to 60; a string is read as the
    integer spelled by its digits ([int(''.join(filter(str.isdigit, s)))]),
    a list as the minimum of its elements read so, and any other value is
    kept.  Then [weight = length / maxspeed].  The Python exceptions are
    values: [int('')] raises [ValueError], [min([])] raises [ValueError],
    and a [maxspeed] of [0] makes the division raise [ZeroDivisionError].
    [str.isdigit] is modelled on ASCII characters ('0' to '9'). *)

From S2P Require Import Prelude Graph PyString.
From Stdlib Require Import Ascii.
Local Open Scope nat_scope.

Module SpeedClean.

Import PyString.

(** The [maxspeed] attribute as OSMnx delivers it. *)
Inductive RawSpeed : Type :=
| RawStr (s : string)
| RawList (l : list string)
| RawInt (z : Z).

(** An edge before cleaning: [maxspeed] may be missing. *)
Record RawEdge : Type := mkRawEdge {
  r_u : node;
  r_v : node;
  r_key : nat;
  r_length : Q;
  r_maxspeed : option RawSpeed
}.

Definition is_digit (c : Ascii.ascii) : bool :=
  let n := Ascii.nat_of_ascii c in (48 <=? n)%nat && (n <=? 57)%nat.

(** [''.join(filter(str.isdigit, s))] *)
Fixpoint filter_digits (s : string) : string :=
  match s with
  | EmptyString => EmptyString
  | String c s' => if is_digit c then String c (filter_digits s') else filter_digits s'
  end.

Definition digit_value (c : Ascii.ascii) : Z := Z.of_nat (Ascii.nat_of_ascii c) - 48.

Fixpoint digits_value (acc : Z) (s : string) : Z :=
  match s with
  | EmptyString => acc
  | String c s' => digits_value (10 * acc + digit_value c) s'
  end.

(** [int(ds)] on a string of decimal digits. *)
Definition py_int_of_digits (ds : string) : exn + Z :=
  match ds with
  | EmptyString => inl ValueError
  | _ => inr (digits_value 0 ds)
  end.

Definition parse_speed (s : string) : exn + Z := py_int_of_digits (filter_digits s).

(** The list comprehension: the first failing element raises. *)
Fixpoint parse_all (l : list string) : exn + list Z :=
  match l with
  | [] => inr []
  | s :: l' =>
      match parse_speed s with
      | inl e => inl e
      | inr z => match parse_all l' with
                 | inl e => inl e
                 | inr zs => inr (z :: zs)
                 end
      end
  end.

(** [min(zs)] *)
Definition py_min (zs : list Z) : exn + Z :=
  match zs with
  | [] => inl ValueError
  | z :: zs' => inr (fold_left Z.min zs' z)
  end.

(** The value the loop stores in [data["maxspeed"]]. *)
Definition clean_maxspeed (r : option RawSpeed) : exn + Z :=
  match r with
  | None => inr 60%Z
  | Some (RawList l) =>
      match parse_all l with
      | inl e => inl e
      | inr zs => py_min zs
      end
  | Some (RawStr s) => parse_speed s
  | Some (RawInt z) => inr z
  end.

(** One iteration of the loop: [maxspeed], then [weight = length / maxspeed]. *)
Definition clean_edge (r : RawEdge) : exn + Edge :=
  match clean_maxspeed (r_maxspeed r) with
  | inl e => inl e
  | inr m =>
      if (m =? 0)%Z then inl ZeroDivisionError
      else inr (mkEdge (r_u r) (r_v r) (r_key r) (r_length r) m (r_length r / inject_Z m))
  end.

(** The whole loop over [G.edges]; the first exception stops the script. *)
Fixpoint clean_edges (rs : list RawEdge) : exn + list Edge :=
  match rs with
  | [] => inr []
  | r :: rs' =>
      match clean_edge r with
      | inl e => inl e
      | inr e => match clean_edges rs' with
                 | inl x => inl x
                 | inr es => inr (e :: es)
                 end
      end
  end.

(** ** Reading digit strings *)

Fixpoint all_digits (s : string) : Prop :=
  match s with
  | EmptyString => True
  | String c s' => is_digit c = true /\ all_digits s'
  end.

Lemma all_digits_append s1 s2 :
  all_digits (String.append s1 s2) <-> all_digits s1 /\ all_digits s2.
Proof. induction s1 as [|c s IH]; simpl; [tauto|]. rewrite IH. tauto. Qed.

Lemma filter_digits_all s : all_digits (filter_digits s).
Proof.
  induction s as [|c s IH]; simpl; [done|].
  destruct (is_digit c) eqn:E; simpl; auto.
Qed.

Lemma filter_digits_id s : all_digits s -> filter_digits s = s.
Proof.
  induction s as [|c s IH]; intros H; simpl in *; [done|].
  destruct H as [-> H]. f_equal. auto.
Qed.

Lemma filter_digits_append s1 s2 :
  filter_digits (String.append s1 s2) = String.append (filter_digits s1) (filter_digits s2).
Proof.
  induction s1 as [|c s IH]; simpl; [done|]. destruct (is_digit c); simpl; by rewrite IH.
Qed.

Lemma digits_value_append a s1 s2 :
  digits_value a (String.append s1 s2) = digits_value (digits_value a s1) s2.
Proof. revert a. induction s1 as [|c s IH]; intros a; simpl; auto. Qed.

Lemma digits_value_acc a s :
  digits_value a s = (a * 10 ^ Z.of_nat (String.length s) + digits_value 0 s)%Z.
Proof.
  revert a. induction s as [|c s IH]; intros a; simpl; [lia|].
  rewrite (IH (10 * a + digit_value c)%Z), (IH (10 * 0 + digit_value c)%Z).
  rewrite Nat2Z.inj_succ, Z.pow_succ_r by lia. lia.
Qed.

Lemma digit_value_bounds c : is_digit c = true -> (0 <= digit_value c <= 9)%Z.
Proof.
  unfold is_digit, digit_value. intros H.
  apply andb_prop in H as [H1 H2]. apply Nat.leb_le in H1, H2. lia.
Qed.

Lemma digits_value_nonneg a s : (0 <= a)%Z -> all_digits s -> (0 <= digits_value a s)%Z.
Proof.
  revert a. induction s as [|c s IH]; intros a Ha Hs; simpl; [done|].
  destruct Hs as [Hc Hs]. pose proof (digit_value_bounds c Hc).
  apply IH; [lia|done].
Qed.

Lemma parse_speed_nonneg s z : parse_speed s = inr z -> (0 <= z)%Z.
Proof.
  unfold parse_speed, py_int_of_digits. pose proof (filter_digits_all s).
  destruct (filter_digits s) as [|c s'] eqn:E; intros Hz; invc Hz.
  apply (digits_value_nonneg 0 (String c s')); [lia|done].
Qed.

Lemma digit_char_spec d :
  (d < 10)%nat -> is_digit (digit_char d) = true /\ digit_value (digit_char d) = Z.of_nat d.
Proof.
  intros Hd. unfold is_digit, digit_value, digit_char.
  rewrite Ascii.nat_ascii_embedding by lia.
  split; [apply andb_true_intro; split; apply Nat.leb_le|]; lia.
Qed.

Lemma decimal_aux_spec fuel n :
  (n < fuel)%nat ->
  all_digits (decimal_aux fuel n) /\ decimal_aux fuel n <> EmptyString /\
  digits_value 0 (decimal_aux fuel n) = Z.of_nat n.
Proof.
  revert n. induction fuel as [|f IH]; intros n Hn; [lia|]. cbn [decimal_aux].
  destruct (Nat.ltb_spec n 10) as [Hlt|Hge].
  - destruct (digit_char_spec n Hlt) as [Hd Hv].
    split; [done|]. split; [done|]. simpl. lia.
  - destruct (IH (n / 10)%nat) as [Hall [Hne Hval]].
    { assert (n / 10 < n)%nat by (apply Nat.div_lt; lia). lia. }
    destruct (digit_char_spec (n mod 10)) as [Hd Hv]; [apply Nat.mod_upper_bound; lia|].
    split; [|split].
    + apply all_digits_append. simpl. done.
    + destruct (decimal_aux f (n / 10)); simpl; intro H; discriminate H.
    + rewrite digits_value_append, Hval. cbn [digits_value]. rewrite Hv.
      pose proof (Nat.div_mod_eq n 10). lia.
Qed.

Lemma decimal_spec n :
  all_digits (decimal n) /\ decimal n <> EmptyString /\
  digits_value 0 (decimal n) = Z.of_nat n.
Proof. apply decimal_aux_spec. lia. Qed.

Lemma py_min_spec zs m :
  py_min zs = inr m -> m ∈ zs /\ Forall (fun z => (m <= z)%Z) zs.
Proof.
  destruct zs as [|z zs]; simpl; intros H; invc H.
  revert z. induction zs as [|y zs IH]; intros z; simpl.
  - split; [left|]; repeat constructor; lia.
  - destruct (IH (Z.min z y)) as [Hin Hall].
    apply Forall_cons in Hall as [Hmin Hall].
    set (m := fold_left Z.min zs (Z.min z y)) in *.
    split.
    + apply elem_of_cons in Hin as [Hm|Hin]; [|set_solver].
      destruct (Z.min_spec z y) as [[_ E]|[_ E]]; rewrite Hm, E; set_solver.
    + constructor; [lia|]. constructor; [lia|done].
Qed.

Lemma parse_all_nonneg l zs : parse_all l = inr zs -> Forall (fun z => (0 <= z)%Z) zs.
Proof.
  revert zs. induction l as [|s l IH]; intros zs H; simpl in H; [by invc H|].
  destruct (parse_speed s) eqn:E1; [done|]. destruct (parse_all l); [done|]. invc H.
  constructor; [by eapply parse_speed_nonneg|auto].
Qed.

(** Every raw speed the cleaning reads from text is at least 0. *)
Definition textual (r : option RawSpeed) : Prop :=
  match r with Some (RawInt _) => False | _ => True end.

Lemma clean_maxspeed_nonneg r m : textual r -> clean_maxspeed r = inr m -> (0 <= m)%Z.
Proof.
  destruct r as [[s|l|z]|]; simpl; intros Ht H; try done.
  - by eapply parse_speed_nonneg.
  - destruct (parse_all l) eqn:E; [done|].
    destruct (py_min_spec _ _ H) as [Hin _].
    eapply Forall_forall in Hin; [|by eapply parse_all_nonneg]. done.
  - invc H. lia.
Qed.

Lemma parse_speed_digits s : all_digits s -> s <> EmptyString -> parse_speed s = inr (digits_value 0 s).
Proof.
  intros Hs Hne. unfold parse_speed. rewrite filter_digits_id by done.
  by destruct s.
Qed.

Lemma clean_edge_inr r e :
  clean_edge r = inr e ->
  exists m, clean_maxspeed (r_maxspeed r) = inr m /\ m <> 0%Z /\
    e = mkEdge (r_u r) (r_v r) (r_key r) (r_length r) m (r_length r / inject_Z m).
Proof.
  unfold clean_edge. destruct (clean_maxspeed (r_maxspeed r)) as [x|m]; [done|].
  destruct (Z.eqb_spec m 0); intros H; invc H. eauto.
Qed.

(** ** Properties of the cleaning loop *)

(** C23: A [maxspeed] tag holding the decimal numeral of [n] is read as [n]:
    the digit filter and [int] invert the printing of a number. *)
Theorem parse_speed_decimal n : parse_speed (decimal n) = inr (Z.of_nat n).
Proof.
  destruct (decimal_spec n) as [Hall [Hne Hval]].
  rewrite parse_speed_digits by done. by rewrite Hval.
Qed.

(** Any suffix without digits is dropped: a tag ["30 mph"] is read as
    the number 30 and then used as if it were in km/h. *)
Theorem parse_speed_ignores_unit n u :
  filter_digits u = EmptyString ->
  parse_speed (String.append (decimal n) u) = inr (Z.of_nat n).
Proof.
  intros Hu. unfold parse_speed. rewrite filter_digits_append, Hu, append_empty_r.
  destruct (decimal_spec n) as [Hall [Hne Hval]].
  rewrite filter_digits_id by done. destruct (decimal n); [done|]. by rewrite <- Hval.
Qed.

(** C24: A tag holding two limits in one string, such as ["50;60"], is read as
    the concatenation of their digits (5060), not as either limit. *)
Theorem parse_speed_concatenates m n :
  parse_speed (String.append (decimal m) (String ";"%char (decimal n))) =
  inr (Z.of_nat m * 10 ^ Z.of_nat (String.length (decimal n)) + Z.of_nat n)%Z.
Proof.
  destruct (decimal_spec m) as [Hm [Hmne Hmv]], (decimal_spec n) as [Hn [Hnne Hnv]].
  unfold parse_speed. rewrite filter_digits_append. cbn [filter_digits].
  replace (is_digit ";"%char) with false by reflexivity.
  rewrite !filter_digits_id by done.
  destruct (decimal m) as [|c s] eqn:Em; [done|].
  unfold py_int_of_digits. cbn [String.append]. f_equal.
  rewrite digits_value_append, Hmv, digits_value_acc, Hnv. lia.
Qed.

(** When the tag is text (or absent) and the edge has a positive length,
    a successful cleaning stores a positive [maxspeed] and the weight
    [length / maxspeed], which is positive. *)
Theorem clean_edge_weight_pos r e :
  textual (r_maxspeed r) -> (0 < r_length r)%Q -> clean_edge r = inr e ->
  (0 < e_maxspeed e)%Z /\ (0 < e_weight e)%Q /\
  e_weight e == e_length e / inject_Z (e_maxspeed e).
Proof.
  intros Ht Hl He. apply clean_edge_inr in He as [m [Hm [Hm0 ->]]]. simpl.
  pose proof (clean_maxspeed_nonneg _ _ Ht Hm) as Hpos.
  assert (Hlt : (0 < m)%Z) by lia.
  split; [done|]. split; [|reflexivity].
  apply Qlt_shift_div_l; [|rewrite Qmult_0_l; done].
  rewrite Zlt_Qlt in Hlt. done.
Qed.

(** C22: Cleaning a whole edge list whose tags are text and whose lengths are
    positive yields a graph with positive weights, the precondition under
    which the search below is correct. *)
Theorem clean_edges_pos_weights ns rs es :
  Forall (fun r => textual (r_maxspeed r) /\ (0 < r_length r)%Q) rs ->
  clean_edges rs = inr es -> pos_weights (mkGraph ns es).
Proof.
  intros Hrs. revert es. induction Hrs as [|r rs [Ht Hl] Hrs IH]; intros es H; simpl in H.
  - invc H. intros e He. simpl in He. set_solver.
  - destruct (clean_edge r) as [x|e1] eqn:E1; [done|].
    destruct (clean_edges rs) as [x|es1]; [done|]. invc H.
    intros e He. simpl in He. apply elem_of_cons in He as [->|He].
    + by destruct (clean_edge_weight_pos _ _ Ht Hl E1) as [_ [Hw _]].
    + by apply (IH es1 eq_refl e).
Qed.

(** C25: A list of tags is read as the smallest of the numbers its elements
    spell. *)
Theorem clean_maxspeed_list_min l zs m :
  parse_all l = inr zs -> clean_maxspeed (Some (RawList l)) = inr m ->
  m ∈ zs /\ Forall (fun z => (m <= z)%Z) zs.
Proof. simpl. intros ->. apply py_min_spec. Qed.

(** C26: For a string tag, the cleaning raises [ValueError] exactly when the
    tag has no digit, and [ZeroDivisionError] exactly when it reads as 0. *)
Theorem clean_edge_str_errors r s :
  r_maxspeed r = Some (RawStr s) ->
  (clean_edge r = inl ValueError <-> filter_digits s = EmptyString) /\
  (clean_edge r = inl ZeroDivisionError <-> parse_speed s = inr 0%Z).
Proof.
  intros Hr. unfold clean_edge. rewrite Hr. simpl.
  unfold parse_speed, py_int_of_digits.
  destruct (filter_digits s) as [|c s'] eqn:E.
  - split; split; intros H; try done; discriminate.
  - destruct (Z.eqb_spec (digits_value 0 (String c s')) 0) as [E0|E0].
    + rewrite E0. split; split; intros H; try done; discriminate.
    + split; split; intros H; try discriminate. congruence.
Qed.

(** ** Witnesses at concrete tags *)

Definition sample_edge (m : option RawSpeed) : RawEdge := mkRawEdge 1 2 0 1000 m.

Lemma parse_speed_ignores_unit_witness :
  filter_digits " mph" = EmptyString /\
  parse_speed (String.append (decimal 30) " mph") = inr 30%Z.
Proof. split; [reflexivity|]. apply (parse_speed_ignores_unit 30 " mph"). reflexivity. Defined.

Lemma clean_edge_weight_pos_witness :
  exists e, clean_edge (sample_edge (Some (RawStr "50"))) = inr e /\
  (0 < e_maxspeed e)%Z /\ (0 < e_weight e)%Q /\ e_weight e == e_length e / inject_Z (e_maxspeed e).
Proof.
  eexists. split; [reflexivity|].
  apply (clean_edge_weight_pos (sample_edge (Some (RawStr "50")))); [exact I|reflexivity|reflexivity].
Defined.

Lemma clean_edges_pos_weights_witness :
  pos_weights (mkGraph [1%nat; 2%nat] [mkEdge 1 2 0 1000 50 (1000 / inject_Z 50)]).
Proof.
  apply (clean_edges_pos_weights [1%nat; 2%nat] [sample_edge (Some (RawList ["50"; "70"]))]).
  - repeat constructor; reflexivity.
  - reflexivity.
Defined.

Lemma clean_maxspeed_list_min_witness :
  (50 ∈ [70; 50])%Z /\ Forall (fun z => (50 <= z)%Z) [70; 50]%Z.
Proof. apply (clean_maxspeed_list_min ["70 km/h"; "50"]); reflexivity. Defined.

Lemma clean_edge_str_errors_witness :
  (clean_edge (sample_edge (Some (RawStr "signals"))) = inl ValueError <->
   filter_digits "signals" = EmptyString) /\
  (clean_edge (sample_edge (Some (RawStr "signals"))) = inl ZeroDivisionError <->
   parse_speed "signals" = inr 0%Z).
Proof. apply clean_edge_str_errors. reflexivity. Defined.

End SpeedClean.
