(* ===== verification/Snapshot.v ===== *)
(** * Snapshot: [save_frame], main.py lines 97-124

    A frame is saved only when the global [stage] lets the current step
    through: every 32nd step while finding, every 3rd while reconstructing,
    every call once found.  A saved frame draws the current edge styles and
    is written as [frame_%05d.png] numbered by the global [frame_count],
    which is then incremented.  Drawing and file output are modelled by the
    [Frame] record appended to the state. *)

From S2P Require Import Prelude Graph.
Local Open Scope nat_scope.

Module Snapshot.

(** The early returns of lines 100-107. *)
Definition sample (x : Stage) (step : nat) : bool :=
  match x with
  | Finding => (step mod 32 =? 0)%nat
  | Reconstructing => (step mod 3 =? 0)%nat
  | Found => true
  end.

(** Line 113: [[n for n, data in G.nodes(data=True) if data.get("highlight")]]
    with the [size] and [color] drawn for each (lines 114-118), in the
    order of the node dictionary. *)
Definition highlighted (m : gmap node NodeAttr) : list (node * nat * string) :=
  (fun na => (na.1, node_size na.2, node_color na.2)) <$>
    List.filter (fun na => highlight na.2) (map_to_list m).

Definition save_frame (step : nat) : PyM St unit :=
  fun s =>
    if sample (stage s) step
    then Ok tt (add_frame (mkFrame (frame_count s) (estyle s) (highlighted (nattr s))) s)
    else Ok tt s.

(** The frames on disk are numbered [0 .. frame_count - 1], in order. *)
Definition frames_numbered (s : St) : Prop :=
  fr_index <$> frames s = seq 0 (frame_count s).

(** [for k in range(n): save_frame(k)] *)
Definition save_frames_upto (n : nat) : PyM St unit := for_each (seq 0 n) save_frame.

Lemma save_frame_Ok step s :
  exists s', save_frame step s = Ok tt s' /\
    nattr s' = nattr s /\ estyle s' = estyle s /\ stage s' = stage s /\
    frame_count s' = (if sample (stage s) step then 1 else 0) + frame_count s.
Proof. unfold save_frame. destruct (sample (stage s) step); eexists; eauto. Qed.

Lemma keeps_save_frame step : keeps printed (save_frame step).
Proof. intros s a s' E. unfold save_frame in E. by destruct (sample (stage s) step); invc E. Qed.

Lemma keeps_nodes_save_frame step : keeps nodes_of (save_frame step).
Proof. intros s a s' E. unfold save_frame in E. by destruct (sample (stage s) step); invc E. Qed.

Lemma keeps_style_save_frame step : keeps estyle (save_frame step).
Proof. intros s a s' E. unfold save_frame in E. by destruct (sample (stage s) step); invc E. Qed.

#[export] Hint Resolve keeps_save_frame keeps_nodes_save_frame keeps_style_save_frame : keeps.

(** Number of multiples of [m] below [n]. *)
Fixpoint count_multiples (m n : nat) : nat :=
  match n with
  | O => O
  | S k => count_multiples m k + (if (k mod m =? 0)%nat then 1 else 0)
  end.

Lemma count_multiples_32 n : count_multiples 32 n = ((n + 31) / 32)%nat.
Proof.
  induction n as [|n IH]; [done|]. cbn [count_multiples]. rewrite IH.
  destruct (Nat.eqb_spec (n mod 32) 0) as [E|E].
  - rewrite (Nat.div_mod_eq n 32), E.
    replace (32 * (n / 32) + 0 + 31)%nat with (31 + (n / 32) * 32)%nat by lia.
    replace (S (32 * (n / 32) + 0) + 31)%nat with (0 + (n / 32 + 1) * 32)%nat by lia.
    rewrite !Nat.div_add by lia. simpl. lia.
  - rewrite (Nat.div_mod_eq n 32).
    pose proof (Nat.mod_upper_bound n 32 ltac:(lia)).
    replace (32 * (n / 32) + n mod 32 + 31)%nat with ((n mod 32 + 31) + (n / 32) * 32)%nat by lia.
    replace (S (32 * (n / 32) + n mod 32) + 31)%nat with ((n mod 32 + 32) + (n / 32) * 32)%nat by lia.
    rewrite !Nat.div_add by lia.
    replace ((n mod 32 + 31) / 32)%nat with 1%nat.
    2:{ apply Nat.div_unique with (n mod 32 - 1)%nat; lia. }
    replace ((n mod 32 + 32) / 32)%nat with 1%nat.
    2:{ apply Nat.div_unique with (n mod 32)%nat; lia. }
    lia.
Qed.

(** C27: Every saved frame takes the next number: the frames written are
    numbered 0, 1, 2, ... in the order they are saved, so no file is
    overwritten. *)
Theorem save_frame_numbered step s s' :
  frames_numbered s -> save_frame step s = Ok tt s' -> frames_numbered s'.
Proof.
  unfold frames_numbered, save_frame. intros H.
  destruct (sample (stage s) step); intros E; invc E; [|done].
  unfold add_frame. cbn [frames frame_count]. rewrite fmap_app, H, seq_S. done.
Qed.

(** C28: While finding, saving at steps [0 .. n-1] writes one frame per
    multiple of 32, that is [ceil(n / 32)] frames, and changes nothing
    else the search reads. *)
Theorem save_frames_finding n s :
  stage s = Finding ->
  exists s', save_frames_upto n s = Ok tt s' /\
    frame_count s' = ((n + 31) / 32 + frame_count s)%nat /\
    nattr s' = nattr s /\ estyle s' = estyle s /\ stage s' = Finding.
Proof.
  intros Hst. rewrite <- count_multiples_32. unfold save_frames_upto.
  induction n as [|n IH].
  - simpl. eexists. split; [reflexivity|]. simpl. auto.
  - destruct IH as [s1 [E1 [C1 [N1 [S1 T1]]]]].
    rewrite seq_S.
    destruct (save_frame_Ok n s1) as [s2 [E2 [N2 [S2 [T2 C2]]]]].
    exists s2. split.
    + clear -E1 E2. revert s E1. induction (seq 0 n) as [|k ks IHk]; intros s E1; simpl in *.
      * invc E1. unfold bind. by rewrite E2.
      * unfold bind in *. destruct (save_frame k s); try done. auto.
    + rewrite T1 in C2. cbn [count_multiples sample] in *. rewrite C2, C1. split; [lia|].
      split; [congruence|]. split; congruence.
Qed.

(** A state in the middle of the search, two frames already written. *)
Definition mid_state : St :=
  mkSt ∅ ∅ ∅ Finding 2 [mkFrame 0 ∅ []; mkFrame 1 ∅ []] [].

Lemma save_frame_numbered_witness :
  frames_numbered mid_state /\ save_frame 64 mid_state = Ok tt (add_frame (mkFrame 2 ∅ []) mid_state) /\
  frames_numbered (add_frame (mkFrame 2 ∅ []) mid_state).
Proof.
  split; [reflexivity|]. split; [reflexivity|].
  apply (save_frame_numbered 64 mid_state); reflexivity.
Defined.

Lemma save_frames_finding_witness :
  exists s', save_frames_upto 65 mid_state = Ok tt s' /\
    frame_count s' = ((65 + 31) / 32 + frame_count mid_state)%nat /\
    nattr s' = nattr mid_state /\ estyle s' = estyle mid_state /\ stage s' = Finding.
Proof. apply save_frames_finding. reflexivity. Defined.

End Snapshot.
