(* ===== verification/Disk.v ===== *)
(** * Disk: the frames folder and [generate_video], main.py lines 15-23,
    122 and 227-244

    The script writes every saved frame as [frame_%05d.png] into the
    folder [Try] (line 122), made at start-up with
    [os.makedirs(frames_folder, exist_ok=True)] (line 23).  At the end,
    [generate_video] lists the folder, keeps the [.png] names, joins them
    to the folder and sorts the paths as strings, reads each image and
    appends it to an [imageio] writer at [fps] frames per second, prints
    a message, deletes the folder with [shutil.rmtree] and prints another.

    The part of the file system the script touches is the record [Disk]:
    the image files by path, the directories, the videos written (their
    [fps] and frames) and the console.  [os.listdir] returns the entries
    in an unspecified order; here it is the order of the file table, and
    the theorems do not depend on it since the paths are sorted.  The
    folder holds files only (the script makes no subfolder), and a path
    is read back as the image written there.

    The theorems: below 100000 frames, the string order of the frame
    paths is the order of the frame numbers, so the video shows the
    frames in the order they were saved; from 100000 on the zero padding
    of [:05d] runs out and the order breaks.  [generate_video] reads
    every [.png] file of the folder, not only the frames of the run
    ([generate_video_reads]). *)

From S2P Require Import Prelude PyString Graph.
From Stdlib Require Import Ascii.
From stdpp Require Import sorting.
Local Open Scope nat_scope.

Module Disk.

Import PyString.

(** ** The output parameters, lines 16-19 *)

Definition fps : nat := 40.
Definition size : nat := 10.
Definition animation : bool := true.
Definition frames_folder : string := "Try".

(** ** The file system *)

Record Disk : Type := mkDisk {
  files : gmap string Frame;
  dirs : gset string;
  videos : gmap string (nat * list Frame);
  console : list string
}.

Definition set_files (m : gmap string Frame) (k : Disk) : Disk := mkDisk m (dirs k) (videos k) (console k).
Definition set_dirs (ds : gset string) (k : Disk) : Disk := mkDisk (files k) ds (videos k) (console k).
Definition set_videos (m : gmap string (nat * list Frame)) (k : Disk) : Disk :=
  mkDisk (files k) (dirs k) m (console k).

(** [os.path.join(d, f)] for a folder [d] and a plain name [f]. *)
Definition path_join (d f : string) : string := String.append d (String "/"%char f).

(** [f"frame_{frame_count:05d}.png"], line 122. *)
Definition frame_file (n : nat) : string :=
  String.append "frame_" (String.append (format_0d 5 n) ".png").

Fixpoint no_slash (s : string) : bool :=
  match s with
  | EmptyString => true
  | String c s' => bool_decide (c <> "/"%char) && no_slash s'
  end.

(** The name of the entry [p] of folder [d]: [p] is [d/name]. *)
Definition in_dir (d p : string) : option string :=
  match strip_prefix (String.append d "/") p with
  | Some f => if no_slash f then Some f else None
  | None => None
  end.

(** [os.makedirs(d, exist_ok=True)], line 23. *)
Definition makedirs (d : string) : PyM Disk unit := modify (fun k => set_dirs ({[d]} ∪ dirs k) k).

(** [plt.savefig(os.path.join(d, name), ...)], line 122: the image is
    written, over any file of that path; the folder must exist. *)
Definition savefig (d name : string) (fr : Frame) : PyM Disk unit :=
  fun k => if bool_decide (d ∈ dirs k) then Ok tt (set_files (<[path_join d name := fr]> (files k)) k)
           else Raise FileNotFoundError k.

(** The frames [save_frame] records, as the files it writes, in order. *)
Definition write_frames (d : string) (fs : list Frame) : PyM Disk unit :=
  for_each fs (fun f => savefig d (frame_file (fr_index f)) f).

(** [os.listdir(d)] *)
Definition listdir (d : string) : PyM Disk (list string) :=
  fun k => if bool_decide (d ∈ dirs k) then Ok (omap (fun pf => in_dir d pf.1) (map_to_list (files k))) k
           else Raise FileNotFoundError k.

(** [imageio.imread(p)] *)
Definition imread (p : string) : PyM Disk Frame :=
  fun k => match files k !! p with
           | Some f => Ok f k
           | None => Raise FileNotFoundError k
           end.

(** [imageio.get_writer(out, fps=fps, codec='libx264')]: a video with no
    frame yet. *)
Definition get_writer (out : string) : PyM Disk unit :=
  modify (fun k => set_videos (<[out := (fps, [])]> (videos k)) k).

(** [writer.append_data(img)] *)
Definition append_data (out : string) (img : Frame) : PyM Disk unit :=
  modify (fun k => set_videos (alter (fun v => (v.1, v.2 ++ [img])) out (videos k)) k).

(** [print(x)] *)
Definition print_line (x : string) : PyM Disk unit :=
  modify (fun k => mkDisk (files k) (dirs k) (videos k) (console k ++ [x])).

(** [shutil.rmtree(d)]: the folder and every file in it. *)
Definition rmtree (d : string) : PyM Disk unit :=
  fun k => if bool_decide (d ∈ dirs k)
           then Ok tt (mkDisk (filter (fun pf => strip_prefix (String.append d "/") pf.1 = None) (files k)) (dirs k ∖ {[d]})
                         (videos k) (console k))
           else Raise FileNotFoundError k.

(** Lines 228-244. *)
Definition generate_video (frames_folder output_video : string) : PyM Disk unit :=
  names <- listdir frames_folder ;;
  let frames := merge_sort String.le
                  (path_join frames_folder <$> filter (fun f => ends_with ".png" f = true) names) in
  get_writer output_video ;;;
  for_each frames (fun frame => img <- imread frame ;; append_data output_video img) ;;;
  print_line (String.append "Video generado exitosamente: " output_video) ;;;
  rmtree frames_folder ;;;
  print_line "Carpeta de frames eliminada.".

(** ** The order of the frame files *)

(** The path of frame [n] in folder [d]. *)
Definition frame_path (d : string) (n : nat) : string := path_join d (frame_file n).

(** The folder [d] exists and holds no file. *)
Definition empty_dir (d : string) (k : Disk) : Prop :=
  d ∈ dirs k /\ forall p f, files k !! p = Some f -> strip_prefix (String.append d "/") p = None.

Lemma path_join_compare d a b : String.compare (path_join d a) (path_join d b) = String.compare a b.
Proof. unfold path_join. rewrite compare_prefix. cbn [String.compare]. unfold Ascii.compare. by rewrite N.compare_refl. Qed.

Lemma frame_file_compare n m :
  n < 10 ^ 5 -> m < 10 ^ 5 -> String.compare (frame_file n) (frame_file m) = Nat.compare n m.
Proof.
  intros Hn Hm. unfold frame_file. rewrite compare_prefix, !format_0d_fixed by (done || lia).
  rewrite compare_app_len by (by rewrite !fixed_digits_length). rewrite fixed_digits_compare by done.
  by destruct (Nat.compare n m); [apply compare_refl| |].
Qed.

Lemma frame_path_compare d n m :
  n < 10 ^ 5 -> m < 10 ^ 5 -> String.compare (frame_path d n) (frame_path d m) = Nat.compare n m.
Proof. intros. unfold frame_path. rewrite path_join_compare. by apply frame_file_compare. Qed.

Lemma frame_path_inj d n m : n < 10 ^ 5 -> m < 10 ^ 5 -> frame_path d n = frame_path d m -> n = m.
Proof.
  intros Hn Hm E. apply Nat.compare_eq_iff. rewrite <- (frame_path_compare d) by done.
  rewrite E. apply compare_refl.
Qed.

Lemma frame_path_le d n m : n <= m -> m < 10 ^ 5 -> String.le (frame_path d n) (frame_path d m).
Proof.
  intros Hnm Hm. unfold String.le, String.leb. rewrite frame_path_compare by lia.
  destruct (Nat.compare_spec n m); [done|done|lia].
Qed.

(** The frame paths in the order of their numbers are sorted as strings. *)
Lemma frame_paths_sorted d a n : a + n <= 10 ^ 5 -> Sorted String.le (frame_path d <$> seq a n).
Proof.
  revert a. induction n as [|n IH]; intros a Hn; [constructor|].
  cbn [seq fmap list_fmap]. constructor; [apply IH; lia|].
  destruct n as [|n]; constructor. apply frame_path_le; lia.
Qed.

Lemma frame_paths_NoDup d a n : a + n <= 10 ^ 5 -> NoDup (frame_path d <$> seq a n).
Proof.
  intros Hn. apply NoDup_fmap_2_strong; [|apply NoDup_seq].
  intros x y Hx Hy. apply elem_of_seq in Hx, Hy. apply frame_path_inj; lia.
Qed.

(** Python's [sorted] puts any listing of the frame paths [0 .. n-1] back
    in the order of the numbers. *)
Lemma sort_frame_paths d n l :
  n <= 10 ^ 5 -> l ≡ₚ frame_path d <$> seq 0 n -> merge_sort String.le l = frame_path d <$> seq 0 n.
Proof.
  intros Hn Hl. pose proof (Sorted_merge_sort String.le l) as Hs.
  apply (Sorted_unique String.le); [done|by apply frame_paths_sorted|].
  etrans; [apply merge_sort_Permutation|done].
Qed.

(** ** Listing the folder *)

Lemma in_dir_path_join d f : no_slash f = true -> in_dir d (path_join d f) = Some f.
Proof.
  intros H. unfold in_dir, path_join.
  replace (String.append d (String "/"%char f)) with (String.append (String.append d "/") f)
    by (rewrite append_assoc; reflexivity).
  by rewrite strip_prefix_append, H.
Qed.

Lemma in_dir_Some d p f : in_dir d p = Some f -> p = path_join d f.
Proof.
  unfold in_dir. destruct (strip_prefix _ p) as [r|] eqn:E; [|done].
  destruct (no_slash r); intros Hf; simplify_eq. apply strip_prefix_Some in E.
  rewrite E, append_assoc. reflexivity.
Qed.

Lemma path_join_under d f : strip_prefix (String.append d "/") (path_join d f) = Some f.
Proof.
  unfold path_join. replace (String.append d (String "/"%char f)) with (String.append (String.append d "/") f)
    by (rewrite append_assoc; reflexivity). apply strip_prefix_append.
Qed.

Lemma no_slash_append s1 s2 : no_slash (String.append s1 s2) = no_slash s1 && no_slash s2.
Proof. induction s1 as [|c s IH]; [done|]. rewrite append_cons. simpl. rewrite IH. apply andb_assoc. Qed.

Lemma no_slash_fixed k n : no_slash (fixed_digits k n) = true.
Proof.
  revert n. induction k as [|k IH]; intros n; [done|]. cbn [fixed_digits].
  rewrite no_slash_append, IH. cbn [no_slash]. rewrite andb_true_r. apply bool_decide_eq_true.
  unfold digit_char. intros E. apply (f_equal Ascii.nat_of_ascii) in E.
  pose proof (Nat.mod_upper_bound n 10 ltac:(lia)).
  rewrite Ascii.nat_ascii_embedding in E by lia. change (Ascii.nat_of_ascii "/"%char) with 47 in E. lia.
Qed.

Lemma frame_file_no_slash n : n < 10 ^ 5 -> no_slash (frame_file n) = true.
Proof.
  intros Hn. unfold frame_file. rewrite !no_slash_append, format_0d_fixed, no_slash_fixed by (done || lia).
  reflexivity.
Qed.

Lemma frame_file_png n : ends_with ".png" (frame_file n) = true.
Proof. unfold frame_file. rewrite <- append_assoc. apply ends_with_append. Qed.

#[local] Instance path_join_inj d : Inj (=) (=) (path_join d).
Proof. intros x y E. unfold path_join in E. apply (inj (String.append d)) in E. by injection E. Qed.

(** The names a listing returns are distinct: they come from distinct
    paths, each the folder joined with its name. *)
Lemma listing_NoDup d (m : gmap string Frame) : NoDup (omap (fun pf => in_dir d pf.1) (map_to_list m)).
Proof.
  pose proof (NoDup_fst_map_to_list m) as Hnd. revert Hnd. generalize (map_to_list m) as l.
  induction l as [|[p f] l IH]; intros Hnd; [constructor|].
  rewrite fmap_cons, NoDup_cons in Hnd. destruct Hnd as [Hp Hnd]. simpl.
  destruct (in_dir d p) as [y|] eqn:Ey; [|by apply IH]. constructor; [|by apply IH].
  intros Hy. apply list_elem_of_omap in Hy as [[p' f'] [Hin Ey']]. simpl in Ey'.
  apply in_dir_Some in Ey, Ey'. apply Hp. rewrite Ey, <- Ey'. apply list_elem_of_fmap. by exists (p', f').
Qed.

Lemma foldl_insert_notin {A} (key : A -> string) (xs : list A) (m : gmap string A) p :
  p ∉ key <$> xs -> foldl (fun m x => <[key x := x]> m) m xs !! p = m !! p.
Proof.
  revert m. induction xs as [|x xs IH]; intros m Hp; [done|].
  rewrite fmap_cons, not_elem_of_cons in Hp. destruct Hp as [Hx Hp]. simpl.
  rewrite IH by done. by apply lookup_insert_ne.
Qed.

Lemma foldl_insert_in {A} (key : A -> string) (xs : list A) (m : gmap string A) x :
  NoDup (key <$> xs) -> x ∈ xs -> foldl (fun m x => <[key x := x]> m) m xs !! key x = Some x.
Proof.
  revert m. induction xs as [|y xs IH]; intros m Hnd Hx; [by apply elem_of_nil in Hx|].
  rewrite fmap_cons, NoDup_cons in Hnd. destruct Hnd as [Hy Hnd]. simpl.
  apply elem_of_cons in Hx as [->|Hx]; [|by apply IH].
  rewrite foldl_insert_notin by done. apply lookup_insert_eq.
Qed.

(** The file table after writing the frames [fs] into [d]. *)
Definition written (d : string) (fs : list Frame) (m : gmap string Frame) : gmap string Frame :=
  foldl (fun m f => <[frame_path d (fr_index f) := f]> m) m fs.

Lemma write_frames_Ok d fs k :
  d ∈ dirs k -> write_frames d fs k = Ok tt (set_files (written d fs (files k)) k).
Proof.
  unfold write_frames, written. revert k. induction fs as [|f fs IH]; intros k Hd; [by destruct k|].
  cbn [for_each]. unfold bind at 1, savefig. rewrite bool_decide_true by done.
  rewrite IH by (by destruct k). by destruct k.
Qed.

Section Written.

Variables (d : string) (fs : list Frame).
Hypothesis Hix : fr_index <$> fs = seq 0 (length fs).
Hypothesis Hn : length fs <= 10 ^ 5.

Lemma written_keys : (fun f => frame_path d (fr_index f)) <$> fs = frame_path d <$> seq 0 (length fs).
Proof. by rewrite <- Hix, <- list_fmap_compose. Qed.

Lemma written_lookup m i f : fs !! i = Some f -> written d fs m !! frame_path d i = Some f.
Proof.
  intros Hi. assert (Hf : fr_index f = i).
  { pose proof (lookup_lt_Some _ _ _ Hi) as Hlt. apply (f_equal (.!! i)) in Hix.
    rewrite list_lookup_fmap, Hi, lookup_seq_lt in Hix by done. by injection Hix. }
  rewrite <- Hf. apply (foldl_insert_in (fun f => frame_path d (fr_index f))); [|by eapply list_elem_of_lookup_2].
  rewrite written_keys. by apply frame_paths_NoDup.
Qed.

Lemma written_other m p : p ∉ frame_path d <$> seq 0 (length fs) -> written d fs m !! p = m !! p.
Proof. intros Hp. apply (foldl_insert_notin (fun f => frame_path d (fr_index f))). by rewrite written_keys. Qed.

(** Listing a folder that held nothing before the frames were written
    gives, once joined and sorted, the frame paths in order. *)
Lemma listing_written m :
  (forall p f, m !! p = Some f -> strip_prefix (String.append d "/") p = None) ->
  path_join d <$> filter (fun f => ends_with ".png" f = true) (omap (fun pf => in_dir d pf.1) (map_to_list (written d fs m)))
    ≡ₚ frame_path d <$> seq 0 (length fs).
Proof.
  intros He. apply NoDup_Permutation.
  - apply NoDup_fmap_2; [apply path_join_inj|]. apply NoDup_filter, listing_NoDup.
  - by apply frame_paths_NoDup.
  - intros x. rewrite list_elem_of_fmap. split.
    + intros (y & -> & Hy). apply list_elem_of_filter in Hy as [_ Hy].
      apply list_elem_of_omap in Hy as [[p f] [Hin Hp]]. simpl in Hp.
      apply elem_of_map_to_list in Hin. apply in_dir_Some in Hp as ->.
      destruct (decide (path_join d y ∈ frame_path d <$> seq 0 (length fs))) as [|Hno]; [done|].
      rewrite written_other in Hin by done. apply He in Hin. by rewrite path_join_under in Hin.
    + intros (i & -> & Hi%elem_of_seq)%list_elem_of_fmap. destruct (lookup_lt_is_Some_2 fs i) as [f Hf]; [lia|].
      exists (frame_file i). split; [done|]. apply list_elem_of_filter. split; [apply frame_file_png|].
      apply list_elem_of_omap. exists (frame_path d i, f). split.
      * apply elem_of_map_to_list. by apply written_lookup.
      * apply in_dir_path_join, frame_file_no_slash. lia.
Qed.

End Written.

(** ** Reading the frames into the video *)

(** The loop of lines 237-238 over the frame paths [a .. a + n - 1]. *)
Lemma read_frames d out fs a k vs :
  (forall i f, fs !! i = Some f -> files k !! frame_path d (a + i) = Some f) ->
  videos k !! out = Some (fps, vs) ->
  exists k', for_each (frame_path d <$> seq a (length fs))
               (fun frame => img <- imread frame ;; append_data out img) k = Ok tt k' /\
    videos k' !! out = Some (fps, vs ++ fs) /\ files k' = files k /\ dirs k' = dirs k /\
    console k' = console k.
Proof.
  revert a k vs. induction fs as [|f fs IH]; intros a k vs Hf Hv.
  - exists k. rewrite app_nil_r. by split_and!.
  - assert (Hr : files k !! frame_path d a = Some f) by (rewrite <- (Nat.add_0_r a); by apply (Hf 0)).
    destruct (IH (S a) (set_videos (alter (fun v => (v.1, v.2 ++ [f])) out (videos k)) k) (vs ++ [f]))
      as (k' & E & Hv' & Hfi & Hd & Hc).
    + intros i g Hi. replace (S a + i) with (a + S i) by lia. by apply Hf.
    + simpl. rewrite lookup_alter, decide_True by done. by rewrite Hv.
    + exists k'. rewrite <- app_assoc in Hv'. split; [|by split_and!].
      cbn [length seq fmap list_fmap for_each]. unfold bind at 1 2, imread at 1. rewrite Hr. exact E.
Qed.

(** The video shows the frames in the order they were saved: when the
    frames folder holds no file before the run, and fewer than 100000
    frames [0, 1, ...] are written to it, [generate_video] returns and
    leaves a video of exactly those frames, in that order, at [fps]
    frames per second, removes the folder and its files, and prints its
    two messages. *)
Theorem video_in_saved_order d out fs k :
  empty_dir d k -> fr_index <$> fs = seq 0 (length fs) -> length fs <= 10 ^ 5 ->
  exists k', (write_frames d fs ;;; generate_video d out) k = Ok tt k' /\
    videos k' !! out = Some (fps, fs) /\ (d ∉ dirs k') /\
    (forall p f, files k' !! p = Some f -> strip_prefix (String.append d "/") p = None) /\
    console k' = console k ++ [String.append "Video generado exitosamente: " out; "Carpeta de frames eliminada."].
Proof.
  intros [Hd He] Hix Hn.
  set (k1 := set_files (written d fs (files k)) k).
  set (k2 := set_videos (<[out := (fps, [])]> (videos k1)) k1).
  destruct (read_frames d out fs 0 k2 []) as (k3 & E3 & Hv3 & Hf3 & Hd3 & Hc3).
  { intros i f Hi. by apply written_lookup. }
  { apply lookup_insert_eq. }
  eexists. unfold bind at 1. rewrite write_frames_Ok by done. fold k1.
  unfold generate_video, bind at 1, listdir. rewrite bool_decide_true by done.
  rewrite (sort_frame_paths d (length fs)) by (done || by apply listing_written).
  unfold bind at 1, get_writer at 1, modify at 1. fold k2.
  unfold bind at 1. rewrite E3.
  unfold bind, print_line, modify, rmtree. rewrite bool_decide_true by (rewrite Hd3; done).
  split; [reflexivity|]. cbn [videos dirs files console]. split_and!.
  - done.
  - intros [_ Hx]%elem_of_difference. by apply Hx, elem_of_singleton.
  - intros p f Hp. by apply map_lookup_filter_Some in Hp as [_ ?].
  - rewrite Hc3, <- app_assoc. reflexivity.
Qed.

(** ** Reading a folder that holds other files *)

(** The loop of lines 237-238 over paths that all name files: the video
    gets the files' images in the order of the paths. *)
Lemma read_paths out ps k vs :
  (forall p, p ∈ ps -> is_Some (files k !! p)) -> videos k !! out = Some (fps, vs) ->
  exists k' fs, for_each ps (fun frame => img <- imread frame ;; append_data out img) k = Ok tt k' /\
    Forall2 (fun p f => files k !! p = Some f) ps fs /\
    videos k' !! out = Some (fps, vs ++ fs) /\ files k' = files k /\ dirs k' = dirs k /\ console k' = console k.
Proof.
  revert k vs. induction ps as [|p ps IH]; intros k vs Hps Hv.
  - exists k, []. rewrite app_nil_r. by split_and!.
  - destruct (Hps p ltac:(left)) as [f Hf].
    destruct (IH (set_videos (alter (fun v => (v.1, v.2 ++ [f])) out (videos k)) k) (vs ++ [f]))
      as (k' & fs & E & Hfs & Hv' & Hfi & Hd & Hc).
    + intros q Hq. apply (Hps q). by right.
    + simpl. rewrite lookup_alter, decide_True by done. by rewrite Hv.
    + exists k', (f :: fs). rewrite <- app_assoc in Hv'. split_and!; [|by constructor|done|exact Hfi|exact Hd|exact Hc].
      cbn [for_each]. unfold bind at 1 2, imread at 1. rewrite Hf. exact E.
Qed.

(** Every path [generate_video] reads names a file of the folder. *)
Lemma listed_png_files d (m : gmap string Frame) p :
  p ∈ path_join d <$> filter (fun f => ends_with ".png" f = true) (omap (fun pf => in_dir d pf.1) (map_to_list m)) ->
  is_Some (m !! p).
Proof.
  intros (y & -> & Hy)%list_elem_of_fmap. apply list_elem_of_filter in Hy as [_ Hy].
  apply list_elem_of_omap in Hy as [[p f] [Hin Hp]]. simpl in Hp. apply elem_of_map_to_list in Hin.
  apply in_dir_Some in Hp as <-. by exists f.
Qed.

(** [generate_video] on a folder that exists returns, and the image of
    every [.png] file directly in the folder is in the video, whoever
    wrote it. *)
Lemma generate_video_reads d out k :
  d ∈ dirs k ->
  exists k' vs, generate_video d out k = Ok tt k' /\ videos k' !! out = Some (fps, vs) /\
    forall name f, files k !! path_join d name = Some f -> no_slash name = true ->
      ends_with ".png" name = true -> f ∈ vs.
Proof.
  intros Hd.
  set (ps := merge_sort String.le (path_join d <$> filter (fun f => ends_with ".png" f = true)
               (omap (fun pf => in_dir d pf.1) (map_to_list (files k))))).
  assert (Hps : forall p, p ∈ ps <-> p ∈ path_join d <$> filter (fun f => ends_with ".png" f = true)
               (omap (fun pf => in_dir d pf.1) (map_to_list (files k)))).
  { intros p. unfold ps. by rewrite merge_sort_Permutation. }
  set (k2 := set_videos (<[out := (fps, [])]> (videos k)) k).
  destruct (read_paths out ps k2 []) as (k3 & fs & E3 & Hfs & Hv3 & Hf3 & Hd3 & Hc3).
  { intros p Hp. by apply listed_png_files with d, Hps. }
  { apply lookup_insert_eq. }
  eexists _, fs.
  split; [|split].
  - unfold generate_video, bind at 1, listdir. rewrite bool_decide_true by done. fold ps.
    unfold bind at 1, get_writer at 1, modify at 1. fold k2.
    unfold bind at 1. rewrite E3.
    unfold bind, print_line, modify, rmtree. rewrite bool_decide_true by (rewrite Hd3; done). reflexivity.
  - exact Hv3.
  - intros name f Hf Hn Hpng.
    assert (Hin : path_join d name ∈ ps).
    { apply Hps, list_elem_of_fmap. exists name. split; [done|]. apply list_elem_of_filter. split; [done|].
      apply list_elem_of_omap. exists (path_join d name, f). split; [by apply elem_of_map_to_list|].
      by apply in_dir_path_join. }
    apply list_elem_of_lookup_1 in Hin as [i Hi].
    destruct (Forall2_lookup_l _ _ _ _ _ Hfs Hi) as (f' & Hf' & Hl). simpl in Hl. rewrite Hf in Hl.
    injection Hl as <-. by eapply list_elem_of_lookup_2.
Qed.

(** A file of the folder whose name no frame of the run takes keeps its
    content when the frames are written. *)
Lemma written_stale d fs m name :
  fr_index <$> fs = seq 0 (length fs) -> name ∉ frame_file <$> seq 0 (length fs) ->
  written d fs m !! path_join d name = m !! path_join d name.
Proof.
  intros Hix Hno. apply (written_other d fs Hix). intros (i & Hi & Hs)%list_elem_of_fmap.
  apply Hno, list_elem_of_fmap. exists i. split; [|done]. by apply (inj (path_join d)) in Hi.
Qed.

(** ** The file names, below and past 100000 *)

(** C29: Below 100000 the names [frame_%05d.png] sort as the numbers do:
    Python's string order ([sorted], line 229) puts the name of frame [n]
    before that of frame [m] exactly when [n < m]. *)
Theorem frame_names_sorted n m :
  n < 10 ^ 5 -> m < 10 ^ 5 -> String.ltb (frame_file n) (frame_file m) = (n <? m).
Proof.
  intros Hn Hm. unfold String.ltb. rewrite frame_file_compare by done.
  destruct (Nat.compare_spec n m); symmetry; apply Nat.ltb_lt || apply Nat.ltb_ge; lia.
Qed.

(** C30: From 100000 frames on, [:05d] no longer pads to a common width
    and the string order is not the numeric one: any frame [m] from
    100000 to 999999 sorts before every frame [n] below 100000 that is
    greater than [m / 10] (for instance [frame_100000.png] before
    [frame_99999.png]), so a run saving more than 100000 frames is played
    out of order. *)
Theorem frame_order_breaks n m :
  n < 10 ^ 5 <= m -> m < 10 ^ 6 -> m / 10 < n ->
  String.ltb (frame_path frames_folder m) (frame_path frames_folder n) = true.
Proof.
  intros [Hn Hm] Hm' Hlt. unfold String.ltb, frame_path. rewrite path_join_compare. unfold frame_file.
  rewrite compare_prefix, format_0d_overflow_compare by (done || apply Nat.lt_0_succ). reflexivity.
Qed.

Lemma frame_names_sorted_witness :
  3 < 10 ^ 5 /\ String.ltb (frame_file 3) (frame_file 12) = (3 <? 12).
Proof.
  assert (H3 : 3 < 10 ^ 5) by (apply Nat.ltb_lt; vm_compute; reflexivity).
  split; [exact H3|]. apply frame_names_sorted; [exact H3|apply Nat.ltb_lt; vm_compute; reflexivity].
Defined.

Lemma frame_order_breaks_witness :
  (99999 < 10 ^ 5 <= 100000) /\ 100000 < 10 ^ 6 /\ 100000 / 10 < 99999 /\
  String.ltb (frame_path frames_folder 100000) (frame_path frames_folder 99999) = true.
Proof.
  assert (H1 : 99999 < 10 ^ 5) by (apply Nat.ltb_lt; vm_compute; reflexivity).
  assert (H2 : 10 ^ 5 <= 100000) by (apply Nat.leb_le; vm_compute; reflexivity).
  assert (H3 : 100000 < 10 ^ 6) by (apply Nat.ltb_lt; vm_compute; reflexivity).
  assert (H4 : 100000 / 10 < 99999) by (apply Nat.ltb_lt; vm_compute; reflexivity).
  split; [by split|]. split; [exact H3|]. split; [exact H4|].
  exact (frame_order_breaks 99999 100000 (conj H1 H2) H3 H4).
Defined.

End Disk.
