(* ===== verification/Plot.v ===== *)
(** * Plot: the plot setup, main.py lines 65-94

    Before the search the script computes, from the projected graph:
    - [pos], the coordinates [(x, y)] of every node (line 66);
    - [edges_keys] and [edges_lines], for every edge in the order of
      [G.edges], its key and its polyline: the edge's [geometry] when it
      has one, else the segment between its two nodes (lines 68-77);
    - the styles of the [LineCollection], read from the edges with
      [.get(attr, default)] (lines 80-83, and again in [save_frame], lines
      109-111);
    - the figure and axes parameters (lines 86-88, 94) and the axes
      limits, the least and greatest coordinates (lines 92-93).

    The coordinates are an input: [x] and [y] are the attributes osmnx
    attaches to the nodes ([G.nodes(data=True)], as a list of pairs), and
    [geometry] those of the edges that have one.  The matplotlib objects
    are modelled by the [PlotSetup] record of what they are given.
    [min] and [max] of an empty sequence raise [ValueError]; a missing
    node in [pos] raises [KeyError]. *)

From S2P Require Import Prelude Graph Disk.
From Stdlib Require Import QOrderedType Qminmax.
Local Open Scope nat_scope.

Module Plot.

Import Disk.

Definition point : Type := (Q * Q)%type.

(** Line 66: [pos = {node: (data['x'], data['y']) for node, data in G.nodes(data=True)}]. *)
Definition node_pos (xy : list (node * point)) : gmap node point :=
  foldl (fun m np => <[np.1 := np.2]> m) ∅ xy.

(** Lines 73-77: the polyline of one edge. *)
Definition edge_line (pos : gmap node point) (geom : gmap ekey (list point)) (e : Edge)
  : exn + list point :=
  match geom !! ekey_of e with
  | Some coords => inr coords
  | None =>
      match pos !! e_u e, pos !! e_v e with
      | Some pu, Some pv => inr [pu; pv]
      | _, _ => inl KeyError
      end
  end.

(** Lines 71-77: the loop over [G.edges]; the first failing edge raises. *)
Fixpoint edge_lines (pos : gmap node point) (geom : gmap ekey (list point)) (es : list Edge)
  : exn + list (list point) :=
  match es with
  | [] => inr []
  | e :: es' =>
      match edge_line pos geom e with
      | inl x => inl x
      | inr c => match edge_lines pos geom es' with
                 | inl x => inl x
                 | inr cs => inr (c :: cs)
                 end
      end
  end.

(** The defaults of [.get('color', '#d36206')], [.get('linewidth', 0.5)]
    and [.get('alpha', 0.2)] (lines 81-83, 109-111). *)
Definition lc_default : EdgeStyle := mkEdgeStyle "#d36206" (2 # 10) (5 # 10).

(** The style drawn for edge [k]: the one written on it, else the
    defaults (the [style_*] functions write all three attributes). *)
Definition drawn_style (st : gmap ekey EdgeStyle) (k : ekey) : EdgeStyle := default lc_default (st !! k).

(** [min(...)] and [max(...)] of a sequence of numbers. *)
Definition py_minQ (xs : list Q) : exn + Q :=
  match xs with
  | [] => inl ValueError
  | x :: xs' => inr (fold_left Qmin xs' x)
  end.

Definition py_maxQ (xs : list Q) : exn + Q :=
  match xs with
  | [] => inl ValueError
  | x :: xs' => inr (fold_left Qmax xs' x)
  end.

(** What the figure, the line collection and the axes are given. *)
Record PlotSetup : Type := mkPlotSetup {
  ps_keys : list ekey;
  ps_lines : list (list point);
  ps_styles : list EdgeStyle;
  ps_figsize : nat * nat;
  ps_facecolor : string;
  ps_xlim : Q * Q;
  ps_ylim : Q * Q;
  ps_axis_off : bool
}.

Definition sum_bind {A B} (x : exn + A) (k : A -> exn + B) : exn + B :=
  match x with inl e => inl e | inr a => k a end.

(** Lines 65-94, with the edge styles [st] present at that point. *)
Definition plot_setup (g : Graph) (xy : list (node * point)) (geom : gmap ekey (list point))
    (st : gmap ekey EdgeStyle) : exn + PlotSetup :=
  let pos := node_pos xy in
  let keys := ekey_of <$> g_edges g in
  sum_bind (edge_lines pos geom (g_edges g)) (fun lines =>
  let vals := (map_to_list pos).*2 in
  sum_bind (py_minQ (fst <$> vals)) (fun x0 =>
  sum_bind (py_maxQ (fst <$> vals)) (fun x1 =>
  sum_bind (py_minQ (snd <$> vals)) (fun y0 =>
  sum_bind (py_maxQ (snd <$> vals)) (fun y1 =>
  inr (mkPlotSetup keys lines (drawn_style st <$> keys) (size, size) "#18080e" (x0, x1) (y0, y1) true)))))).

(** ** Lemmas *)

Lemma fold_min_le xs x : forall y, y ∈ x :: xs -> (fold_left Qmin xs x <= y)%Q.
Proof.
  revert x. induction xs as [|z zs IH]; intros x y Hy; simpl.
  - apply list_elem_of_singleton in Hy as ->. apply Qle_refl.
  - apply elem_of_cons in Hy as [->|[->|Hy]%elem_of_cons].
    + eapply Qle_trans; [apply IH; left|apply Q.le_min_l].
    + eapply Qle_trans; [apply IH; left|apply Q.le_min_r].
    + apply IH. by right.
Qed.

Lemma fold_max_ge xs x : forall y, y ∈ x :: xs -> (y <= fold_left Qmax xs x)%Q.
Proof.
  revert x. induction xs as [|z zs IH]; intros x y Hy; simpl.
  - apply list_elem_of_singleton in Hy as ->. apply Qle_refl.
  - apply elem_of_cons in Hy as [->|[->|Hy]%elem_of_cons].
    + eapply Qle_trans; [apply Q.le_max_l|apply IH; left].
    + eapply Qle_trans; [apply Q.le_max_r|apply IH; left].
    + apply IH. by right.
Qed.

Lemma py_minQ_spec xs : xs <> [] -> exists m, py_minQ xs = inr m /\ forall y, y ∈ xs -> (m <= y)%Q.
Proof. destruct xs as [|x xs]; [done|]. intros _. eexists. split; [reflexivity|]. apply fold_min_le. Qed.

Lemma py_maxQ_spec xs : xs <> [] -> exists m, py_maxQ xs = inr m /\ forall y, y ∈ xs -> (y <= m)%Q.
Proof. destruct xs as [|x xs]; [done|]. intros _. eexists. split; [reflexivity|]. apply fold_max_ge. Qed.

Lemma node_pos_Some xy n : n ∈ xy.*1 -> is_Some (node_pos xy !! n).
Proof.
  unfold node_pos. generalize (∅ : gmap node point) as m. revert n.
  induction xy as [|[k p] xy IH] using rev_ind; intros n m Hn; [by apply elem_of_nil in Hn|].
  rewrite foldl_app. simpl. rewrite lookup_insert. case_decide; [by eexists|].
  apply IH. rewrite fmap_app in Hn. apply elem_of_app in Hn as [Hn|Hn]; [done|].
  apply list_elem_of_singleton in Hn. simpl in Hn. by subst.
Qed.

Lemma edge_lines_ok pos geom es :
  (forall e, e ∈ es -> is_Some (pos !! e_u e) /\ is_Some (pos !! e_v e)) ->
  exists ls, edge_lines pos geom es = inr ls /\ length ls = length es.
Proof.
  induction es as [|e es IH]; intros Hes; [by exists []|].
  destruct (IH (fun e' He' => Hes e' ltac:(by right))) as (ls & E & Hl).
  destruct (Hes e ltac:(left)) as [[pu Hu] [pv Hv]]. simpl. rewrite E.
  unfold edge_line. destruct (geom !! ekey_of e); [|rewrite Hu, Hv]; eexists; (split; [reflexivity|]); simpl; lia.
Qed.

Lemma elem_of_pos_values (m : gmap node point) n p : m !! n = Some p -> p ∈ (map_to_list m).*2.
Proof. intros H. apply list_elem_of_fmap. exists (n, p). split; [done|]. by apply elem_of_map_to_list. Qed.

(** C31: The plot setup, when the nodes listed with their coordinates are
    the graph's nodes: with no node it raises [ValueError] ([min] of an
    empty sequence, line 92); otherwise it gives one polyline per edge, in
    the order of [G.edges], styled by the defaults of lines 81-83 (those
    of [style_unvisited_edge]) as no edge is styled yet, and axes limits
    that enclose every node's position. *)
Theorem plot_setup_spec g xy geom :
  wf_graph g -> xy.*1 = g_nodes g ->
  (g_nodes g = [] -> plot_setup g xy geom ∅ = inl ValueError) /\
  (g_nodes g <> [] -> exists ps, plot_setup g xy geom ∅ = inr ps /\
     ps_keys ps = ekey_of <$> g_edges g /\ length (ps_lines ps) = length (g_edges g) /\
     Forall (fun st => color st = color unvisited_style /\ (alpha st == alpha unvisited_style)%Q /\
                       (linewidth st == linewidth unvisited_style)%Q) (ps_styles ps) /\
     forall n p, node_pos xy !! n = Some p ->
       ((ps_xlim ps).1 <= p.1 <= (ps_xlim ps).2)%Q /\ ((ps_ylim ps).1 <= p.2 <= (ps_ylim ps).2)%Q).
Proof.
  intros Hg Hxy.
  destruct (edge_lines_ok (node_pos xy) geom (g_edges g)) as (ls & El & Hl).
  { intros e He. split; apply node_pos_Some; rewrite Hxy;
      [by apply (wf_edge_src g Hg)|by apply (wf_edge_dst g Hg)]. }
  split.
  - intros Hn. rewrite Hn in Hxy. destruct xy; [|done]. unfold plot_setup. rewrite El. reflexivity.
  - intros Hn. destruct (g_nodes g) as [|n0 ns] eqn:Hns; [done|].
    destruct (node_pos_Some xy n0) as [p0 Hp0]; [rewrite Hxy; left|].
    pose proof (elem_of_pos_values _ _ _ Hp0) as Hv.
    assert (Hne : forall A (f : point -> A), f <$> (map_to_list (node_pos xy)).*2 <> []).
    { intros A f Hf. apply fmap_nil_inv in Hf. rewrite Hf in Hv. by apply elem_of_nil in Hv. }
    unfold plot_setup. rewrite El. cbn [sum_bind].
    match goal with |- context [py_minQ ?l] =>
      destruct (py_minQ_spec l) as (x0 & Ex0 & Hx0); [apply Hne|rewrite Ex0; cbn [sum_bind]] end.
    match goal with |- context [py_maxQ ?l] =>
      destruct (py_maxQ_spec l) as (x1 & Ex1 & Hx1); [apply Hne|rewrite Ex1; cbn [sum_bind]] end.
    match goal with |- context [py_minQ ?l] =>
      destruct (py_minQ_spec l) as (y0 & Ey0 & Hy0); [apply Hne|rewrite Ey0; cbn [sum_bind]] end.
    match goal with |- context [py_maxQ ?l] =>
      destruct (py_maxQ_spec l) as (y1 & Ey1 & Hy1); [apply Hne|rewrite Ey1; cbn [sum_bind]] end.
    eexists. split; [reflexivity|]. cbn [ps_keys ps_lines ps_styles ps_xlim ps_ylim fst snd]. split_and!; [done|done| |].
    + apply Forall_fmap, Forall_forall. intros k _. change (drawn_style ∅ k) with lc_default.
      split_and!; [done|vm_compute; reflexivity|vm_compute; reflexivity].
    + intros n p Hp. pose proof (elem_of_pos_values _ _ _ Hp) as Hpv.
      split_and!; [apply Hx0|apply Hx1|apply Hy0|apply Hy1]; apply list_elem_of_fmap; by exists p.
Qed.

(** ** Witness *)

Definition line_graph : Graph := mkGraph [1; 2] [mkEdge 1 2 0 1000 50 (1000 / inject_Z 50)].
Definition line_xy : list (node * point) := [(1, (0, 0)%Q); (2, (3, 4)%Q)].

Lemma plot_setup_spec_witness :
  (g_nodes line_graph = [] -> plot_setup line_graph line_xy ∅ ∅ = inl ValueError) /\
  (g_nodes line_graph <> [] -> exists ps, plot_setup line_graph line_xy ∅ ∅ = inr ps /\
     ps_keys ps = ekey_of <$> g_edges line_graph /\ length (ps_lines ps) = length (g_edges line_graph) /\
     Forall (fun st => color st = color unvisited_style /\ (alpha st == alpha unvisited_style)%Q /\
                       (linewidth st == linewidth unvisited_style)%Q) (ps_styles ps) /\
     forall n p, node_pos line_xy !! n = Some p ->
       ((ps_xlim ps).1 <= p.1 <= (ps_xlim ps).2)%Q /\ ((ps_ylim ps).1 <= p.2 <= (ps_ylim ps).2)%Q).
Proof. apply plot_setup_spec; [solve_graph_hyps|reflexivity]. Defined.

End Plot.
