(* ===== verification/Frontier.v ===== *)
(** * Frontier: what the search needs from Python's [heapq]

    [dijkstra] keeps its frontier [pq] as a Python list handled by
    [heapq.heappush] and [heapq.heappop] (main.py lines 145, 150, 174).
    [heapq] is a library, not code of this repository: it is modelled from
    its documented contract.  The class [Frontier] gives the operations and
    [FrontierLaws] the contract: the elements form a multiset, [heappush]
    adds one, and [heappop] removes one that is smallest in the order
    Python uses on tuples [(distance, node)] (distance first, then node).
    The search is proved against these laws only; [ListHeap] is a
    reference implementation that satisfies them and computes. *)

From S2P Require Import Prelude Graph.
Local Open Scope nat_scope.

Module Frontier.

(** A frontier entry [(distance, node)]. *)
Definition entry : Type := (Dist * node)%type.

(** Python's [a <= b] on tuples [(float, int)]. *)
Definition entry_leb (a b : entry) : bool :=
  if dist_gtb b.1 a.1 then true
  else if dist_gtb a.1 b.1 then false
  else a.2 <=? b.2.

Definition entry_le (a b : entry) : Prop := entry_leb a b = true.

Class Frontier (F : Type) := {
  fr_empty : F;
  heappush : entry -> F -> F;
  heappop : F -> option (entry * F);
  fr_elems : F -> list entry
}.

Class FrontierLaws (F : Type) `{Frontier F} : Prop := {
  fr_empty_elems : fr_elems fr_empty = [];
  fr_push_elems e q : fr_elems (heappush e q) ≡ₚ e :: fr_elems q;
  fr_pop_None q : heappop q = None <-> fr_elems q = [];
  fr_pop_Some q e q' : heappop q = Some (e, q') ->
    fr_elems q ≡ₚ e :: fr_elems q' /\ forall e', e' ∈ fr_elems q -> entry_le e e'
}.

(** ** The reference implementation: a list, popped at a least element *)

(** The first least entry of a list and the list without it. *)
Fixpoint select_min (l : list entry) : option (entry * list entry) :=
  match l with
  | [] => None
  | x :: l' =>
      match select_min l' with
      | None => Some (x, [])
      | Some (m, r) => if entry_leb x m then Some (x, l') else Some (m, x :: r)
      end
  end.

Record ListHeap : Type := mkListHeap { lh_items : list entry }.

#[export] Instance ListHeap_frontier : Frontier ListHeap := {
  fr_empty := mkListHeap [];
  heappush e q := mkListHeap (lh_items q ++ [e]);
  heappop q := match select_min (lh_items q) with
               | None => None
               | Some (m, r) => Some (m, mkListHeap r)
               end;
  fr_elems := lh_items
}.

(** ** The order on entries *)

Definition dist_lt (a b : Dist) : Prop := ~ dist_le b a.

Lemma dist_le_total a b : dist_le a b \/ dist_le b a.
Proof.
  destruct a as [x|], b as [y|]; simpl; auto.
  destruct (Qlt_le_dec x y); [left; lra|right; done].
Qed.

Lemma entry_leb_spec a b :
  entry_le a b <->
  dist_lt a.1 b.1 \/ (dist_le a.1 b.1 /\ dist_le b.1 a.1 /\ a.2 <= b.2).
Proof.
  unfold entry_le, entry_leb, dist_lt.
  destruct (dist_gtb b.1 a.1) eqn:E1; [apply dist_gtb_true in E1; tauto|].
  apply dist_gtb_false in E1.
  destruct (dist_gtb a.1 b.1) eqn:E2.
  - apply dist_gtb_true in E2. split; [done|]. intros [H|[H _]]; contradiction.
  - apply dist_gtb_false in E2. rewrite Nat.leb_le. tauto.
Qed.

Lemma entry_le_dist a b : entry_le a b -> dist_le a.1 b.1.
Proof.
  rewrite entry_leb_spec. unfold dist_lt. intros [H|[H _]]; [|done].
  destruct (dist_le_total a.1 b.1); tauto.
Qed.

Lemma entry_le_refl a : entry_le a a.
Proof. apply entry_leb_spec. right. auto using dist_le_refl. Qed.

Lemma entry_le_total a b : entry_le a b \/ entry_le b a.
Proof.
  rewrite !entry_leb_spec. unfold dist_lt.
  destruct (Nat.le_ge_cases a.2 b.2), (dist_le_total a.1 b.1),
    (decide (dist_le a.1 b.1)), (decide (dist_le b.1 a.1)); tauto.
Qed.

Lemma entry_le_trans a b c : entry_le a b -> entry_le b c -> entry_le a c.
Proof.
  rewrite !entry_leb_spec. unfold dist_lt.
  pose proof (dist_le_trans a.1 b.1 c.1). pose proof (dist_le_trans c.1 a.1 b.1).
  pose proof (dist_le_trans b.1 c.1 a.1). pose proof (dist_le_trans a.1 c.1 b.1).
  pose proof (dist_le_trans b.1 a.1 c.1). pose proof (dist_le_trans c.1 b.1 a.1).
  pose proof (dist_le_total a.1 c.1). pose proof (dist_le_total a.1 b.1).
  pose proof (dist_le_total b.1 c.1).
  intros [A1|[A1 [B1 C1]]] [A2|[A2 [B2 C2]]]; try tauto.
  right. split; [tauto|]. split; [tauto|lia].
Qed.

Lemma select_min_spec l m r :
  select_min l = Some (m, r) -> l ≡ₚ m :: r /\ forall e, e ∈ l -> entry_le m e.
Proof.
  revert m r. induction l as [|x l IH]; intros m r H; simpl in H; [done|].
  destruct (select_min l) as [[m' r']|] eqn:E.
  - destruct (IH m' r' eq_refl) as [Hp Hmin].
    destruct (entry_leb x m') eqn:Hx; invc H.
    + split; [done|]. intros e He. apply elem_of_cons in He as [->|He].
      * apply entry_le_refl.
      * eapply entry_le_trans; [exact Hx|auto].
    + split; [rewrite Hp; apply perm_swap|].
      intros e He. apply elem_of_cons in He as [->|He]; [|auto].
      destruct (entry_le_total m x); [done|congruence].
  - invc H. destruct l; [|simpl in E; destruct (select_min l) as [[]|]; try done;
      destruct (entry_leb _ _); done].
    split; [done|]. intros e He. apply list_elem_of_singleton in He as ->.
    apply entry_le_refl.
Qed.

Lemma select_min_None l : select_min l = None <-> l = [].
Proof.
  split; [|by intros ->].
  destruct l as [|x l]; [done|]. simpl.
  destruct (select_min l) as [[m r]|]; [destruct (entry_leb x m)|]; done.
Qed.

#[export] Instance ListHeap_laws : FrontierLaws ListHeap.
Proof.
  split.
  - done.
  - intros e q. simpl. rewrite Permutation_app_comm. done.
  - intros q. simpl. rewrite <- select_min_None.
    destruct (select_min (lh_items q)) as [[m r]|]; done.
  - intros q e q'. simpl. destruct (select_min (lh_items q)) as [[m r]|] eqn:E; [|done].
    intros H. invc H. apply select_min_spec in E. done.
Qed.

End Frontier.
