(* ===== verification/Search.v ===== *)
(** * Search: [dijkstra], main.py lines 127-184

    The search is a loop over configurations [(pq, step)] in the global
    state [St]: [dijkstra_init] resets every node and edge and queues the
    origin, [dijkstra_body] is one iteration of [while pq:], and
    [dijkstra_loop] runs it with fuel.  The frontier is any [Frontier]
    satisfying [FrontierLaws].  The theorems show that the loop ends within
    [2 + |edges|] iterations; that it finalizes the destination at its
    shortest distance or, when the frontier runs out, that the destination
    is unreachable; that every finalized node is at its shortest distance;
    and that the returned step count is the number of finalized nodes. *)

From S2P Require Import Prelude Graph Snapshot Frontier.
Local Open Scope nat_scope.
Import Snapshot Frontier.

Module Search.

Section Dijkstra.

Context {F : Type} `{Frontier F}.
Variable g : Graph.

(** ** The operations of the search *)

(** Lines 132-136: [visited], [distance], [previous] and [size] reset. *)
Definition reset_attr (a : NodeAttr) : NodeAttr :=
  mkNodeAttr false Inf None 0 (highlight a) (node_color a).

Definition reset_nodes : PyM St unit :=
  modify (fun s => set_nattr (reset_attr <$> nattr s) s).

Definition set_distance (n : node) (d : Dist) : PyM St unit :=
  update_node n (fun a => mkNodeAttr (visited a) d (previous a) (node_size a) (highlight a) (node_color a)).

Definition set_previous (n : node) (p : node) : PyM St unit :=
  update_node n (fun a => mkNodeAttr (visited a) (distance a) (Some p) (node_size a) (highlight a) (node_color a)).

Definition visit_attr (a : NodeAttr) : NodeAttr :=
  mkNodeAttr true (distance a) (previous a) (node_size a) (highlight a) (node_color a).

(** Line 164: [G.nodes[node]["visited"] = True]. *)
Definition mark_visited (n : node) : PyM St unit := update_node n visit_attr.

(** Lines 177-178: [for edge2 in G.out_edges(neighbor): style_active_edge(edge2)]. *)
Definition style_active_out (nb : node) : PyM St unit :=
  for_each (ekey_of <$> out_edges g nb) (style_active_edge g).

(** Lines 168-178, one edge [e] out of [node].  The pushed distance is the
    one just stored in [G.nodes[neighbor]["distance"]]. *)
Definition relax_edge (node : node) (e : Edge) (pq : F) : PyM St F :=
  style_visited_edge g (ekey_of e) ;;;
  an <- get_node (e_v e) ;;
  au <- get_node node ;;
  let nd := dist_add (distance au) (e_weight e) in
  if dist_gtb (distance an) nd then
    set_distance (e_v e) nd ;;;
    set_previous (e_v e) node ;;;
    let pq' := heappush (nd, e_v e) pq in
    style_active_out (e_v e) ;;;
    ret pq'
  else ret pq.

(** Line 167: [for edge in G.out_edges(node, keys=True)]. *)
Fixpoint relax_edges (node : node) (es : list Edge) (pq : F) : PyM St F :=
  match es with
  | [] => ret pq
  | e :: es' => pq' <- relax_edge node e pq ;; relax_edges node es' pq'
  end.

(** One iteration of [while pq:] (lines 149-183): [inl] continues with the
    new frontier and step, [inr] is the value returned. *)
Definition dijkstra_body (dest : node) (isAnimate : bool) (pq : F) (step : nat)
  : PyM St (F * nat + nat) :=
  match heappop pq with
  | None => ret (inr step)
  | Some ((_, node), pq1) =>
      if decide (node = dest) then
        set_stage Found ;;;
        (if isAnimate then repeat_m 22 (save_frame step) else save_frame step) ;;;
        ret (inr step)
      else
        a <- get_node node ;;
        if visited a then ret (inl (pq1, step))
        else
          mark_visited node ;;;
          pq2 <- relax_edges node (out_edges g node) pq1 ;;
          (if isAnimate then save_frame step else ret tt) ;;;
          ret (inl (pq2, S step))
  end.

Fixpoint dijkstra_loop (fuel : nat) (dest : node) (isAnimate : bool) (pq : F) (step : nat)
  : PyM St nat :=
  match fuel with
  | O => fun _ => OutOfFuel
  | S f =>
      r <- dijkstra_body dest isAnimate pq step ;;
      match r with
      | inl (pq', step') => dijkstra_loop f dest isAnimate pq' step'
      | inr n => ret n
      end
  end.

(** Lines 129-146. *)
Definition dijkstra_init (orig dest : node) : PyM St F :=
  set_stage Finding ;;;
  reset_nodes ;;;
  style_all_unvisited g ;;;
  set_distance orig (Fin 0) ;;;
  style_start_end orig ;;;
  style_start_end dest ;;;
  ret (heappush (Fin 0, orig) fr_empty).

Definition dijkstra (fuel : nat) (orig dest : node) (isAnimate : bool) : PyM St nat :=
  pq <- dijkstra_init orig dest ;; dijkstra_loop fuel dest isAnimate pq 0.

(** Enough fuel for every run (see [dijkstra_terminates]). *)
Definition dijkstra_fuel : nat := 2 + length (g_edges g).

(** ** What one relaxation does to the node dictionaries *)

Definition relax_attr (u : node) (nd : Dist) (a : NodeAttr) : NodeAttr :=
  mkNodeAttr (visited a) nd (Some u) (node_size a) (highlight a) (node_color a).

Lemma style_active_out_Ok nb s :
  exists s', style_active_out nb s = Ok tt s' /\ nattr s' = nattr s /\ quiet s s'.
Proof. apply restyle_Ok. apply out_edges_keys. Qed.

Lemma relax_edge_effect u e pq s au an :
  e ∈ g_edges g -> nattr s !! u = Some au -> nattr s !! e_v e = Some an ->
  exists s', relax_edge u e pq s =
    Ok (if dist_gtb (distance an) (dist_add (distance au) (e_weight e))
        then heappush (dist_add (distance au) (e_weight e), e_v e) pq else pq) s' /\
    nattr s' = (if dist_gtb (distance an) (dist_add (distance au) (e_weight e))
                then <[e_v e := relax_attr u (dist_add (distance au) (e_weight e)) an]> (nattr s)
                else nattr s) /\
    quiet s s'.
Proof.
  intros He Hu Hv. unfold relax_edge, style_visited_edge.
  destruct (set_edge_style_Ok g (ekey_of e) visited_style s) as [s1 [E1 [N1 Q1]]]; [auto with pf|].
  rewrite (bind_Ok _ _ _ _ _ E1).
  rewrite (bind_Ok _ _ _ _ _ (get_node_Some (e_v e) an s1 ltac:(congruence))).
  rewrite (bind_Ok _ _ _ _ _ (get_node_Some u au s1 ltac:(congruence))).
  destruct (dist_gtb (distance an) _); [|exists s1; rewrite N1; done].
  set (nd := dist_add (distance au) (e_weight e)).
  edestruct (update_node_Ok (e_v e)) as [s2 [E2 [N2 Q2]]]; [rewrite N1; exact Hv|].
  unfold set_distance. rewrite (bind_Ok _ _ _ _ _ E2).
  edestruct (update_node_Ok (e_v e)) as [s3 [E3 [N3 Q3]]]; [rewrite N2; apply lookup_insert_eq|].
  unfold set_previous. rewrite (bind_Ok _ _ _ _ _ E3).
  destruct (style_active_out_Ok (e_v e) s3) as [s4 [E4 [N4 Q4]]].
  rewrite (bind_Ok _ _ _ _ _ E4). exists s4. split; [reflexivity|]. split.
  - rewrite N4, N3, N2, N1, insert_insert_eq. reflexivity.
  - eauto using quiet_trans.
Qed.

(** ** What the search leaves alone *)

(** An observation of the state that the primitives the search uses leave
    alone is left alone by the whole search. *)
Section Untouched.

Context {B : Type} (obs : St -> B).
Hypothesis Hget : forall n, keeps obs (get_node n).
Hypothesis Hupd : forall n f, keeps obs (update_node n f).
Hypothesis Hstyle : forall k x, keeps obs (set_edge_style g k x).
Hypothesis Hstage : forall x, keeps obs (set_stage x).
Hypothesis Hframe : forall step, keeps obs (save_frame step).
Hypothesis Hreset : forall s, obs (set_nattr (reset_attr <$> nattr s) s) = obs s.

Lemma keeps_relax_edges u es pq : keeps obs (relax_edges u es pq).
Proof.
  revert pq. induction es as [|e es IH]; intros pq; simpl; [apply keeps_ret|].
  apply keeps_bind; [|done]. unfold relax_edge, set_distance, set_previous, style_active_out.
  keeps_solve.
Qed.

Lemma keeps_search fuel orig dest anim : keeps obs (dijkstra fuel orig dest anim).
Proof.
  unfold dijkstra, dijkstra_init, reset_nodes, set_distance.
  apply keeps_bind; [keeps_solve; by apply keeps_modify|intros pq].
  generalize 0. revert pq. induction fuel as [|f IH]; intros pq step; [by intros ???|]. simpl.
  apply keeps_bind; [|intros [[pq' step']|n]; [apply IH|apply keeps_ret]].
  unfold dijkstra_body, mark_visited. keeps_solve. apply keeps_relax_edges.
Qed.

End Untouched.

(** The search prints nothing. *)
Lemma keeps_dijkstra fuel orig dest anim : keeps printed (dijkstra fuel orig dest anim).
Proof. apply keeps_search; auto with keeps. Qed.

(** The search neither adds nor removes a node's dictionary. *)
Lemma keeps_nodes_dijkstra fuel orig dest anim : keeps nodes_of (dijkstra fuel orig dest anim).
Proof. apply keeps_search; auto with keeps. intros s. apply dom_fmap_L. Qed.

End Dijkstra.

(** ** The invariant of the search *)

Section Correctness.

Context {F : Type} `{FL : FrontierLaws F}.
Variables (g : Graph) (orig dest : node).
Hypothesis Hg : wf_graph g.
Hypothesis Hw : nonneg_weights g.

(** The search's invariant on the node dictionaries [m] and the frontier
    [pq], while the edges [todo] of the node being finalized are still to
    be relaxed:
    - the dictionaries are those of the graph's nodes;
    - the origin is at distance 0 and the destination not finalized;
    - every finite distance is the length of a path from the origin;
    - finalized nodes are at a distance no path beats, and finite;
    - every edge out of a finalized node, but those in [todo], is relaxed;
    - every reached, unfinalized node is queued at its distance;
    - every queued entry is finite, a node of the graph, and no less than
      that node's distance (stale entries are larger);
    - a node's [previous] is finalized and joined to it by an edge whose
      weight accounts exactly for the node's distance; the origin is the
      only reached node without [previous]. *)
Record dinv (todo : list Edge) (m : gmap node NodeAttr) (pq : F) : Prop := {
  inv_wf : wf_nodes g m;
  inv_orig : dist_of m orig = Fin 0;
  inv_dest : vis_of m dest = false;
  inv_reach : forall n d, dist_of m n = Fin d -> exists es, walk g orig es n /\ pweight es == d;
  inv_final : forall n es, vis_of m n = true -> walk g orig es n ->
                dist_le (dist_of m n) (Fin (pweight es));
  inv_vis_fin : forall n, vis_of m n = true -> exists d, dist_of m n = Fin d;
  inv_relaxed : forall v e, vis_of m v = true -> e ∈ out_edges g v -> e ∉ todo ->
                  dist_le (dist_of m (e_v e)) (dist_add (dist_of m v) (e_weight e));
  inv_queued : forall n d, vis_of m n = false -> dist_of m n = Fin d ->
                 exists d', (Fin d', n) ∈ fr_elems pq /\ d' == d;
  inv_lb : forall x n, (x, n) ∈ fr_elems pq ->
             dist_le (dist_of m n) x /\ x <> Inf /\ n ∈ g_nodes g;
  inv_prev : forall n p, prev_of m n = Some p ->
               vis_of m p = true /\ exists e, e ∈ out_edges g p /\ e_v e = n /\
               dist_of m n = dist_add (dist_of m p) (e_weight e);
  inv_noprev : forall n, prev_of m n = None -> dist_of m n <> Inf -> n = orig;
  inv_orig_prev : prev_of m orig = None
}.

Lemma dist_le_Fin_eq a x y : dist_le a (Fin x) -> x == y -> dist_le a (Fin y).
Proof. destruct a; simpl; [lra|done]. Qed.

Lemma dinv_dist_nonneg todo m pq n d : dinv todo m pq -> dist_of m n = Fin d -> (0 <= d)%Q.
Proof.
  intros Hi Hn. destruct (inv_reach _ _ _ Hi n d Hn) as [es [Hes Hpw]].
  pose proof (pweight_nonneg g _ _ _ Hw Hes). lra.
Qed.

Lemma popped_in pq x u pq1 : heappop pq = Some ((x, u), pq1) -> (x, u) ∈ fr_elems pq.
Proof.
  intros Hp. destruct (fr_pop_Some _ _ _ Hp) as [Hperm _]. rewrite Hperm. left.
Qed.

Lemma popped_other pq e pq1 e' : heappop pq = Some (e, pq1) -> e' ∈ fr_elems pq -> e' <> e ->
  e' ∈ fr_elems pq1.
Proof.
  intros Hp Hin Hne. destruct (fr_pop_Some _ _ _ Hp) as [Hperm _].
  rewrite Hperm in Hin. apply elem_of_cons in Hin as [->|Hin]; [done|done].
Qed.

(** Along any path from a node at distance at most [c] to a node not yet
    finalized there is an unfinalized node at a finite distance at most
    [c] plus the path's length: the path leaves the finalized set there. *)
Lemma frontier_bound m pq a es t c :
  dinv [] m pq -> walk g a es t -> vis_of m t = false -> dist_le (dist_of m a) (Fin c) ->
  exists y dy, vis_of m y = false /\ dist_of m y = Fin dy /\ (dy <= c + pweight es)%Q.
Proof.
  intros Hi Hwalk. revert c. induction Hwalk as [u|e es v He Hwalk IH]; intros c Ht Ha.
  - destruct (dist_of m u) as [du|] eqn:Eu; [|done]. exists u, du. simpl in *. split_and!; auto. lra.
  - destruct (vis_of m (e_u e)) eqn:Ev.
    + destruct (IH (c + e_weight e)%Q Ht) as [y [dy [Hy1 [Hy2 Hy3]]]].
      * eapply dist_le_trans; [apply (inv_relaxed _ _ _ Hi (e_u e) e Ev); [by apply out_edges_spec|set_solver]|].
        by apply (dist_le_add_mono _ (Fin c)).
      * exists y, dy. split_and!; auto. simpl. lra.
    + destruct (dist_of m (e_u e)) as [du|] eqn:Eu; [|done].
      exists (e_u e), du. split_and!; auto.
      pose proof (pweight_nonneg g _ _ _ Hw (walk_cons g e es v He Hwalk)). simpl in *. lra.
Qed.

(** The entry [heappop] returns is for an unfinalized node at its shortest
    distance: no path from the origin is shorter. *)
Lemma popped_min m pq x u pq1 v es :
  dinv [] m pq -> heappop pq = Some ((x, u), pq1) -> vis_of m v = false ->
  walk g orig es v -> dist_le (dist_of m u) (Fin (pweight es)).
Proof.
  intros Hi Hp Hv Hes.
  destruct (frontier_bound m pq orig es v 0 Hi Hes Hv) as [y [dy [Hy1 [Hy2 Hy3]]]].
  { rewrite (inv_orig _ _ _ Hi). apply dist_le_refl. }
  destruct (inv_queued _ _ _ Hi y dy Hy1 Hy2) as [d' [Hin Hd']].
  destruct (fr_pop_Some _ _ _ Hp) as [_ Hmin].
  pose proof (entry_le_dist _ _ (Hmin _ Hin)) as Hx. simpl in Hx.
  destruct (inv_lb _ _ _ Hi x u (popped_in _ _ _ _ Hp)) as [Hu' _].
  eapply dist_le_trans; [exact Hu'|]. eapply dist_le_trans; [exact Hx|]. simpl. lra.
Qed.

Lemma popped_fin m pq x u pq1 :
  dinv [] m pq -> heappop pq = Some ((x, u), pq1) ->
  (exists d, dist_of m u = Fin d) /\ u ∈ g_nodes g.
Proof.
  intros Hi Hp. destruct (inv_lb _ _ _ Hi x u (popped_in _ _ _ _ Hp)) as [Hle [Hx Hn]].
  split; [|done]. destruct (dist_of m u), x; try done; eauto.
Qed.

(** A finalized node, or the destination when it is popped, is at its
    shortest distance. *)
Lemma dinv_shortest todo m pq n d :
  dinv todo m pq -> dist_of m n = Fin d ->
  (forall es, walk g orig es n -> dist_le (dist_of m n) (Fin (pweight es))) ->
  shortest g orig n d.
Proof.
  intros Hi Hd Hmin. split; [by eapply inv_reach|].
  intros es Hes. specialize (Hmin es Hes). by rewrite Hd in Hmin.
Qed.

Lemma dinv_visited_shortest todo m pq n :
  dinv todo m pq -> vis_of m n = true -> exists d, dist_of m n = Fin d /\ shortest g orig n d.
Proof.
  intros Hi Hn. destruct (inv_vis_fin _ _ _ Hi n Hn) as [d Hd].
  exists d. split; [done|]. eapply dinv_shortest; eauto. intros. by apply (inv_final _ _ _ Hi).
Qed.

(** When the frontier is empty the destination cannot be reached. *)
Lemma dinv_exhausted m pq es :
  dinv [] m pq -> heappop pq = None -> ~ walk g orig es dest.
Proof.
  intros Hi Hp Hes. apply fr_pop_None in Hp.
  destruct (frontier_bound m pq orig es dest 0 Hi Hes (inv_dest _ _ _ Hi)) as [y [dy [Hy1 [Hy2 _]]]].
  { rewrite (inv_orig _ _ _ Hi). apply dist_le_refl. }
  destruct (inv_queued _ _ _ Hi y dy Hy1 Hy2) as [d' [Hin _]]. rewrite Hp in Hin. set_solver.
Qed.

(** A stale entry, for a node already finalized, is dropped harmlessly. *)
Lemma dinv_stale m pq x u pq1 :
  dinv [] m pq -> heappop pq = Some ((x, u), pq1) -> vis_of m u = true -> dinv [] m pq1.
Proof.
  intros Hi Hp Hu. destruct Hi. split; auto.
  - intros n d Hn Hd. destruct (inv_queued0 n d Hn Hd) as [d' [Hin Hd']].
    exists d'. split; [|done]. eapply popped_other; [exact Hp|exact Hin|]. congruence.
  - intros y n Hin. apply inv_lb0. destruct (fr_pop_Some _ _ _ Hp) as [Hperm _].
    rewrite Hperm. by right.
Qed.

Lemma dist_not_le a b : ~ dist_le a b -> dist_le b a.
Proof. intros Hn. destruct (dist_le_total a b); tauto. Qed.

Lemma vis_of_relax m n u nd an k :
  m !! n = Some an -> vis_of (<[n := relax_attr u nd an]> m) k = vis_of m k.
Proof.
  intros Hn. rewrite vis_of_insert. case_decide; [subst; by rewrite (vis_of_Some _ _ _ Hn)|done].
Qed.

(** Relaxing an edge that does not improve its target changes nothing but
    the edge's membership in [todo]. *)
Lemma dinv_relax_keep u e todo m pq an :
  dinv (e :: todo) m pq -> e ∈ out_edges g u -> m !! e_v e = Some an ->
  dist_le (distance an) (dist_add (dist_of m u) (e_weight e)) ->
  dinv todo m pq.
Proof.
  intros Hi Heu Han Hle. pose proof Heu as [_ Hu]%out_edges_spec.
  rewrite <- (dist_of_Some _ _ _ Han) in Hle.
  destruct Hi. split; auto.
  intros v e' Hv He' Hnot. destruct (decide (e' = e)) as [->|Hne].
  - apply out_edges_spec in He' as [_ Hv']. subst. done.
  - apply inv_relaxed0; [done|done|]. set_solver.
Qed.

(** An edge only improves a target that is not finalized. *)
Lemma improve_target_unvisited u e todo m pq an :
  dinv todo m pq -> e ∈ out_edges g u -> m !! e_v e = Some an ->
  ~ dist_le (distance an) (dist_add (dist_of m u) (e_weight e)) ->
  vis_of m (e_v e) = false.
Proof.
  intros Hi Heu Han Hnot. pose proof Heu as [He Hu]%out_edges_spec.
  destruct (vis_of m (e_v e)) eqn:Ev; [|done]. exfalso. apply Hnot.
  destruct (dist_of m u) as [du|] eqn:Edu; [|by destruct (distance an)].
  destruct (inv_reach _ _ _ Hi u du Edu) as [es [Hes Hpw]].
  rewrite <- (dist_of_Some _ _ _ Han).
  eapply dist_le_Fin_eq; [apply (inv_final _ _ _ Hi _ (es ++ [e]) Ev)|].
  - apply walk_snoc; [by rewrite Hu|done].
  - pose proof (pweight_app es [e]). simpl in *. lra.
Qed.

(** Relaxing an edge that improves its target keeps the invariant: the
    target is not finalized, not the origin, and it is queued at its new
    distance. *)
Lemma dinv_relax_improve u e todo m pq an :
  dinv (e :: todo) m pq -> e ∈ out_edges g u -> vis_of m u = true -> m !! e_v e = Some an ->
  ~ dist_le (distance an) (dist_add (dist_of m u) (e_weight e)) ->
  dinv todo (<[e_v e := relax_attr u (dist_add (dist_of m u) (e_weight e)) an]> m)
            (heappush (dist_add (dist_of m u) (e_weight e), e_v e) pq).
Proof.
  intros Hi Heu Hvu Han Hnot. pose proof Heu as [He Hu]%out_edges_spec.
  assert (Hdn : dist_of m (e_v e) = distance an) by (by apply dist_of_Some).
  destruct (dist_of m u) as [du|] eqn:Edu; [|by destruct Hnot; apply dist_le_Inf].
  simpl in *. set (q := (du + e_weight e)%Q) in *.
  destruct (inv_reach _ _ _ Hi u du Edu) as [es [Hes Hpw]].
  assert (Hwalk : walk g orig (es ++ [e]) (e_v e)) by (apply walk_snoc; [by rewrite Hu|done]).
  assert (Hpw' : pweight (es ++ [e]) == q).
  { pose proof (pweight_app es [e]). simpl in *. unfold q. lra. }
  assert (Hvis : vis_of m (e_v e) = false).
  { eapply improve_target_unvisited; [exact Hi|exact Heu|exact Han|]. by rewrite Edu. }
  assert (Hq0 : (0 <= q)%Q).
  { pose proof (dinv_dist_nonneg _ _ _ _ _ Hi Edu). pose proof (Hw e He). unfold q. lra. }
  assert (Hlt : dist_le (Fin q) (dist_of m (e_v e))) by (rewrite Hdn; by apply dist_not_le).
  assert (Hno : e_v e <> orig).
  { intros Heq. apply Hnot. rewrite <- Hdn, Heq, (inv_orig _ _ _ Hi). simpl. lra. }
  assert (Hun : u <> e_v e).
  { intros Heq. rewrite Heq in Hvu. congruence. }
  destruct Hi. split.
  - apply wf_nodes_insert; [done|eauto].
  - rewrite dist_of_insert. by case_decide.
  - by rewrite vis_of_relax.
  - intros n d. rewrite dist_of_insert. case_decide as Hn; [subst|by apply inv_reach0].
    intros Hd. invc Hd. eauto.
  - intros n es'. rewrite vis_of_relax, dist_of_insert by done. intros Hv.
    case_decide; [subst; congruence|]. by apply inv_final0.
  - intros n. rewrite vis_of_relax, dist_of_insert by done. intros Hv.
    case_decide; [subst; congruence|]. by apply inv_vis_fin0.
  - intros v e' Hv He' Hnot'. rewrite vis_of_relax in Hv by done.
    rewrite !dist_of_insert. destruct (decide (e_v e = v)) as [Hev|Hv']; [subst v; congruence|].
    destruct (decide (e' = e)) as [->|Hne].
    + apply out_edges_spec in He' as [_ Hvu']. subst v. rewrite decide_True by done.
      rewrite Hu, Edu. apply Qle_refl.
    + pose proof (inv_relaxed0 v e' Hv He' ltac:(set_solver)) as Hold.
      case_decide as Ht; [|done]. cbn [distance relax_attr]. eapply dist_le_trans; [exact Hlt|]. by rewrite Ht.
  - intros n d. rewrite vis_of_relax, dist_of_insert by done. intros Hv.
    case_decide as Hn.
    + subst. intros Hd. invc Hd. exists q. split; [|reflexivity].
      rewrite fr_push_elems. left.
    + intros Hd. destruct (inv_queued0 n d Hv Hd) as [d' [Hin Hd']].
      exists d'. split; [|done]. rewrite fr_push_elems. by right.
  - intros x n Hin. rewrite fr_push_elems in Hin. rewrite dist_of_insert.
    apply elem_of_cons in Hin as [Heq|Hin].
    + invc Heq. rewrite decide_True by done. split_and!; [apply Qle_refl|done|].
      by apply (wf_edge_dst _ Hg).
    + destruct (inv_lb0 x n Hin) as [Hle [Hx Hn]]. split_and!; [|done|done].
      case_decide; [subst; by eapply dist_le_trans|done].
  - intros n p. rewrite prev_of_insert. case_decide as Hn.
    + subst n. intros Hp. invc Hp. rewrite vis_of_relax by done. split; [done|].
      exists e. split_and!; [done|done|]. rewrite !dist_of_insert, decide_True by done.
      rewrite decide_False by done. rewrite Edu. reflexivity.
    + intros Hnp. destruct (inv_prev0 n p Hnp) as [Hvp [e' [He' [Hen Hdn2]]]].
      rewrite vis_of_relax by done. split; [done|]. exists e'. split_and!; [done|done|].
      rewrite !dist_of_insert, decide_False by done.
      rewrite decide_False; [done|]. intros Hep. rewrite <- Hep in Hvp. congruence.
  - intros n. rewrite prev_of_insert, dist_of_insert. case_decide; [done|apply inv_noprev0].
  - rewrite prev_of_insert, decide_False by done. done.
Qed.

Lemma prev_of_visit m u a k :
  m !! u = Some a -> prev_of (<[u := visit_attr a]> m) k = prev_of m k.
Proof.
  intros Hu. rewrite prev_of_insert. case_decide; [subst; unfold prev_of; by rewrite Hu|done].
Qed.

(** Finalizing the popped node keeps the invariant, with its out-edges
    still to relax. *)
Lemma dinv_mark m pq x u pq1 au :
  dinv [] m pq -> heappop pq = Some ((x, u), pq1) -> u <> dest ->
  m !! u = Some au -> visited au = false ->
  dinv (out_edges g u) (<[u := visit_attr au]> m) pq1.
Proof.
  intros Hi Hp Hud Hu Hvu.
  assert (Hd : forall k, dist_of (<[u := visit_attr au]> m) k = dist_of m k).
  { intros k. rewrite dist_of_insert. case_decide; [subst; by rewrite (dist_of_Some _ _ _ Hu)|done]. }
  assert (Hv0 : vis_of m u = false) by (by rewrite (vis_of_Some _ _ _ Hu)).
  pose proof (popped_min m pq x u pq1) as Hmin. pose proof (popped_fin m pq x u pq1 Hi Hp) as [Hfin _].
  destruct (fr_pop_Some _ _ _ Hp) as [Hperm _].
  destruct Hi as [Hwf Ho Hde Hr Hf Hvf Hrel Hq Hlb Hpr Hnpr Hop]. split.
  - apply wf_nodes_insert; [done|eauto].
  - by rewrite Hd.
  - rewrite vis_of_insert. by case_decide.
  - intros n d. rewrite Hd. apply Hr.
  - intros n es. rewrite vis_of_insert, Hd. case_decide; [subst|by apply Hf].
    intros _ Hes. eapply Hmin; [by split|done|done|done].
  - intros n. rewrite vis_of_insert, Hd. case_decide; [subst; done|by apply Hvf].
  - intros v e. rewrite vis_of_insert, !Hd. case_decide; [subst; tauto|].
    intros Hv He _. apply Hrel; [done|done|set_solver].
  - intros n d. rewrite vis_of_insert, Hd. case_decide; [done|]. intros Hn Hdn.
    destruct (Hq n d Hn Hdn) as [d' [Hin Hd']]. exists d'. split; [|done].
    eapply popped_other; [exact Hp|exact Hin|]. congruence.
  - intros y n Hin. rewrite Hd. apply Hlb. rewrite Hperm. by right.
  - intros n p. rewrite (prev_of_visit _ _ _ _ Hu), vis_of_insert, !Hd. intros Hnp.
    destruct (Hpr n p Hnp) as [Hvp He]. split; [by case_decide|done].
  - intros n. rewrite (prev_of_visit _ _ _ _ Hu), Hd. apply Hnpr.
  - by rewrite (prev_of_visit _ _ _ _ Hu).
Qed.

(** The loop over the out-edges of a finalized node runs to its end,
    restores the invariant with nothing left to relax, finalizes nothing
    and pushes at most one entry per edge. *)
Lemma relax_edges_inv u todo pq s :
  dinv todo (nattr s) pq -> vis_of (nattr s) u = true ->
  (forall e, e ∈ todo -> e ∈ out_edges g u) ->
  exists pq' s', relax_edges g u todo pq s = Ok pq' s' /\ dinv [] (nattr s') pq' /\
    (forall n, vis_of (nattr s') n = vis_of (nattr s) n) /\
    (forall n, vis_of (nattr s) n = true -> dist_of (nattr s') n = dist_of (nattr s) n) /\
    quiet s s' /\ length (fr_elems pq') <= length (fr_elems pq) + length todo.
Proof.
  revert pq s. induction todo as [|e todo IH]; intros pq s Hi Hu Htodo.
  - exists pq, s. simpl. split_and!; auto with pf. lia.
  - assert (Heu : e ∈ out_edges g u) by (apply Htodo; left).
    pose proof Heu as [He Heu']%out_edges_spec.
    destruct (vis_of_true _ _ Hu) as [au [Hau _]].
    destruct (wf_nodes_in g (nattr s) (e_v e)) as [an Han];
      [exact (inv_wf _ _ _ Hi)|by apply (wf_edge_dst _ Hg)|].
    destruct (relax_edge_effect g u e pq s au an He Hau Han) as [s1 [E1 [N1 Q1]]].
    cbn [relax_edges]. rewrite (bind_Ok _ _ _ _ _ E1).
    rewrite <- (dist_of_Some _ _ _ Hau) in *.
    destruct (dist_gtb (distance an) _) eqn:Eg.
    + apply dist_gtb_true in Eg.
      pose proof (dinv_relax_improve u e todo (nattr s) pq an Hi Heu Hu Han Eg) as Hi1.
      rewrite <- N1 in Hi1.
      assert (Hvis : forall n, vis_of (nattr s1) n = vis_of (nattr s) n)
        by (intros n; rewrite N1; by apply vis_of_relax).
      pose proof (improve_target_unvisited _ _ _ _ _ _ Hi Heu Han Eg) as Hnb.
      destruct (IH _ s1 Hi1) as [pq' [s' [E [Hi' [Hv' [Hd' [Q' Hl]]]]]]];
        [by rewrite Hvis|intros; apply Htodo; by right|].
      exists pq', s'. split_and!; [done|done| | |eauto using quiet_trans|].
      * intros n. by rewrite Hv', Hvis.
      * intros n Hn. rewrite Hd' by (by rewrite Hvis). rewrite N1, dist_of_insert.
        case_decide; [subst; congruence|done].
      * rewrite fr_push_elems in Hl. simpl in *. lia.
    + apply dist_gtb_false in Eg.
      pose proof (dinv_relax_keep u e todo (nattr s) pq an Hi Heu Han Eg) as Hi1.
      rewrite <- N1 in Hi1.
      destruct (IH _ s1 Hi1) as [pq' [s' [E [Hi' [Hv' [Hd' [Q' Hl]]]]]]];
        [by rewrite N1|intros; apply Htodo; by right|].
      exists pq', s'. split_and!; [done|done| | |eauto using quiet_trans|].
      * intros n. by rewrite Hv', N1.
      * intros n Hn. rewrite Hd' by (by rewrite N1). by rewrite N1.
      * simpl. lia.
Qed.

(** ** Counting: the termination measure and the step counter *)

(** The out-edges still to be relaxed by nodes not yet finalized. *)
Definition pending (m : gmap node NodeAttr) : nat :=
  sum_list_with (fun n => if vis_of m n then 0 else length (out_edges g n)) (g_nodes g).

(** The number of finalized nodes. *)
Definition count_visited (m : gmap node NodeAttr) : nat :=
  sum_list_with (fun n => if vis_of m n then 1 else 0) (g_nodes g).

(** Entries queued plus edges still to relax: every iteration lowers it. *)
Definition measure (m : gmap node NodeAttr) (pq : F) : nat := length (fr_elems pq) + pending m.

Lemma pending_ext m m' : (forall n, vis_of m' n = vis_of m n) -> pending m' = pending m.
Proof. intros Hv. apply sum_list_with_ext. intros y _. by rewrite Hv. Qed.

Lemma count_visited_ext m m' : (forall n, vis_of m' n = vis_of m n) -> count_visited m' = count_visited m.
Proof. intros Hv. apply sum_list_with_ext. intros y _. by rewrite Hv. Qed.

Lemma vis_of_visit m u a k :
  vis_of (<[u := visit_attr a]> m) k = if decide (u = k) then true else vis_of m k.
Proof. by rewrite vis_of_insert. Qed.

Lemma pending_mark m u a :
  u ∈ g_nodes g -> vis_of m u = false ->
  pending (<[u := visit_attr a]> m) + length (out_edges g u) = pending m.
Proof.
  intros Hu Hv. unfold pending.
  pose proof (sum_list_with_point (fun n => if vis_of m n then 0 else length (out_edges g n))
    (fun n => if vis_of (<[u := visit_attr a]> m) n then 0 else length (out_edges g n))
    (g_nodes g) u (wf_nodes_nodup _ Hg) Hu) as E.
  cbv beta in E. rewrite Hv, vis_of_visit, decide_True in E by done.
  lapply E; [intros; lia|]. intros y Hy. rewrite vis_of_visit. by case_decide.
Qed.

Lemma count_visited_mark m u a :
  u ∈ g_nodes g -> vis_of m u = false ->
  count_visited (<[u := visit_attr a]> m) = S (count_visited m).
Proof.
  intros Hu Hv. unfold count_visited.
  pose proof (sum_list_with_point (fun n => if vis_of m n then 1 else 0)
    (fun n => if vis_of (<[u := visit_attr a]> m) n then 1 else 0)
    (g_nodes g) u (wf_nodes_nodup _ Hg) Hu) as E.
  cbv beta in E. rewrite Hv, vis_of_visit, decide_True in E by done.
  lapply E; [intros; lia|]. intros y Hy. rewrite vis_of_visit. by case_decide.
Qed.

Lemma out_degree_sum (l : list node) es :
  NoDup l -> sum_list_with (fun n => length (filter (fun e => e_u e = n) es)) l <= length es.
Proof.
  intros Hnd. induction es as [|e es IH].
  - rewrite (sum_list_with_ext (fun _ => 0)); [by rewrite sum_list_with_zero|done].
  - rewrite (sum_list_with_ext (fun n => (if decide (e_u e = n) then 1 else 0) +
                                         length (filter (fun e => e_u e = n) es))).
    + rewrite sum_list_with_plus. pose proof (sum_list_with_indicator l (e_u e) Hnd). simpl. lia.
    + intros n _. rewrite filter_cons. case_decide; simpl; lia.
Qed.

Lemma pending_le m : pending m <= length (g_edges g).
Proof.
  etransitivity; [|apply (out_degree_sum (g_nodes g) (g_edges g) (wf_nodes_nodup _ Hg))].
  apply sum_list_with_le. intros n. unfold out_edges. destruct (vis_of m n); lia.
Qed.

Lemma dinv_pred_tree todo m pq : dinv todo m pq -> pred_tree g orig m.
Proof.
  intros Hi. split_and!; [apply Hi|apply Hi|apply Hi|]. intros n p Hnp.
  destruct (inv_prev _ _ _ Hi n p Hnp) as [Hvp He]. split; [|done].
  destruct (inv_vis_fin _ _ _ Hi p Hvp) as [d ->]. done.
Qed.

(** ** One iteration, and the loop *)

(** What the search guarantees when it returns [n] in state [s]: the node
    dictionaries are still those of the graph's nodes, [n] nodes
    were finalized, each at its shortest distance, and either the
    destination was reached ([stage] is [Found]) at its shortest distance,
    or the frontier ran out ([stage] is still [Finding]) and no path leads
    from the origin to the destination. *)
Definition dpost (s : St) (n : nat) : Prop :=
  wf_state g s /\
  count_visited (nattr s) = n /\
  (forall v, vis_at s v = true -> exists d, dist_at s v = Fin d /\ shortest g orig v d) /\
  pred_tree g orig (nattr s) /\
  ((stage s = Found /\ (exists d, dist_at s dest = Fin d /\ shortest g orig dest d) /\
    (forall v es, vis_at s v = false -> walk g orig es v -> dist_le (dist_at s dest) (Fin (pweight es)))) \/
   (stage s = Finding /\ forall es, ~ walk g orig es dest)).

Lemma anim_frame_Ok (b : bool) step s :
  exists s', (if b then save_frame step else ret tt) s = Ok tt s' /\
    nattr s' = nattr s /\ stage s' = stage s.
Proof.
  destruct b; [|by eexists].
  destruct (save_frame_Ok step s) as (s' & E & N & _ & T & _). eauto.
Qed.

Lemma found_frames_Ok (b : bool) step s :
  exists s', (if b then repeat_m 22 (save_frame step) else save_frame step) s = Ok tt s' /\
    nattr s' = nattr s /\ stage s' = stage s.
Proof.
  destruct b.
  - apply (repeat_m_Ok (fun s0 => nattr s0 = nattr s /\ stage s0 = stage s)); [done|].
    intros s0 [N T]. destruct (save_frame_Ok step s0) as (s1 & E & N1 & _ & T1 & _).
    exists s1. split; [done|]. split; congruence.
  - destruct (save_frame_Ok step s) as (s' & E & N & _ & T & _). eauto.
Qed.

Lemma body_step anim pq step s :
  dinv [] (nattr s) pq -> stage s = Finding -> count_visited (nattr s) = step ->
  exists r s', dijkstra_body g dest anim pq step s = Ok r s' /\
    match r with
    | inl (pq', step') => dinv [] (nattr s') pq' /\ stage s' = Finding /\
        count_visited (nattr s') = step' /\ measure (nattr s') pq' < measure (nattr s) pq /\
        (forall v, vis_of (nattr s) v = true ->
           vis_of (nattr s') v = true /\ dist_of (nattr s') v = dist_of (nattr s) v)
    | inr n => dpost s' n
    end.
Proof.
  intros Hi Hst Hc. unfold dijkstra_body.
  destruct (heappop pq) as [[[x u] pq1]|] eqn:Hp.
  2:{ exists (inr step), s. split; [done|]. split_and!; [by eapply inv_wf|done| |by eapply dinv_pred_tree|].
      - intros v Hv. eapply dinv_visited_shortest; eauto.
      - right. split; [done|]. intros es. eapply dinv_exhausted; eauto. }
  destruct (fr_pop_Some _ _ _ Hp) as [Hperm _]. pose proof (Permutation_length Hperm) as Hlen.
  destruct (decide (u = dest)) as [->|Hud].
  - destruct (found_frames_Ok anim step (set_stage_st Found s)) as (s2 & E2 & N2 & T2).
    exists (inr step), s2.
    rewrite (bind_Ok _ _ _ _ _ (eq_refl : set_stage Found s = Ok tt (set_stage_st Found s))).
    rewrite (bind_Ok _ _ _ _ _ E2). split; [done|].
    unfold dpost, wf_state, vis_at, dist_at. rewrite N2. simpl in T2.
    split_and!; [by eapply inv_wf|done| |by eapply dinv_pred_tree|].
    + intros v Hv. eapply dinv_visited_shortest; eauto.
    + left. split_and!; [done| |intros v es Hv Hes; eapply popped_min; eauto].
      destruct (popped_fin _ _ _ _ _ Hi Hp) as [[d Hd] _]. exists d. split; [done|].
      eapply dinv_shortest; [exact Hi|exact Hd|]. intros es Hes.
      eapply popped_min; eauto using inv_dest.
  - destruct (popped_fin _ _ _ _ _ Hi Hp) as [_ Hun].
    destruct (wf_nodes_in g (nattr s) u (inv_wf _ _ _ Hi) Hun) as [au Hau].
    rewrite (bind_Ok _ _ _ _ _ (get_node_Some u au s Hau)).
    destruct (visited au) eqn:Hv.
    + exists (inl (pq1, step)), s. split; [done|]. split_and!; [|done|done| |done].
      * eapply dinv_stale; [exact Hi|exact Hp|]. by rewrite (vis_of_Some _ _ _ Hau).
      * unfold measure. simpl in Hlen. lia.
    + assert (Hv0 : vis_of (nattr s) u = false) by (by rewrite (vis_of_Some _ _ _ Hau)).
      destruct (update_node_Ok u visit_attr au s Hau) as (s1 & E1 & N1 & Q1).
      unfold mark_visited. rewrite (bind_Ok _ _ _ _ _ E1).
      pose proof (dinv_mark _ _ _ _ _ _ Hi Hp Hud Hau Hv) as Hi1. rewrite <- N1 in Hi1.
      destruct (relax_edges_inv u (out_edges g u) pq1 s1 Hi1) as (pq2 & s2 & E2 & Hi2 & Hv2 & Hd2 & Q2 & Hl2);
        [rewrite N1, vis_of_visit; by case_decide|done|].
      rewrite (bind_Ok _ _ _ _ _ E2).
      destruct (anim_frame_Ok anim step s2) as (s3 & E3 & N3 & T3).
      rewrite (bind_Ok _ _ _ _ _ E3).
      exists (inl (pq2, S step)), s3. split; [done|].
      destruct Q1 as [T1 _], Q2 as [T2 _].
      assert (Hp3 : pending (nattr s3) = pending (nattr s1)) by (rewrite N3; by apply pending_ext).
      assert (Hc3 : count_visited (nattr s3) = count_visited (nattr s1))
        by (rewrite N3; by apply count_visited_ext).
      pose proof (pending_mark (nattr s) u au Hun Hv0) as Hpm.
      pose proof (count_visited_mark (nattr s) u au Hun Hv0) as Hcm.
      rewrite <- N1 in Hpm, Hcm.
      split_and!; [by rewrite N3|congruence|lia| |].
      * unfold measure. simpl in Hlen. lia.
      * intros v Hv'. rewrite N3, Hv2, Hd2, N1, vis_of_visit; [|rewrite N1, vis_of_visit; by case_decide].
        split; [by case_decide|]. rewrite dist_of_insert. case_decide; [subst; congruence|done].
Qed.

Lemma loop_correct fuel anim pq step s :
  dinv [] (nattr s) pq -> stage s = Finding -> count_visited (nattr s) = step ->
  measure (nattr s) pq < fuel ->
  exists n s', dijkstra_loop g fuel dest anim pq step s = Ok n s' /\ dpost s' n.
Proof.
  revert pq step s. induction fuel as [|f IH]; intros pq step s Hi Hst Hc Hm; [lia|].
  destruct (body_step anim pq step s Hi Hst Hc) as (r & s' & E & Hr).
  cbn [dijkstra_loop]. rewrite (bind_Ok _ _ _ _ _ E).
  destruct r as [[pq' step']|n].
  - destruct Hr as (Hi' & Hst' & Hc' & Hm' & _). apply IH; auto. lia.
  - by exists n, s'.
Qed.

(** ** Initialization and the whole search *)

(** An update that keeps the search fields of a node. *)
Definition keeps_fields (f : NodeAttr -> NodeAttr) : Prop :=
  forall a, visited (f a) = visited a /\ distance (f a) = distance a /\ previous (f a) = previous a.

Lemma keeps_fields_insert f m n a k :
  keeps_fields f -> m !! n = Some a ->
  vis_of (<[n := f a]> m) k = vis_of m k /\ dist_of (<[n := f a]> m) k = dist_of m k /\
  prev_of (<[n := f a]> m) k = prev_of m k.
Proof.
  intros Hf Hn. destruct (Hf a) as (V & D & P).
  rewrite vis_of_insert, dist_of_insert, prev_of_insert.
  unfold vis_of, dist_of, prev_of. case_decide; [subst; rewrite Hn|]; done.
Qed.

(** The state right after [dijkstra_init]: nothing finalized, only the
    origin reached (at 0), no [previous], stage [Finding]. *)
Definition init_fields (m : gmap node NodeAttr) : Prop :=
  forall k, vis_of m k = false /\ dist_of m k = (if decide (k = orig) then Fin 0 else Inf) /\
            prev_of m k = None.

Lemma start_end_Ok s n :
  wf_state g s -> n ∈ g_nodes g -> init_fields (nattr s) ->
  exists s', style_start_end n s = Ok tt s' /\ wf_state g s' /\ init_fields (nattr s') /\ quiet s s'.
Proof.
  intros Hwf Hn Hf. destruct (wf_nodes_in g _ n Hwf Hn) as [a Ha].
  edestruct (update_node_Ok n) as (s' & E & N & Q); [exact Ha|].
  exists s'. split; [exact E|]. split_and!; [|intros k|done].
  - unfold wf_state. rewrite N. apply wf_nodes_insert; [done|eauto].
  - rewrite N. destruct (keeps_fields_insert
      (fun a => mkNodeAttr (visited a) (distance a) (previous a) 25 true "#FFFFFF") (nattr s) n a k)
      as (V & D & P); [by intros b|done|]. rewrite V, D, P. apply Hf.
Qed.

(** Lines 129-144 up to the highlighting of the destination. *)
Lemma init_prefix s :
  wf_state g s -> orig ∈ g_nodes g ->
  exists s5, dijkstra_init g orig dest s =
    (style_start_end dest ;;; ret (heappush (Fin 0, orig) fr_empty)) s5 /\
    wf_state g s5 /\ stage s5 = Finding /\ init_fields (nattr s5).
Proof.
  intros Hwf Ho. unfold dijkstra_init.
  rewrite (bind_Ok _ _ _ _ _ (eq_refl : set_stage Finding s = Ok tt (set_stage_st Finding s))).
  set (s1 := set_stage_st Finding s).
  rewrite (bind_Ok _ _ _ _ _ (eq_refl : reset_nodes s1 = Ok tt (set_nattr (reset_attr <$> nattr s1) s1))).
  set (s2 := set_nattr (reset_attr <$> nattr s1) s1).
  destruct (restyle_Ok g unvisited_style (ekey_of <$> g_edges g) s2) as (s3 & E3 & N3 & Q3);
    [apply all_keys|].
  unfold style_all_unvisited, style_unvisited_edge. rewrite (bind_Ok _ _ _ _ _ E3).
  destruct (wf_nodes_in g (nattr s) orig Hwf Ho) as [ao Hao].
  assert (Hwf2 : wf_nodes g (nattr s2)).
  { intros k. simpl. rewrite lookup_fmap, (Hwf k). by destruct (nattr s !! k). }
  edestruct (update_node_Ok orig) as (s4 & E4 & N4 & Q4).
  { rewrite N3. simpl. rewrite lookup_fmap, Hao. reflexivity. }
  unfold set_distance. rewrite (bind_Ok _ _ _ _ _ E4).
  assert (Hwf4 : wf_state g s4).
  { unfold wf_state. rewrite N4, N3. apply wf_nodes_insert; [done|]. simpl. by rewrite lookup_fmap, Hao. }
  assert (Hf4 : init_fields (nattr s4)).
  { intros k. rewrite N4, N3, vis_of_insert, dist_of_insert, prev_of_insert.
    unfold vis_of, dist_of, prev_of. simpl. rewrite lookup_fmap.
    case_decide as Hk; [subst; rewrite decide_True by done; done|].
    rewrite decide_False by congruence. by destruct (nattr s !! k). }
  destruct (start_end_Ok s4 orig Hwf4 Ho Hf4) as (s5 & E5 & Hwf5 & Hf5 & Q5).
  rewrite (bind_Ok _ _ _ _ _ E5). exists s5. split_and!; [done|done| |done].
  destruct Q3 as [T3 _], Q4 as [T4 _], Q5 as [T5 _]. simpl in *. congruence.
Qed.

Lemma init_effect s :
  wf_state g s -> orig ∈ g_nodes g -> dest ∈ g_nodes g ->
  exists s', dijkstra_init g orig dest s = Ok (heappush (Fin 0, orig) fr_empty) s' /\
    wf_state g s' /\ stage s' = Finding /\ init_fields (nattr s').
Proof.
  intros Hwf Ho Hd. destruct (init_prefix s Hwf Ho) as (s5 & -> & Hwf5 & T5 & Hf5).
  destruct (start_end_Ok s5 dest Hwf5 Hd Hf5) as (s6 & E6 & Hwf6 & Hf6 & [T6 _]).
  rewrite (bind_Ok _ _ _ _ _ E6). exists s6. split_and!; [done|done|congruence|done].
Qed.

Lemma dinv_init m :
  wf_nodes g m -> orig ∈ g_nodes g -> init_fields m ->
  dinv [] m (heappush (Fin 0, orig) fr_empty).
Proof.
  intros Hwf Ho Hf.
  assert (Hel : fr_elems (heappush (Fin 0, orig) fr_empty) ≡ₚ [(Fin 0, orig)])
    by (rewrite fr_push_elems, fr_empty_elems; done).
  split; try done.
  - destruct (Hf orig) as (_ & D & _). by rewrite D, decide_True.
  - apply Hf.
  - intros n d. destruct (Hf n) as (_ & D & _). rewrite D.
    case_decide; [subst|done]. intros Hd. invc Hd. exists []. split; [constructor|reflexivity].
  - intros n es. by rewrite (proj1 (Hf n)).
  - intros n. by rewrite (proj1 (Hf n)).
  - intros v e. by rewrite (proj1 (Hf v)).
  - intros n d _. destruct (Hf n) as (_ & D & _). rewrite D.
    case_decide; [subst|done]. intros Hd. invc Hd. exists 0%Q.
    split; [rewrite Hel; left|reflexivity].
  - intros x n Hin. rewrite Hel in Hin. apply list_elem_of_singleton in Hin. invc Hin.
    destruct (Hf orig) as (_ & D & _). rewrite D, decide_True by done.
    split_and!; [apply dist_le_refl|done|done].
  - intros n p. by rewrite (proj2 (proj2 (Hf n))).
  - intros n _. destruct (Hf n) as (_ & D & _). rewrite D. by case_decide.
  - apply Hf.
Qed.

Lemma count_visited_init m : init_fields m -> count_visited m = 0.
Proof.
  intros Hf. unfold count_visited.
  rewrite (sum_list_with_ext (fun _ => 0)); [apply sum_list_with_zero|].
  intros y _. by rewrite (proj1 (Hf y)).
Qed.

(** Total correctness of [dijkstra]: on a well-formed graph with
    non-negative weights, from any state holding the graph's node
    dictionaries, with [dijkstra_fuel] or more, the search returns without
    exception and establishes [dpost]. *)
Lemma dijkstra_total fuel anim s :
  wf_state g s -> orig ∈ g_nodes g -> dest ∈ g_nodes g -> dijkstra_fuel g <= fuel ->
  exists n s', dijkstra g fuel orig dest anim s = Ok n s' /\ dpost s' n.
Proof.
  intros Hwf Ho Hd Hfuel. destruct (init_effect s Hwf Ho Hd) as (s1 & E1 & Hwf1 & T1 & Hf1).
  unfold dijkstra. rewrite (bind_Ok _ _ _ _ _ E1).
  apply loop_correct; [by apply dinv_init|done|by apply count_visited_init|].
  unfold measure, dijkstra_fuel in *. rewrite fr_push_elems, fr_empty_elems.
  pose proof (pending_le (nattr s1)). simpl. lia.
Qed.

(** ** Properties of the search *)

(** C1: Total correctness of [dijkstra] (lines 127-184): on a well-formed
    graph with non-negative weights, from any state holding the graph's
    node dictionaries, with [dijkstra_fuel] iterations the search returns
    without exception and the dictionaries are still the nodes'; the returned step count is the number of finalized
    nodes; every finalized node is at its shortest distance from the
    origin; the [previous] links form a tree of shortest-path edges rooted
    at the origin; and either the stage is [Found] and the destination is at its
    shortest distance, or the stage is still [Finding] and no path leads
    from the origin to the destination. *)
Theorem dijkstra_correct fuel anim s :
  wf_state g s -> orig ∈ g_nodes g -> dest ∈ g_nodes g -> dijkstra_fuel g <= fuel ->
  exists n s', dijkstra g fuel orig dest anim s = Ok n s' /\
    wf_state g s' /\ count_visited (nattr s') = n /\
    (forall v, vis_at s' v = true -> exists d, dist_at s' v = Fin d /\ shortest g orig v d) /\
    pred_tree g orig (nattr s') /\
    ((stage s' = Found /\ exists d, dist_at s' dest = Fin d /\ shortest g orig dest d) \/
     (stage s' = Finding /\ forall es, ~ walk g orig es dest)).
Proof.
  intros Hwf Ho Hd Hf. destruct (dijkstra_total fuel anim s Hwf Ho Hd Hf) as (n & s' & E & W & C & V & T & Hend).
  exists n, s'. split_and!; try done. destruct Hend as [(F1 & F2 & _)|F3]; [left|right]; done.
Qed.

(** C9: The search finalizes nodes in order of distance: when it ends
    [Found] with the destination at distance [d], every node that some
    path from the origin reaches with a weight below [d] has been
    finalized ([visited]). *)
Theorem dijkstra_closer_finalized fuel anim s n s' v es d :
  wf_state g s -> orig ∈ g_nodes g -> dest ∈ g_nodes g -> dijkstra_fuel g <= fuel ->
  dijkstra g fuel orig dest anim s = Ok n s' -> stage s' = Found ->
  dist_at s' dest = Fin d -> walk g orig es v -> (pweight es < d)%Q -> vis_at s' v = true.
Proof.
  intros Hwf Ho Hd Hf E Hst Hdd Hes Hlt.
  destruct (dijkstra_total fuel anim s Hwf Ho Hd Hf) as (n0 & s0 & E0 & Hpost). rewrite E0 in E. invc E.
  destruct Hpost as (_ & _ & _ & _ & [(_ & _ & Hcl)|[T _]]); [|congruence].
  destruct (vis_at s' v) eqn:Hv; [done|]. specialize (Hcl v es Hv Hes). rewrite Hdd in Hcl. simpl in Hcl. lra.
Qed.

(** The count [dpost] gives is at most the number of nodes. *)
Lemma dpost_steps_le s n : dpost s n -> n <= length (g_nodes g).
Proof.
  intros (_ & Hc & _). rewrite <- Hc. unfold count_visited.
  apply sum_list_with_bounded. intros y. case_match; lia.
Qed.

(** C16: One iteration of [while pq:] that continues keeps the invariant
    [dinv], counts one step per newly finalized node, lowers the measure
    (queued entries plus edges left to relax), and never touches a node
    already finalized: it stays finalized at the same distance. *)
Theorem dijkstra_iteration anim pq step s pq' step' s' :
  dinv [] (nattr s) pq -> stage s = Finding -> count_visited (nattr s) = step ->
  dijkstra_body g dest anim pq step s = Ok (inl (pq', step')) s' ->
  dinv [] (nattr s') pq' /\ count_visited (nattr s') = step' /\
  measure (nattr s') pq' < measure (nattr s) pq /\
  (forall v, vis_of (nattr s) v = true ->
     vis_of (nattr s') v = true /\ dist_of (nattr s') v = dist_of (nattr s) v).
Proof.
  intros Hi Hst Hc E. destruct (body_step anim pq step s Hi Hst Hc) as (r & s0 & E0 & Hr).
  rewrite E0 in E. invc E. destruct Hr as (? & _ & ? & ? & ?). done.
Qed.

(** C17: A stale entry (its node already finalized) is discarded: the
    iteration changes nothing and does not count a step. *)
Theorem dijkstra_body_stale anim pq step s x u pq1 a :
  heappop pq = Some ((x, u), pq1) -> u <> dest -> nattr s !! u = Some a -> visited a = true ->
  dijkstra_body g dest anim pq step s = Ok (inl (pq1, step)) s.
Proof.
  intros Hp Hud Ha Hv. unfold dijkstra_body. rewrite Hp, decide_False by done.
  rewrite (bind_Ok _ _ _ _ _ (get_node_Some u a s Ha)), Hv. done.
Qed.

(** C18: A destination that is not a node of the graph makes [dijkstra]
    raise [KeyError], but only after every node's search fields have been
    reset and the origin set to 0: the failure is not before mutation. *)
Theorem dijkstra_unknown_dest fuel anim s :
  wf_state g s -> orig ∈ g_nodes g -> dest ∉ g_nodes g ->
  exists s', dijkstra g fuel orig dest anim s = Raise KeyError s' /\
    stage s' = Finding /\ init_fields (nattr s').
Proof.
  intros Hwf Ho Hd. destruct (init_prefix s Hwf Ho) as (s5 & E5 & Hwf5 & T5 & Hf5).
  exists s5. split_and!; [|done|done].
  assert (Hn : nattr s5 !! dest = None).
  { destruct (nattr s5 !! dest) eqn:E; [|done]. exfalso. apply Hd, Hwf5. by eexists. }
  unfold dijkstra. eapply bind_Raise. rewrite E5. eapply bind_Raise.
  unfold style_start_end, update_node. by rewrite Hn.
Qed.

End Correctness.

(** ** The scenario of the specification, and witnesses *)

(** An edge with key 0 whose weight is [length / maxspeed]. *)
Definition road (u v : node) (len : Q) (speed : Z) : Edge :=
  mkEdge u v 0 len speed (len / inject_Z speed).

(** A -> B -> D costs 20 + 20, A -> C -> D costs 50 + 50 (A=1, B=2, C=3, D=4). *)
Definition spec_graph : Graph :=
  mkGraph [1; 2; 3; 4] [road 1 2 1000 50; road 2 4 1000 50; road 1 3 500 10; road 3 4 500 10].

(** Nodes 1 and 2 joined by two routes to 3, so that 3 is queued twice. *)
Definition stale_graph : Graph :=
  mkGraph [1; 2; 3] [road 1 3 500 10; road 1 2 100 10; road 2 3 100 10].

(** The state after [dijkstra(1, 4)] on [spec_graph]. *)
Definition spec_searched_once : St :=
  match dijkstra (F := ListHeap) spec_graph (dijkstra_fuel spec_graph) 1 4 false (blank_state [1; 2; 3; 4]) with
  | Ok _ s => s
  | _ => blank_state []
  end.

Lemma dijkstra_correct_witness :
  exists n s', dijkstra (F := ListHeap) spec_graph (dijkstra_fuel spec_graph) 1 4 false
                 (blank_state [1; 2; 3; 4]) = Ok n s' /\
    wf_state spec_graph s' /\ count_visited spec_graph (nattr s') = n /\
    (forall v, vis_at s' v = true -> exists d, dist_at s' v = Fin d /\ shortest spec_graph 1 v d) /\
    pred_tree spec_graph 1 (nattr s') /\
    ((stage s' = Found /\ exists d, dist_at s' 4 = Fin d /\ shortest spec_graph 1 4 d) \/
     (stage s' = Finding /\ forall es, ~ walk spec_graph 1 es 4)).
Proof. apply dijkstra_correct; solve_graph_hyps. Defined.

Lemma dijkstra_iteration_witness :
  exists s0 pq1 s1,
    dijkstra_init (F := ListHeap) spec_graph 1 4 (blank_state [1; 2; 3; 4]) =
      Ok (heappush (Fin 0, 1) fr_empty) s0 /\
    dijkstra_body spec_graph 4 false (heappush (Fin 0, 1) fr_empty) 0 s0 = Ok (inl (pq1, 1)) s1 /\
    dinv spec_graph 1 4 [] (nattr s1) pq1 /\ count_visited spec_graph (nattr s1) = 1 /\
    measure spec_graph (nattr s1) pq1 < measure spec_graph (nattr s0) (heappush (Fin 0, 1) fr_empty) /\
    (forall v, vis_of (nattr s0) v = true ->
       vis_of (nattr s1) v = true /\ dist_of (nattr s1) v = dist_of (nattr s0) v).
Proof.
  destruct (init_effect (F := ListHeap) spec_graph 1 4 (blank_state [1; 2; 3; 4]))
    as (s0 & E0 & Hwf0 & T0 & Hf0); [solve_graph_hyps..|].
  assert (Eb : exists pq1 s1, dijkstra_body spec_graph 4 false (heappush (Fin 0, 1) fr_empty) 0 s0
                               = Ok (inl (pq1, 1)) s1).
  { vm_compute in E0. injection E0 as <-. eexists _, _. vm_compute. reflexivity. }
  destruct Eb as (pq1 & s1 & Eb). exists s0, pq1, s1. split; [done|]. split; [done|].
  apply (dijkstra_iteration spec_graph 1 4 ltac:(solve_graph_hyps) ltac:(solve_graph_hyps)
    false _ 0 s0 pq1 1 s1); [|done|by apply (count_visited_init spec_graph 1)|done].
  apply dinv_init; [exact Hwf0|set_solver|exact Hf0].
Defined.

Lemma dijkstra_body_stale_witness :
  dijkstra_body stale_graph 2 false (mkListHeap [(Fin 50, 3)]) 1
    (set_nattr (<[3 := visit_attr blank_attr]> (nattr (blank_state [1; 2; 3]))) (blank_state [1; 2; 3]))
  = Ok (inl (mkListHeap [], 1))
    (set_nattr (<[3 := visit_attr blank_attr]> (nattr (blank_state [1; 2; 3]))) (blank_state [1; 2; 3])).
Proof.
  apply (dijkstra_body_stale stale_graph 2 false _ 1 _ (Fin 50) 3 _ (visit_attr blank_attr));
    [reflexivity|lia|vm_compute; reflexivity|reflexivity].
Defined.

Lemma dijkstra_closer_finalized_witness :
  (pweight [road 1 2 1000 50] < 100000 # 2500)%Q /\
  vis_at spec_searched_once 2 = true.
Proof.
  split; [vm_compute; reflexivity|].
  apply (dijkstra_closer_finalized (F := ListHeap) spec_graph 1 4 ltac:(solve_graph_hyps) ltac:(solve_graph_hyps)
    (dijkstra_fuel spec_graph) false (blank_state [1; 2; 3; 4]) 2 spec_searched_once 2 [road 1 2 1000 50]
    (100000 # 2500)); solve_graph_hyps; try (vm_compute; reflexivity).
  refine (walk_cons _ (road 1 2 1000 50) _ _ _ (walk_nil _ _)).
  apply (bool_decide_unpack (_ ∈ _)); vm_compute; exact I.
Defined.

Lemma dijkstra_unknown_dest_witness :
  exists s', dijkstra (F := ListHeap) spec_graph (dijkstra_fuel spec_graph) 1 5 false
               (blank_state [1; 2; 3; 4]) = Raise KeyError s' /\
    stage s' = Finding /\ init_fields 1 (nattr s').
Proof. apply dijkstra_unknown_dest; solve_graph_hyps. Defined.

End Search.
