(* ===== verification/Machine.v ===== *)
(** * Machine: the search as a state machine

    The specification describes [dijkstra] as a state machine whose
    configurations evolve one iteration of [while pq:] at a time (lines
    148-183).  Here a configuration is the frontier, the step counter and
    the whole state; [dstep] is the relation of an iteration that
    continues (the [inl] results of [dijkstra_body]) and [dstop] that of
    the iteration that returns.  The invariant of [Search] holds in every
    configuration reachable from the one [dijkstra_init] builds (by rule
    induction on [rtc dstep]); finalized nodes stay finalized at the same
    distance along any run; and the fuelled [dijkstra_loop] implements
    the machine: whatever it returns, it returns from a reachable
    configuration that stops. *)

From S2P Require Import Prelude Graph Snapshot Frontier Search.
Local Open Scope nat_scope.

Module Machine.

Import Snapshot Frontier Search.

Section Machine.

Context {F : Type} `{FL : FrontierLaws F}.
Variables (g : Graph) (orig dest : node) (anim : bool).

(** A configuration of the loop: [pq], [step] and the global state. *)
Definition config : Type := (F * nat * St)%type.

Definition c_pq (c : config) : F := c.1.1.
Definition c_step (c : config) : nat := c.1.2.
Definition c_st (c : config) : St := c.2.

(** One iteration of [while pq:] that goes on to the next. *)
Inductive dstep : config -> config -> Prop :=
| dstep_iter pq step s pq' step' s' :
    dijkstra_body g dest anim pq step s = Ok (inl (pq', step')) s' ->
    dstep (pq, step, s) (pq', step', s').

(** The iteration that returns [n], in state [s']. *)
Inductive dstop : config -> nat -> St -> Prop :=
| dstop_ret pq step s n s' :
    dijkstra_body g dest anim pq step s = Ok (inr n) s' -> dstop (pq, step, s) n s'.

(** The configuration lines 128-146 build, when they do not raise. *)
Definition init_config (s : St) : option config :=
  match dijkstra_init g orig dest s with
  | Ok pq s1 => Some (pq, 0, s1)
  | _ => None
  end.

(** What holds in every reachable configuration. *)
Definition good (c : config) : Prop :=
  dinv g orig dest [] (nattr (c_st c)) (c_pq c) /\ stage (c_st c) = Finding /\
  count_visited g (nattr (c_st c)) = c_step c.

Hypothesis Hg : wf_graph g.
Hypothesis Hw : nonneg_weights g.

Lemma good_init s c :
  wf_state g s -> orig ∈ g_nodes g -> dest ∈ g_nodes g -> init_config s = Some c -> good c.
Proof.
  intros Hwf Ho Hd. unfold init_config.
  destruct (init_effect g orig dest s Hwf Ho Hd) as (s1 & -> & Hwf1 & T1 & Hf1). intros Hc. invc Hc.
  split_and!; [by apply dinv_init|done|by apply (count_visited_init g orig)].
Qed.

Lemma good_step c c' :
  good c -> dstep c c' ->
  good c' /\ (forall v, vis_of (nattr (c_st c)) v = true ->
               vis_of (nattr (c_st c')) v = true /\ dist_of (nattr (c_st c')) v = dist_of (nattr (c_st c)) v).
Proof.
  intros (Hi & Hst & Hc) Hs. destruct Hs as [pq step s pq' step' s' E]. simpl in *.
  destruct (body_step g orig dest Hg Hw anim pq step s Hi Hst Hc) as (r & s0 & E0 & Hr).
  rewrite E in E0. invc E0. destruct Hr as (Hi' & Hst' & Hc' & _ & Hfro). split; [by split_and!|done].
Qed.

(** C10: Invariant of the machine, by rule induction on its runs: in every
    configuration reachable from the one [dijkstra_init] builds, the
    search invariant [dinv] holds, the stage is [Finding], the step
    counter is the number of finalized nodes, and every finalized node is
    at its shortest distance from the origin. *)
Theorem reachable_good s c0 c :
  wf_state g s -> orig ∈ g_nodes g -> dest ∈ g_nodes g ->
  init_config s = Some c0 -> rtc dstep c0 c ->
  good c /\ forall v, vis_of (nattr (c_st c)) v = true ->
    exists d, dist_of (nattr (c_st c)) v = Fin d /\ shortest g orig v d.
Proof.
  intros Hwf Ho Hd Hc0 Hr. assert (Hgood : good c).
  { revert c Hr. apply rtc_ind_r; [by eapply good_init|]. intros c1 c2 _ Hs Hg1. by apply (good_step c1 c2). }
  split; [done|]. intros v Hv. eapply dinv_visited_shortest; [apply Hgood|done].
Qed.

(** C11: A finalized node is never reopened: along any run of the machine
    from a good configuration, a node that is [visited] stays [visited]
    and keeps its [distance] (the specification's "finalized"). *)
Theorem finalized_frozen c c' v :
  good c -> rtc dstep c c' -> vis_of (nattr (c_st c)) v = true ->
  vis_of (nattr (c_st c')) v = true /\ dist_of (nattr (c_st c')) v = dist_of (nattr (c_st c)) v.
Proof.
  intros Hgood Hr Hv.
  enough (Hc : good c' /\ vis_of (nattr (c_st c')) v = true /\
              dist_of (nattr (c_st c')) v = dist_of (nattr (c_st c)) v) by apply Hc.
  revert c' Hr. apply rtc_ind_r; [done|].
  intros c1 c2 _ Hs (Hg1 & V1 & D1). destruct (good_step c1 c2 Hg1 Hs) as [Hg2 Hfro].
  destruct (Hfro v V1) as [V2 D2]. split_and!; congruence.
Qed.

(** The fuelled loop is a run of the machine that stops. *)
Lemma loop_run fuel pq step s n s' :
  dijkstra_loop g fuel dest anim pq step s = Ok n s' ->
  exists c, rtc dstep (pq, step, s) c /\ dstop c n s'.
Proof.
  revert pq step s. induction fuel as [|f IH]; intros pq step s E; [done|].
  cbn [dijkstra_loop] in E. unfold bind in E.
  destruct (dijkstra_body g dest anim pq step s) as [[[pq1 step1]|n1] s1| |] eqn:Eb; try done.
  - destruct (IH _ _ _ E) as (c & Hr & Hstop). exists c. split; [|done].
    eapply rtc_l; [by constructor|done].
  - invc E. exists (pq, step, s). split; [done|by constructor].
Qed.

(** Whatever [dijkstra] returns, it returns from a run of
    the machine: the configuration [dijkstra_init] builds reaches, by
    iterations that continue, a configuration whose iteration returns
    exactly that step count and state. *)
Lemma dijkstra_runs_machine fuel s n s' :
  dijkstra g fuel orig dest anim s = Ok n s' ->
  exists c0 c, init_config s = Some c0 /\ rtc dstep c0 c /\ dstop c n s'.
Proof.
  unfold dijkstra, init_config, bind. destruct (dijkstra_init g orig dest s) as [pq s1| |]; try done.
  intros E. destruct (loop_run _ _ _ _ _ _ E) as (c & Hr & Hstop). by exists (pq, 0, s1), c.
Qed.

End Machine.

Lemma dstep_of_body {F : Type} `{Frontier F} g dest anim (c c' : config) :
  dijkstra_body g dest anim (c_pq c) (c_step c) (c_st c) = Ok (inl (c_pq c', c_step c')) (c_st c') ->
  dstep g dest anim c c'.
Proof. destruct c as [[pq step] s], c' as [[pq' step'] s']. simpl. by constructor. Qed.

(** ** Witnesses on the scenario of [Search] *)

(** The first configurations of [dijkstra(1, 4)] on [spec_graph]. *)
Definition spec_init : config :=
  match init_config (F := ListHeap) spec_graph 1 4 (blank_state [1; 2; 3; 4]) with
  | Some c => c
  | None => (fr_empty, 0, blank_state [])
  end.

Definition next_config (c : config) : config :=
  match dijkstra_body (F := ListHeap) spec_graph 4 false (c_pq c) (c_step c) (c_st c) with
  | Ok (inl (pq, step)) s => (pq, step, s)
  | _ => c
  end.

Lemma reachable_good_witness :
  good spec_graph 1 4 (next_config spec_init) /\
  forall v, vis_of (nattr (c_st (next_config spec_init))) v = true ->
    exists d, dist_of (nattr (c_st (next_config spec_init))) v = Fin d /\ shortest spec_graph 1 v d.
Proof.
  apply (reachable_good spec_graph 1 4 false ltac:(solve_graph_hyps) ltac:(solve_graph_hyps)
    (blank_state [1; 2; 3; 4]) spec_init); [solve_graph_hyps..|vm_compute; reflexivity|].
  apply rtc_once, dstep_of_body. vm_compute. reflexivity.
Defined.

Lemma finalized_frozen_witness :
  vis_of (nattr (c_st (next_config (next_config spec_init)))) 1 = true /\
  dist_of (nattr (c_st (next_config (next_config spec_init)))) 1 = dist_of (nattr (c_st (next_config spec_init))) 1.
Proof.
  assert (Hs0 : dstep (F := ListHeap) spec_graph 4 false spec_init (next_config spec_init))
    by (apply dstep_of_body; vm_compute; reflexivity).
  apply (finalized_frozen spec_graph 1 4 false ltac:(solve_graph_hyps) ltac:(solve_graph_hyps)).
  - eapply (good_step spec_graph 1 4 false); [solve_graph_hyps|solve_graph_hyps| |exact Hs0].
    eapply (good_init spec_graph 1 4 (blank_state [1; 2; 3; 4])); [solve_graph_hyps..|vm_compute; reflexivity].
  - apply rtc_once, dstep_of_body. vm_compute. reflexivity.
  - vm_compute. reflexivity.
Defined.

End Machine.
