(* ===== verification/Reconstruct.v ===== *)
(** * Reconstruct: [reconstruct_path], main.py lines 187-225

    After the search, the route is read backwards from the destination by
    following [G.nodes[curr]["previous"]] to the origin.  Every step styles
    all parallel edges [G[prev][curr]] as path edges (and bumps their use
    counter when an [algorithm] name is given), adds the [length] of the
    edge of key 0 to [dist] and appends its [maxspeed] to [speeds].  At the
    origin it prints the distance in km, the plain mean of [speeds], and
    [dist / mean * 60] minutes.  A missing [previous] prints
    ["Unnaccessible goal"] and returns.  The printed lines are the
    [printed] log of the state.

    [pred_route] is the route the loop walks, as a list of edges from the
    origin: [recon_loop_route] shows the loop accumulates exactly its
    lengths and speeds (a refinement), and [pred_route_exists] that it
    exists, is a path, and is a shortest one when no two edges join the
    same pair of nodes.  [route_keys] are the edges the loop restyles
    along the route (with [Graph.paints]): after [reconstruct_path]
    exactly the edges joining two consecutive nodes of the route have
    the path style, every other edge the unvisited one. *)

From S2P Require Import Prelude Graph Snapshot Frontier Search.
Local Open Scope nat_scope.
Import Snapshot.

Module Reconstruct.

Section Reconstruct.

Variable g : Graph.

(** ** The operations *)

(** [G[u][v]]: the parallel edges from [u] to [v]; [KeyError] when none. *)
Definition adj_edges (u v : node) : PyM St (list Edge) :=
  fun s => match edges_between g u v with
           | [] => Raise KeyError s
           | es => Ok es s
           end.

(** [G.edges[k]] *)
Definition get_edge (k : ekey) : PyM St Edge :=
  fun s => match find_edge g k with
           | Some e => Ok e s
           | None => Raise KeyError s
           end.

(** Line 208: [G.edges[k][f"{algorithm}_uses"] += 1] when [algorithm] is a
    non-empty string. *)
Definition count_use (algorithm : option string) (k : ekey) : PyM St unit :=
  match algorithm with
  | Some a =>
      if String.eqb a "" then ret tt
      else fun s => if is_edge g k
                    then Ok tt (set_euses (<[(k, a) := S (default 0 (euses s !! (k, a)))]> (euses s)) s)
                    else Raise KeyError s
  | None => ret tt
  end.

Definition sumZ (zs : list Z) : Z := fold_right Z.add 0%Z zs.

(** Lines 200-214, one step back from [curr]: [None] is the early return. *)
Definition recon_body (isAnimate : bool) (algorithm : option string)
    (curr : node) (dist : Q) (speeds : list Z) (step : nat)
  : PyM St (option (node * Q * list Z * nat)) :=
  a <- get_node curr ;;
  match previous a with
  | None => print PUnaccessible ;;; ret None
  | Some prev =>
      es <- adj_edges prev curr ;;
      for_each es (fun e => style_path_edge g (ekey_of e) ;;; count_use algorithm (ekey_of e)) ;;;
      e0 <- get_edge (prev, curr, 0) ;;
      e0' <- get_edge (prev, curr, 0) ;;
      (if isAnimate then save_frame step else ret tt) ;;;
      ret (Some (prev, (dist + e_length e0)%Q, speeds ++ [e_maxspeed e0'], S step))
  end.

(** Line 199: [while curr != orig:]. [Some (dist, speeds, step)] when the
    origin is reached, [None] after an early return. *)
Fixpoint recon_loop (fuel : nat) (orig : node) (isAnimate : bool) (algorithm : option string)
    (curr : node) (dist : Q) (speeds : list Z) (step : nat)
  : PyM St (option (Q * list Z * nat)) :=
  match fuel with
  | O => fun _ => OutOfFuel
  | S f =>
      if decide (curr = orig) then ret (Some (dist, speeds, step))
      else
        r <- recon_body isAnimate algorithm curr dist speeds step ;;
        match r with
        | None => ret None
        | Some (prev, dist', speeds', step') =>
            recon_loop f orig isAnimate algorithm prev dist' speeds' step'
        end
  end.

(** [sum(speeds) / len(speeds)] *)
Definition mean_speed (speeds : list Z) : PyM St Q :=
  py_div (inject_Z (sumZ speeds)) (inject_Z (Z.of_nat (length speeds))).

Definition reconstruct_path (fuel : nat) (orig dest : node) (isAnimate : bool)
    (algorithm : option string) : PyM St unit :=
  set_stage Reconstructing ;;;
  style_all_unvisited g ;;;
  r <- recon_loop fuel orig isAnimate algorithm dest 0%Q [] 0 ;;
  match r with
  | None => ret tt
  | Some (dist, speeds, step) =>
      let km := (dist / 1000)%Q in
      print (PDistance km) ;;;
      avg <- mean_speed speeds ;;
      print (PAvgSpeed avg) ;;;
      avg' <- mean_speed speeds ;;
      t <- py_div km avg' ;;
      print (PTotalTime (t * 60)%Q) ;;;
      if isAnimate then ret tt
      else set_stage Found ;;; save_frame step
  end.

(** Enough fuel: the walk back visits each node at most once. *)
Definition recon_fuel : nat := S (length (g_nodes g)).

(** ** The route the loop walks *)

(** From [curr] back to [orig] along [previous], the edges of key 0, in
    path order; [None] when a [previous] or an edge is missing. *)
Fixpoint pred_route (m : gmap node NodeAttr) (orig : node) (fuel : nat) (curr : node)
  : option (list Edge) :=
  match fuel with
  | O => None
  | S f =>
      if decide (curr = orig) then Some []
      else match prev_of m curr with
           | None => None
           | Some p =>
               match find_edge g (p, curr, 0), pred_route m orig f p with
               | Some e, Some r => Some (r ++ [e])
               | _, _ => None
               end
           end
  end.

Definition route_length (r : list Edge) : Q := fold_right (fun e acc => e_length e + acc)%Q 0%Q r.

(** The edges the walk back restyles along [r]: at each step every
    parallel edge [G[prev][curr]] (lines 205-208). *)
Definition route_keys (r : list Edge) : list ekey :=
  r ≫= (fun e => ekey_of <$> edges_between g (e_u e) (e_v e)).

(** ** One step back, and the loop *)

Lemma count_use_Ok alg k s :
  is_edge g k = true ->
  exists s', count_use alg k s = Ok tt s' /\ nattr s' = nattr s /\ quiet s s'.
Proof.
  intros Hk. unfold count_use. destruct alg as [a|]; [|by eexists].
  destruct (String.eqb a ""); [by eexists|]. rewrite Hk. by eexists.
Qed.

Lemma keeps_style_count_use alg k : keeps estyle (count_use alg k).
Proof. intros s a s' E. unfold count_use in E. repeat case_match; by inversion E. Qed.

Lemma paints_path_step alg e :
  paints [ekey_of e] path_style (style_path_edge g (ekey_of e) ;;; count_use alg (ekey_of e)).
Proof.
  rewrite <- (app_nil_r [ekey_of e]). apply paints_bind; [apply paints_set_edge_style|intros _].
  apply paints_keeps, keeps_style_count_use.
Qed.

Lemma route_keys_snoc r e :
  route_keys (r ++ [e]) = route_keys r ++ (ekey_of <$> edges_between g (e_u e) (e_v e)).
Proof. unfold route_keys. rewrite bind_app. simpl. by rewrite app_nil_r. Qed.

(** An edge is restyled along [r] exactly when one of the route's steps
    joins its two ends. *)
Lemma route_keys_spec r e :
  e ∈ g_edges g -> ekey_of e ∈ route_keys r <-> (e_u e, e_v e) ∈ (fun e' => (e_u e', e_v e')) <$> r.
Proof.
  intros He. unfold route_keys. rewrite list_elem_of_bind, list_elem_of_fmap. split.
  - intros (e' & Hk & He'). apply list_elem_of_fmap in Hk as (e'' & Hk & H'').
    apply edges_between_spec in H'' as (_ & Hu & Hv). unfold ekey_of in Hk. injection Hk as Hu' Hv' _.
    exists e'. split; [f_equal; congruence|done].
  - intros (e' & Hk & He'). injection Hk as Hu Hv. exists e'. split; [|done].
    apply list_elem_of_fmap. exists e. split; [done|]. by apply edges_between_spec.
Qed.

(** After restyling every edge as unvisited and then the route's, an
    edge of the graph has the path style exactly when a step of the route
    joins its two ends, and the unvisited style otherwise. *)
Lemma styles_after m0 m1 m2 r e :
  painted m0 (ekey_of <$> g_edges g) unvisited_style m1 -> painted m1 (route_keys r) path_style m2 ->
  e ∈ g_edges g ->
  m2 !! ekey_of e =
    Some (if decide ((e_u e, e_v e) ∈ (fun e' => (e_u e', e_v e')) <$> r) then path_style else unvisited_style).
Proof.
  intros H1 H2 He. rewrite H2, H1. pose proof (route_keys_spec r e He).
  assert (ekey_of e ∈ ekey_of <$> g_edges g) by (by apply list_elem_of_fmap_2).
  repeat case_decide; try done; naive_solver.
Qed.

Lemma recon_body_step anim alg curr dist speeds step s a p e0 :
  nattr s !! curr = Some a -> previous a = Some p -> find_edge g (p, curr, 0) = Some e0 ->
  exists s', recon_body anim alg curr dist speeds step s =
    Ok (Some (p, (dist + e_length e0)%Q, speeds ++ [e_maxspeed e0], S step)) s' /\
    nattr s' = nattr s /\ printed s' = printed s /\ stage s' = stage s /\
    painted (estyle s) (ekey_of <$> edges_between g p curr) path_style (estyle s').
Proof.
  intros Ha Hp He0. destruct (find_edge_Some _ _ _ He0) as [He0g Hk].
  unfold recon_body. rewrite (bind_Ok _ _ _ _ _ (get_node_Some _ _ _ Ha)), Hp.
  assert (Ees : adj_edges p curr s = Ok (edges_between g p curr) s).
  { unfold adj_edges. destruct (edges_between g p curr) as [|e es] eqn:E; [|done]. exfalso.
    assert (Hin : e0 ∈ edges_between g p curr).
    { apply edges_between_spec. unfold ekey_of in Hk. by injection Hk as <- <- _. }
    rewrite E in Hin. set_solver. }
  rewrite (bind_Ok _ _ _ _ _ Ees).
  destruct (for_each_Ok (fun s0 => nattr s0 = nattr s /\ quiet s s0) (edges_between g p curr)
    (fun e => style_path_edge g (ekey_of e) ;;; count_use alg (ekey_of e)) s) as (s1 & E1 & N1 & Q1).
  { split; [done|apply quiet_refl]. }
  { intros e s0 He [N0 Q0]. apply edges_between_spec in He as [He _]. unfold style_path_edge.
    destruct (set_edge_style_Ok g (ekey_of e) path_style s0) as (s2 & E2 & N2 & Q2); [auto using is_edge_of|].
    rewrite (bind_Ok _ _ _ _ _ E2).
    destruct (count_use_Ok alg (ekey_of e) s2) as (s3 & E3 & N3 & Q3); [auto using is_edge_of|].
    exists s3. split; [done|]. split; [congruence|eauto using quiet_trans]. }
  pose proof (paints_for_each ekey_of path_style _ _ (paints_path_step alg) _ _ _ E1) as S1.
  rewrite (bind_Ok _ _ _ _ _ E1).
  assert (Eg : forall s0, get_edge (p, curr, 0) s0 = Ok e0 s0) by (intros; unfold get_edge; by rewrite He0).
  rewrite (bind_Ok _ _ _ _ _ (Eg s1)), (bind_Ok _ _ _ _ _ (Eg s1)).
  destruct (Search.anim_frame_Ok anim step s1) as (s2 & E2 & N2 & T2).
  assert (S2 : estyle s2 = estyle s1 /\ printed s2 = printed s1).
  { destruct anim; [|by invc E2]. unfold save_frame in E2. destruct (sample _ _); invc E2; done. }
  rewrite (bind_Ok _ _ _ _ _ E2). exists s2. destruct Q1 as (T1 & _ & _ & P1), S2 as [S2 P2].
  split; [done|]. split_and!; [congruence..|by rewrite S2].
Qed.

Lemma prev_of_Some_attr m n p : prev_of m n = Some p -> exists a, m !! n = Some a /\ previous a = Some p.
Proof. unfold prev_of. destruct (m !! n); [eauto|done]. Qed.

Lemma route_length_app r1 r2 : (route_length (r1 ++ r2) == route_length r1 + route_length r2)%Q.
Proof. induction r1 as [|e r1 IH]; simpl; [lra|]. rewrite IH. lra. Qed.

(** The loop refines [pred_route]: it adds up the lengths of the route and
    collects its speeds from the destination backwards, one step per
    edge, and leaves the node attributes and the printed lines alone. *)
Lemma recon_loop_route orig anim alg fuel curr r dist speeds step s :
  pred_route (nattr s) orig fuel curr = Some r ->
  exists s' d', recon_loop fuel orig anim alg curr dist speeds step s =
      Ok (Some (d', speeds ++ rev (e_maxspeed <$> r), step + length r)) s' /\
    (d' == dist + route_length r)%Q /\
    nattr s' = nattr s /\ printed s' = printed s /\ stage s' = stage s /\
    painted (estyle s) (route_keys r) path_style (estyle s').
Proof.
  revert curr r dist speeds step s.
  induction fuel as [|f IH]; intros curr r dist speeds step s H; [done|]. simpl in H |- *.
  case_decide as Hc.
  - invc H. do 2 eexists. split; [simpl; by rewrite app_nil_r, Nat.add_0_r|]. simpl.
    split_and!; first [done | lra | apply painted_nil].
  - destruct (prev_of (nattr s) curr) as [p|] eqn:Hp; [|done].
    destruct (find_edge g (p, curr, 0)) as [e0|] eqn:He0; [|done].
    destruct (pred_route (nattr s) orig f p) as [r'|] eqn:Hr; [|done]. invc H.
    destruct (prev_of_Some_attr _ _ _ Hp) as (a & Ha & Hpa).
    destruct (recon_body_step anim alg curr dist speeds step s a p e0 Ha Hpa He0) as (s1 & E1 & N1 & P1 & T1 & S1).
    rewrite (bind_Ok _ _ _ _ _ E1). rewrite <- N1 in Hr.
    destruct (IH _ _ (dist + e_length e0)%Q (speeds ++ [e_maxspeed e0]) (S step) s1 Hr)
      as (s2 & d' & E2 & D2 & N2 & P2 & T2 & S2).
    exists s2, d'. rewrite E2. split.
    + rewrite fmap_app, rev_app_distr, length_app. simpl. rewrite <- app_assoc.
      do 3 f_equal. lia.
    + rewrite route_length_app. simpl. split_and!; [lra|congruence..|].
      destruct (find_edge_Some _ _ _ He0) as [_ Hk]. unfold ekey_of in Hk. injection Hk as Hu Hv _.
      rewrite route_keys_snoc, Hu, Hv. eapply painted_ext; [|exact (painted_trans _ _ _ _ _ _ S1 S2)].
      intros k. rewrite !elem_of_app. tauto.
Qed.

(** C19: Refinement of the reconstruction loop (lines 199-214) by the
    abstract route [pred_route]: when following [previous] from [curr]
    yields the route [r], the loop returns without error, having added
    the lengths of [r] to [dist], appended the speed limits of [r] in
    reverse (destination first) to [speeds], and counted one step per
    edge; it changes neither the node attributes, the printed lines nor
    the stage. *)
Theorem recon_loop_refines orig anim alg fuel curr r dist speeds step s :
  pred_route (nattr s) orig fuel curr = Some r ->
  exists s' d', recon_loop fuel orig anim alg curr dist speeds step s =
      Ok (Some (d', speeds ++ rev (e_maxspeed <$> r), step + length r)) s' /\
    (d' == dist + route_length r)%Q /\
    nattr s' = nattr s /\ printed s' = printed s /\ stage s' = stage s.
Proof.
  intros H. destruct (recon_loop_route orig anim alg fuel curr r dist speeds step s H)
    as (s' & d' & E & D & N & P & T & _). by exists s', d'.
Qed.

(** ** The route exists *)

(** The number of nodes strictly closer to the origin than [n]: it drops
    at each step back when every edge is longer than 0. *)
Definition closer (m : gmap node NodeAttr) (n : node) : nat :=
  sum_list_with (fun x => if dist_gtb (dist_of m n) (dist_of m x) then 1 else 0) (g_nodes g).

Section Route.

Variable orig : node.
Variable m : gmap node NodeAttr.
Hypothesis Hg : wf_graph g.
Hypothesis Hpos : pos_weights g.
Hypothesis Hk0 : keys_from_zero g.
Hypothesis Htree : pred_tree g orig m.

Lemma closer_pred n p : prev_of m n = Some p -> closer m p < closer m n.
Proof.
  intros Hp. destruct Htree as (_ & _ & _ & Hstep).
  destruct (Hstep n p Hp) as (Hfin & e & He & _ & Hd).
  apply out_edges_spec in He as [Heg Hu]. pose proof (Hpos e Heg) as Hw.
  assert (Hle : dist_le (dist_of m p) (dist_of m n)) by (rewrite Hd; apply dist_le_add; lra).
  apply (sum_list_with_lt _ _ _ p).
  - intros x. destruct (dist_gtb (dist_of m p) _) eqn:E1; [|lia].
    apply dist_gtb_true in E1. rewrite (proj2 (dist_gtb_true _ _)); [done|].
    eauto using dist_le_trans.
  - subst. by apply (wf_edge_src g Hg).
  - rewrite (proj2 (dist_gtb_false _ _)) by apply dist_le_refl.
    rewrite (proj2 (dist_gtb_true _ _)); [lia|]. rewrite Hd.
    destruct (dist_of m p); [simpl; lra|done].
Qed.

Lemma closer_bound n : closer m n < S (length (g_nodes g)).
Proof. unfold closer. pose proof (sum_list_with_bounded (fun x => if dist_gtb (dist_of m n) (dist_of m x) then 1 else 0) (g_nodes g)). apply Nat.lt_succ_r, H. intros y. destruct (dist_gtb _ _); lia. Qed.

(** Following [previous] from a node the search reached ends at the
    origin, within [closer] steps, along a walk of the graph; its weight
    is the distance the search recorded when the graph is simple (each
    step then takes the edge the search relaxed). *)
Lemma pred_route_exists fuel n d :
  closer m n < fuel -> dist_of m n = Fin d ->
  exists r, pred_route m orig fuel n = Some r /\ walk g orig r n /\
    (simple_graph g -> pweight r == d).
Proof.
  revert n d. induction fuel as [|f IH]; intros n d Hf Hd; [lia|]. simpl.
  case_decide as Hn.
  - subst. exists []. split_and!; [done|constructor|]. intros _.
    destruct Htree as (Ho & _). rewrite Ho in Hd. injection Hd as <-. done.
  - destruct Htree as (_ & _ & Hroot & Hstep).
    destruct (prev_of m n) as [p|] eqn:Hp; [|exfalso; apply Hn, Hroot; congruence].
    destruct (Hstep n p Hp) as (Hfin & e & He & Hv & Hd').
    apply out_edges_spec in He as [Heg Hu].
    destruct (is_edge_find g (p, n, 0)) as [e0 He0]; [subst; by apply Hk0|].
    destruct (find_edge_Some _ _ _ He0) as [He0g Hk]. rewrite He0.
    destruct (dist_of m p) as [dp|] eqn:Edp; [|done].
    pose proof (closer_pred n p Hp).
    destruct (IH p dp) as (r & Hr & Hwalk & Hw); [lia|done|]. rewrite Hr.
    unfold ekey_of in Hk. injection Hk as Hu0 Hv0 _.
    eexists. split; [done|]. split.
    + rewrite <- Hv0. apply walk_snoc; [by rewrite Hu0|done].
    + intros Hs. pose proof (Hw Hs) as Hsum.
      assert (e0 = e) as -> by (apply Hs; congruence).
      rewrite Hd in Hd'. simpl in Hd'. injection Hd' as ->.
      rewrite pweight_app. simpl. lra.
Qed.

End Route.

(** ** What [reconstruct_path] prints *)

Lemma sumZ_app zs1 zs2 : sumZ (zs1 ++ zs2) = (sumZ zs1 + sumZ zs2)%Z.
Proof. induction zs1 as [|z zs IH]; simpl; [done|]. rewrite IH. lia. Qed.

Lemma sumZ_rev zs : sumZ (rev zs) = sumZ zs.
Proof. induction zs as [|z zs IH]; simpl; [done|]. rewrite sumZ_app, IH. simpl. lia. Qed.

Lemma py_div_Ok {S} x y (s : S) : ~ (y == 0)%Q -> py_div x y s = Ok (x / y)%Q s.
Proof. intros Hy. unfold py_div. destruct (Qeq_bool y 0) eqn:E; [|done]. by apply Qeq_bool_eq in E. Qed.

Lemma inject_Z_nonzero z : z <> 0%Z -> ~ (inject_Z z == 0)%Q.
Proof. intros Hz H. apply Hz, inject_Z_injective, H. Qed.

Lemma mean_speed_Ok speeds s :
  speeds <> [] -> mean_speed speeds s =
    Ok (inject_Z (sumZ speeds) / inject_Z (Z.of_nat (length speeds)))%Q s.
Proof. intros H. apply py_div_Ok, inject_Z_nonzero. destruct speeds; [done|simpl; lia]. Qed.

Lemma walk_nonempty u es v : walk g u es v -> u <> v -> es <> [].
Proof. intros Hw Huv ->. inversion Hw. congruence. Qed.

Lemma sumZ_pos zs : zs <> [] -> Forall (fun z => 0 < z)%Z zs -> (0 < sumZ zs)%Z.
Proof.
  intros Hne Hf. induction Hf as [|z zs Hz Hf IH]; [done|]. simpl.
  destruct zs; [simpl; lia|]. specialize (IH ltac:(done)). lia.
Qed.

(** ** The reconstruction adds or removes no node's dictionary *)

Lemma keeps_adj_edges {B} (obs : St -> B) u v : keeps obs (adj_edges u v).
Proof. intros s a s' E. unfold adj_edges in E. by destruct (edges_between g u v); invc E. Qed.

Lemma keeps_get_edge {B} (obs : St -> B) k : keeps obs (get_edge k).
Proof. intros s a s' E. unfold get_edge in E. by destruct (find_edge g k); invc E. Qed.

Lemma keeps_nodes_count_use alg k : keeps nodes_of (count_use alg k).
Proof.
  intros s a s' E. unfold count_use in E. destruct alg as [x|]; [|by invc E].
  destruct (String.eqb x ""); [by invc E|]. by destruct (is_edge g k); invc E.
Qed.

(** What every primitive of the reconstruction leaves alone, the whole
    reconstruction does. *)
Section Untouched.

Context {B : Type} (obs : St -> B).
Hypothesis Hget : forall n, keeps obs (get_node n).
Hypothesis Hstyle : forall k x, keeps obs (set_edge_style g k x).
Hypothesis Hstage : forall x, keeps obs (set_stage x).
Hypothesis Hframe : forall step, keeps obs (save_frame step).
Hypothesis Hprint : forall x, keeps obs (print x).
Hypothesis Hcount : forall alg k, keeps obs (count_use alg k).

Lemma keeps_reconstruct_path fuel orig dest anim alg : keeps obs (reconstruct_path fuel orig dest anim alg).
Proof.
  unfold reconstruct_path, mean_speed. keeps_solve.
  generalize dest 0%Q (@nil Z) 0. induction fuel as [|f IH]; intros curr dist speeds step; [by intros ???|].
  simpl. case_decide; [apply keeps_ret|].
  apply keeps_bind; [|intros [[[[p d'] sp'] st']|]; [apply IH|apply keeps_ret]].
  unfold recon_body. keeps_solve; auto using keeps_adj_edges, keeps_get_edge.
Qed.

End Untouched.

Lemma keeps_nodes_reconstruct_path fuel orig dest anim alg :
  keeps nodes_of (reconstruct_path fuel orig dest anim alg).
Proof. apply keeps_reconstruct_path; auto with keeps. apply keeps_nodes_count_use. Qed.

End Reconstruct.

Section Report.

Variable g : Graph.
Variable orig : node.
Hypothesis Hg : wf_graph g.
Hypothesis Hpos : pos_weights g.
Hypothesis Hk0 : keys_from_zero g.
Hypothesis Hspd : pos_speeds g.

Lemma route_speeds_pos u r v : walk g u r v -> Forall (fun z => 0 < z)%Z (e_maxspeed <$> r).
Proof. induction 1; constructor; auto. Qed.


Lemma recon_reached anim alg dest d s :
  pred_tree g orig (nattr s) -> dist_of (nattr s) dest = Fin d -> dest <> orig ->
  exists r s' km avg t,
    reconstruct_path g (recon_fuel g) orig dest anim alg s = Ok tt s' /\
    walk g orig r dest /\ r <> [] /\
    printed s' = printed s ++ [PDistance km; PAvgSpeed avg; PTotalTime t] /\
    (km == route_length r / 1000)%Q /\
    (avg == inject_Z (sumZ (e_maxspeed <$> r)) / inject_Z (Z.of_nat (length r)))%Q /\
    (t == km / avg * 60)%Q /\
    nattr s' = nattr s /\
    (simple_graph g -> pweight r == d) /\
    pred_route g (nattr s) orig (recon_fuel g) dest = Some r /\
    (forall e, e ∈ g_edges g -> estyle s' !! ekey_of e =
      Some (if decide ((e_u e, e_v e) ∈ (fun e' => (e_u e', e_v e')) <$> r) then path_style else unvisited_style)).
Proof.
  intros Htree Hd Hne. unfold reconstruct_path.
  rewrite (bind_Ok _ _ _ _ _ (eq_refl : set_stage Reconstructing s = Ok tt (set_stage_st Reconstructing s))).
  destruct (style_all_unvisited_Ok g (set_stage_st Reconstructing s)) as (s2 & E2 & N2 & Q2).
  rewrite (bind_Ok _ _ _ _ _ E2).
  destruct (pred_route_exists g orig (nattr s) Hg Hpos Hk0 Htree (recon_fuel g) dest d)
    as (r & Hr & Hw & Hs); [apply closer_bound|done|].
  pose proof (paints_style_all_unvisited g _ _ _ E2) as S2. pose proof Hr as Hroute.
  simpl in N2. rewrite <- N2 in Hr.
  destruct (recon_loop_route g orig anim alg _ _ _ 0%Q [] 0 s2 Hr) as (s3 & d' & E3 & D3 & N3 & P3 & T3 & S3).
  rewrite (bind_Ok _ _ _ _ _ E3). simpl app. rewrite Nat.add_0_l.
  pose proof (walk_nonempty g _ _ _ Hw (not_eq_sym Hne)) as Hr0.
  assert (Hsp : rev (e_maxspeed <$> r) <> []).
  { intros H. apply Hr0. apply (f_equal length) in H. rewrite length_rev, length_fmap in H. by destruct r. }
  assert (Hsum : (0 < sumZ (e_maxspeed <$> r))%Z).
  { rewrite <- sumZ_rev. apply sumZ_pos; [done|]. apply Forall_rev. by eapply route_speeds_pos. }
  set (avg := (inject_Z (sumZ (rev (e_maxspeed <$> r))) / inject_Z (Z.of_nat (length (rev (e_maxspeed <$> r)))))%Q).
  assert (Havg : ~ (avg == 0)%Q).
  { enough (0 < avg)%Q by (intros ?; lra). unfold avg. rewrite sumZ_rev, length_rev, length_fmap.
    assert (0 < inject_Z (sumZ (e_maxspeed <$> r)))%Q by (change 0%Q with (inject_Z 0); by rewrite <- Zlt_Qlt).
    assert (0 < inject_Z (Z.of_nat (length r)))%Q.
    { change 0%Q with (inject_Z 0). rewrite <- Zlt_Qlt. destruct r; [done|simpl; lia]. }
    apply Qlt_shift_div_l; [done|]. by rewrite Qmult_0_l. }
  unfold print, modify, bind. rewrite !mean_speed_Ok by done. fold avg.
  rewrite py_div_Ok by done. cbn.
  destruct Q2 as (_ & _ & _ & P2). simpl in P2.
  exists r. destruct anim; eexists; exists (d' / 1000)%Q, avg, (d' / 1000 / avg * 60)%Q;
    (split; [reflexivity|]); cbn [printed nattr estyle add_printed add_frame set_stage_st];
    split_and!; try done; try congruence.
  all: try (rewrite P3, P2, <- !app_assoc; done).
  all: try (rewrite D3, Qplus_0_l; reflexivity).
  all: try (intros e He; exact (styles_after g _ _ _ r e S2 S3 He)).
  all: try exact Hroute.
  all: unfold avg; by rewrite sumZ_rev, length_rev, length_fmap.
Qed.

(** C5: When the search reached [dest] (another node than [orig]) and left
    a predecessor tree, [reconstruct_path] terminates without error and
    prints exactly three lines: the length of a walk from [orig] to [dest]
    of the graph in km, the plain mean of the speed limits of its edges,
    and the travel time in minutes (km / mean * 60); it leaves the node
    attributes alone.  When the graph is simple, the walk weighs exactly
    what the search recorded as the distance of [dest]. *)
Theorem reconstruct_reached anim alg dest d s :
  pred_tree g orig (nattr s) -> dist_of (nattr s) dest = Fin d -> dest <> orig ->
  exists r s' km avg t,
    reconstruct_path g (recon_fuel g) orig dest anim alg s = Ok tt s' /\
    walk g orig r dest /\ r <> [] /\
    printed s' = printed s ++ [PDistance km; PAvgSpeed avg; PTotalTime t] /\
    (km == route_length r / 1000)%Q /\
    (avg == inject_Z (sumZ (e_maxspeed <$> r)) / inject_Z (Z.of_nat (length r)))%Q /\
    (t == km / avg * 60)%Q /\
    nattr s' = nattr s /\
    (simple_graph g -> pweight r == d).
Proof.
  intros Htree Hd Hne. destruct (recon_reached anim alg dest d s Htree Hd Hne)
    as (r & s' & km & avg & t & E & Hw & Hr & P & Hkm & Havg & Ht & N & Hs & _).
  exists r, s', km, avg, t. by split_and!.
Qed.

(** C6: The picture the reconstruction leaves (what a frame saved after
    it draws, lines 193-208): when the search reached [dest] (another node
    than [orig]) and left a predecessor tree, [reconstruct_path] returns,
    and every edge of the graph is drawn with the path style when some
    step of the route it walked back along [previous] joins the edge's
    two ends (all parallel edges of a step are highlighted, not only the
    one of key 0), and with the unvisited style otherwise: the styles the
    search left are all reset. *)
Theorem reconstruct_styles anim alg dest d s :
  pred_tree g orig (nattr s) -> dist_of (nattr s) dest = Fin d -> dest <> orig ->
  exists r s', reconstruct_path g (recon_fuel g) orig dest anim alg s = Ok tt s' /\
    pred_route g (nattr s) orig (recon_fuel g) dest = Some r /\ walk g orig r dest /\
    forall e, e ∈ g_edges g -> estyle s' !! ekey_of e =
      Some (if decide ((e_u e, e_v e) ∈ (fun e' => (e_u e', e_v e')) <$> r) then path_style else unvisited_style).
Proof.
  intros Htree Hd Hne. destruct (recon_reached anim alg dest d s Htree Hd Hne)
    as (r & s' & _ & _ & _ & E & Hw & _ & _ & _ & _ & _ & _ & _ & Hr & Hst).
  exists r, s'. by split_and!.
Qed.

Lemma recon_unreachable fuel anim alg dest a s :
  nattr s !! dest = Some a -> previous a = None -> dest <> orig ->
  exists s', reconstruct_path g (S fuel) orig dest anim alg s = Ok tt s' /\
    printed s' = printed s ++ [PUnaccessible] /\ nattr s' = nattr s /\
    stage s' = Reconstructing /\ frame_count s' = frame_count s.
Proof.
  intros Ha Hp Hne. unfold reconstruct_path.
  rewrite (bind_Ok _ _ _ _ _ (eq_refl : set_stage Reconstructing s = Ok tt (set_stage_st Reconstructing s))).
  destruct (style_all_unvisited_Ok g (set_stage_st Reconstructing s)) as (s2 & E2 & N2 & Q2).
  rewrite (bind_Ok _ _ _ _ _ E2). simpl in N2. destruct Q2 as (T2 & C2 & _ & P2).
  assert (E3 : recon_loop g (S fuel) orig anim alg dest 0%Q [] 0 s2 = Ok None (add_printed PUnaccessible s2)).
  { cbn [recon_loop]. rewrite decide_False by done. unfold recon_body.
    unfold bind at 1. rewrite (bind_Ok _ _ _ _ _ (get_node_Some dest a s2 ltac:(by rewrite N2))), Hp. done. }
  rewrite (bind_Ok _ _ _ _ _ E3). eexists. split; [reflexivity|]. simpl in *. split_and!; congruence.
Qed.

(** C20: When [dest] is not the origin and has no [previous],
    [reconstruct_path] prints ["Unnaccessible goal"] and returns at once:
    no distance, speed or time is printed, and the stage is left at
    [Reconstructing], so no final frame is saved even without animation. *)
Theorem reconstruct_unreachable fuel anim alg dest a s :
  nattr s !! dest = Some a -> previous a = None -> dest <> orig ->
  exists s', reconstruct_path g (S fuel) orig dest anim alg s = Ok tt s' /\
    printed s' = printed s ++ [PUnaccessible] /\ nattr s' = nattr s /\
    stage s' = Reconstructing /\ frame_count s' = frame_count s.
Proof. apply recon_unreachable. Qed.

Lemma recon_same_node fuel anim alg s :
  exists s', reconstruct_path g (S fuel) orig orig anim alg s = Raise ZeroDivisionError s' /\
    printed s' = printed s ++ [PDistance (0 / 1000)%Q].
Proof.
  unfold reconstruct_path.
  rewrite (bind_Ok _ _ _ _ _ (eq_refl : set_stage Reconstructing s = Ok tt (set_stage_st Reconstructing s))).
  destruct (style_all_unvisited_Ok g (set_stage_st Reconstructing s)) as (s2 & E2 & N2 & Q2).
  rewrite (bind_Ok _ _ _ _ _ E2). destruct Q2 as (_ & _ & _ & P2).
  assert (E3 : recon_loop g (S fuel) orig anim alg orig 0%Q [] 0 s2 = Ok (Some (0%Q, [], 0)) s2).
  { cbn [recon_loop]. by rewrite decide_True. }
  rewrite (bind_Ok _ _ _ _ _ E3). eexists. split; [reflexivity|]. simpl in *. by rewrite P2.
Qed.

(** C21: When the origin is the destination, the loop does nothing and
    [reconstruct_path] prints a distance of 0 km and then raises
    [ZeroDivisionError] on the mean of the empty list of speeds. *)
Theorem reconstruct_same_node fuel anim alg s :
  exists s', reconstruct_path g (S fuel) orig orig anim alg s = Raise ZeroDivisionError s' /\
    printed s' = printed s ++ [PDistance (0 / 1000)%Q].
Proof. apply recon_same_node. Qed.

End Report.

(** ** Witnesses on the scenario of [Search] *)

Import Frontier Search.

(** Node 3 cannot be reached from 1. *)
Definition cut_graph : Graph := mkGraph [1; 2; 3] [road 1 2 1000 50].

Definition cut_searched : St :=
  match dijkstra (F := ListHeap) cut_graph (dijkstra_fuel cut_graph) 1 3 false (blank_state [1; 2; 3]) with
  | Ok _ s => s
  | _ => blank_state []
  end.

Lemma reconstruct_reached_witness :
  exists r s' km avg t,
    reconstruct_path spec_graph (recon_fuel spec_graph) 1 4 false None spec_searched_once = Ok tt s' /\
    walk spec_graph 1 r 4 /\ r <> [] /\
    printed s' = printed spec_searched_once ++ [PDistance km; PAvgSpeed avg; PTotalTime t] /\
    (km == route_length r / 1000)%Q /\
    (avg == inject_Z (sumZ (e_maxspeed <$> r)) / inject_Z (Z.of_nat (length r)))%Q /\
    (t == km / avg * 60)%Q /\
    nattr s' = nattr spec_searched_once /\
    (simple_graph spec_graph -> pweight r == 100000 # 2500)%Q.
Proof.
  apply (reconstruct_reached spec_graph 1); solve_graph_hyps; [vm_compute; reflexivity|lia].
Defined.

Lemma reconstruct_unreachable_witness :
  exists s', reconstruct_path cut_graph 1 1 3 false None cut_searched = Ok tt s' /\
    printed s' = printed cut_searched ++ [PUnaccessible] /\ nattr s' = nattr cut_searched /\
    stage s' = Reconstructing /\ frame_count s' = frame_count cut_searched.
Proof.
  apply (reconstruct_unreachable cut_graph 1 0 false None 3 (mkNodeAttr false Inf None 25 true "#FFFFFF"));
    [vm_compute; reflexivity|done|lia].
Defined.

Lemma reconstruct_styles_witness :
  exists r s', reconstruct_path spec_graph (recon_fuel spec_graph) 1 4 false None spec_searched_once = Ok tt s' /\
    pred_route spec_graph (nattr spec_searched_once) 1 (recon_fuel spec_graph) 4 = Some r /\ walk spec_graph 1 r 4 /\
    forall e, e ∈ g_edges spec_graph -> estyle s' !! ekey_of e =
      Some (if decide ((e_u e, e_v e) ∈ (fun e' => (e_u e', e_v e')) <$> r) then path_style else unvisited_style).
Proof.
  apply (reconstruct_styles spec_graph 1) with (d := (100000 # 2500)%Q); solve_graph_hyps; [vm_compute; reflexivity|lia].
Defined.

Lemma recon_loop_refines_witness :
  exists s' d', recon_loop spec_graph (recon_fuel spec_graph) 1 true None 4 0%Q [] 0 spec_searched_once =
      Ok (Some (d', [] ++ rev (e_maxspeed <$> [road 1 2 1000 50; road 2 4 1000 50]),
                0 + length [road 1 2 1000 50; road 2 4 1000 50])) s' /\
    (d' == 0 + route_length [road 1 2 1000 50; road 2 4 1000 50])%Q /\
    nattr s' = nattr spec_searched_once /\ printed s' = printed spec_searched_once /\ stage s' = stage spec_searched_once.
Proof. apply recon_loop_refines. vm_compute. reflexivity. Defined.

End Reconstruct.
