(* ===== verification/Pipeline.v ===== *)
(** * Pipeline: the script at the end of main.py, lines 246-250

    [start] and [end] are drawn with [random.choice] from the graph's
    nodes; here they are parameters, any two nodes.  The script runs
    [dijkstra(start, end, isAnimate=animation)] and then
    [reconstruct_path(start, end, isAnimate=animation)].  The theorems say
    what the run prints, composing the search's correctness ([Search]) with
    the reconstruction's ([Reconstruct]); the video made afterwards is in
    [Program]. *)

From S2P Require Import Prelude Graph Snapshot Frontier Search Reconstruct.
Local Open Scope nat_scope.

Module Pipeline.

Import Frontier Search Reconstruct.

Section Main.

Context {F : Type} `{FL : FrontierLaws F}.
Variable g : Graph.

(** Lines 249-250. *)
Definition main_script (orig dest : node) (animation : bool) : PyM St unit :=
  total_steps <- dijkstra g (dijkstra_fuel g) orig dest animation ;;
  reconstruct_path g (recon_fuel g) orig dest animation None.

Hypothesis Hg : wf_graph g.
Hypothesis Hpos : pos_weights g.
Hypothesis Hk0 : keys_from_zero g.

(** The search from a state holding the graph's dictionaries returns,
    prints nothing, and establishes [dpost]. *)
Lemma search_phase orig dest anim s :
  wf_state g s -> orig ∈ g_nodes g -> dest ∈ g_nodes g ->
  exists n s1, dijkstra g (dijkstra_fuel g) orig dest anim s = Ok n s1 /\
    printed s1 = printed s /\ dpost g orig dest s1 n.
Proof.
  intros Hwf Ho Hd.
  destruct (dijkstra_total g orig dest Hg (pos_nonneg_weights g Hpos) (dijkstra_fuel g) anim s Hwf Ho Hd)
    as (n & s1 & E1 & Hpost); [done|].
  exists n, s1. split_and!; [done| |done]. exact (keeps_dijkstra g _ orig dest anim s n s1 E1).
Qed.

(** C2: End to end, for two different nodes with a path between them, the
    script prints exactly three lines: the length in km of a walk from
    [start] to [end], the plain mean of its edges' speed limits, and the
    time km / mean * 60; when no two edges join the same pair of nodes,
    that walk is a shortest path for the travel-time weights. *)
Theorem main_reachable anim orig dest s :
  pos_speeds g -> wf_state g s -> orig ∈ g_nodes g -> dest ∈ g_nodes g -> orig <> dest ->
  (exists es, walk g orig es dest) ->
  exists r s' km avg t, main_script orig dest anim s = Ok tt s' /\
    walk g orig r dest /\
    printed s' = printed s ++ [PDistance km; PAvgSpeed avg; PTotalTime t] /\
    (km == route_length r / 1000)%Q /\
    (avg == inject_Z (sumZ (e_maxspeed <$> r)) / inject_Z (Z.of_nat (length r)))%Q /\
    (t == km / avg * 60)%Q /\
    (simple_graph g -> shortest g orig dest (pweight r)).
Proof.
  intros Hspd Hwf Ho Hd Hne [es Hes].
  destruct (search_phase orig dest anim s Hwf Ho Hd) as (n & s1 & E1 & P1 & _ & _ & _ & Htree & Hend).
  destruct Hend as [[_ [(d & Hdd & Hsh) _]]|[_ Hno]]; [|by destruct (Hno es)].
  destruct (recon_reached g orig Hg Hpos Hk0 Hspd anim None dest d s1 Htree Hdd (not_eq_sym Hne))
    as (r & s' & km & avg & t & E2 & Hw & _ & P2 & Hkm & Havg & Ht & _ & Hs & _).
  exists r, s', km, avg, t. unfold main_script. rewrite (bind_Ok _ _ _ _ _ E1).
  split_and!; try done; [by rewrite P2, P1|].
  intros Hsg. eapply shortest_Qeq; [exact Hsh|]. by rewrite (Hs Hsg).
Qed.

(** When the destination is unreachable its [previous] stays [None]. *)
Lemma unreachable_no_prev orig dest m :
  pred_tree g orig m -> (forall es, ~ walk g orig es dest) -> prev_of m dest = None.
Proof.
  intros Htree Hno. destruct (prev_of m dest) as [p|] eqn:Hp; [|done].
  pose proof Htree as (_ & _ & _ & Hstep). destruct (Hstep dest p Hp) as (Hfin & e & _ & _ & Hd).
  destruct (dist_of m dest) as [d|] eqn:Ed; [|by destruct (dist_of m p)].
  destruct (pred_route_exists g orig m Hg Hpos Hk0 Htree _ dest d
    (closer_bound g m dest) Ed) as (r & _ & Hw & _).
  by destruct (Hno r).
Qed.

(** C3: End to end, when no path leads from [start] to [end], the search
    ends still [Finding] and the script prints only
    ["Unnaccessible goal"]: no exception is raised and no metric is
    printed. *)
Theorem main_unreachable anim orig dest s :
  wf_state g s -> orig ∈ g_nodes g -> dest ∈ g_nodes g -> (forall es, ~ walk g orig es dest) ->
  exists s', main_script orig dest anim s = Ok tt s' /\
    printed s' = printed s ++ [PUnaccessible] /\ stage s' = Reconstructing.
Proof.
  intros Hwf Ho Hd Hno.
  destruct (search_phase orig dest anim s Hwf Ho Hd) as (n & s1 & E1 & P1 & Hwf1 & _ & _ & Htree & Hend).
  destruct Hend as [[_ [(d & _ & [[es [Hes _]] _]) _]]|_]; [by destruct (Hno es)|].
  destruct (wf_nodes_in g (nattr s1) dest Hwf1 Hd) as [a Ha].
  assert (Hne : dest <> orig) by (intros ->; apply (Hno []); constructor).
  assert (Hp : previous a = None).
  { pose proof (unreachable_no_prev orig dest _ Htree Hno) as Hn. unfold prev_of in Hn. by rewrite Ha in Hn. }
  destruct (recon_unreachable g orig (length (g_nodes g)) anim None dest a s1 Ha Hp Hne)
    as (s' & E2 & P2 & _ & T2 & _).
  exists s'. unfold main_script. rewrite (bind_Ok _ _ _ _ _ E1). split_and!; [done| |done].
  by rewrite P2, P1.
Qed.

(** C13: End to end, when [start] and [end] are the same node (which
    [random.choice] can draw), the search finds it at once and the script
    prints a distance of 0 km and then raises [ZeroDivisionError]: the
    all-zero metrics the specification asks for are not produced. *)
Theorem main_same_node anim orig s :
  wf_state g s -> orig ∈ g_nodes g ->
  exists s', main_script orig orig anim s = Raise ZeroDivisionError s' /\
    printed s' = printed s ++ [PDistance (0 / 1000)%Q].
Proof.
  intros Hwf Ho.
  destruct (search_phase orig orig anim s Hwf Ho Ho) as (n & s1 & E1 & P1 & _).
  destruct (recon_same_node g orig (length (g_nodes g)) anim None s1) as (s' & E2 & P2).
  exists s'. unfold main_script. rewrite (bind_Ok _ _ _ _ _ E1). split; [done|]. by rewrite P2, P1.
Qed.

End Main.

(** ** The scenarios of the specification *)

(** Two parallel edges from 1 to 2: key 0 is 1000 m at 10 (weight 100),
    key 1 is 2000 m at 100 (weight 20). *)
Definition par_graph : Graph :=
  mkGraph [1; 2] [mkEdge 1 2 0 1000 10 (1000 / inject_Z 10); mkEdge 1 2 1 2000 100 (2000 / inject_Z 100)].

(** The scenario of the specification (A=1, B=2, C=3, D=4): the
    search finalizes D at distance 40 and the script prints a distance of
    2 km, an average speed of 50 and a time of 2.4 minutes. *)
Example spec_scenario :
  match main_script (F := ListHeap) spec_graph 1 4 false (blank_state [1; 2; 3; 4]) with
  | Ok _ s' => dist_of (nattr s') 4 = Fin (100000 # 2500) /\ (100000 # 2500 == 40)%Q /\
      exists km avg t, printed s' = [PDistance km; PAvgSpeed avg; PTotalTime t] /\
        (km == 2)%Q /\ (avg == 50)%Q /\ (t == 12 # 5)%Q
  | _ => False
  end.
Proof.
  vm_compute. split; [reflexivity|]. split; [reflexivity|].
  do 3 eexists. split; [reflexivity|]. vm_compute. auto.
Qed.

(** With parallel edges, the search reaches node 2 through the faster
    edge of key 1 (distance 20), but [reconstruct_path] reads the edge of
    key 0 ([G.edges[(prev, curr, 0)]]) and reports its 1 km, speed 10 and
    6 minutes, where the route the search chose is 2 km at 100, 1.2
    minutes. *)
Example parallel_edges_key0 :
  match main_script (F := ListHeap) par_graph 1 2 false (blank_state [1; 2]) with
  | Ok _ s' => dist_of (nattr s') 2 = Fin (2000 / inject_Z 100) /\ (2000 / inject_Z 100 == 20)%Q /\
      exists km avg t, printed s' = [PDistance km; PAvgSpeed avg; PTotalTime t] /\
        (km == 1)%Q /\ (avg == 10)%Q /\ (t == 6)%Q
  | _ => False
  end.
Proof.
  vm_compute. split; [reflexivity|]. split; [reflexivity|].
  do 3 eexists. split; [reflexivity|]. vm_compute. auto.
Qed.

Lemma main_reachable_witness :
  exists r s' km avg t,
    main_script (F := ListHeap) spec_graph 1 4 false (blank_state [1; 2; 3; 4]) = Ok tt s' /\
    walk spec_graph 1 r 4 /\
    printed s' = printed (blank_state [1; 2; 3; 4]) ++ [PDistance km; PAvgSpeed avg; PTotalTime t] /\
    (km == route_length r / 1000)%Q /\
    (avg == inject_Z (sumZ (e_maxspeed <$> r)) / inject_Z (Z.of_nat (length r)))%Q /\
    (t == km / avg * 60)%Q /\
    (simple_graph spec_graph -> shortest spec_graph 1 4 (pweight r)).
Proof.
  apply (main_reachable (F := ListHeap) spec_graph); solve_graph_hyps; [lia|].
  exists [road 1 2 1000 50; road 2 4 1000 50].
  refine (walk_cons _ (road 1 2 1000 50) _ _ _ (walk_cons _ (road 2 4 1000 50) _ _ _ (walk_nil _ _)));
    apply (bool_decide_unpack (_ ∈ _)); vm_compute; exact I.
Defined.

Lemma main_unreachable_witness :
  exists s', main_script (F := ListHeap) cut_graph 1 3 false (blank_state [1; 2; 3]) = Ok tt s' /\
    printed s' = printed (blank_state [1; 2; 3]) ++ [PUnaccessible] /\ stage s' = Reconstructing.
Proof.
  apply (main_unreachable (F := ListHeap) cut_graph); solve_graph_hyps.
  intros es Hw. apply (walk_closed cut_graph [1; 2]) in Hw;
    [|apply (bool_decide_unpack (Forall _ _)); vm_compute; exact I|set_solver].
  set_solver.
Defined.

Lemma main_same_node_witness :
  exists s', main_script (F := ListHeap) spec_graph 1 1 true (blank_state [1; 2; 3; 4]) =
      Raise ZeroDivisionError s' /\
    printed s' = printed (blank_state [1; 2; 3; 4]) ++ [PDistance (0 / 1000)%Q].
Proof. apply (main_same_node (F := ListHeap) spec_graph); solve_graph_hyps. Defined.

End Pipeline.
