(* ===== verification/Frames.v ===== *)
(** * Frames: how many frames a run saves, and how they are numbered

    [save_frame] (lines 97-124) is the only operation that writes a frame:
    every other operation of [dijkstra] and [reconstruct_path] leaves the
    global [frame_count] and the frames written alone.  Two facts follow
    for the whole script [Pipeline.main_script]:
    - the frames stay numbered [0, 1, 2, ...] in the order they are saved
      (the names [frame_00000.png], ... of line 122 never repeat);
    - a run saves at most [2 |V| + 24] frames: one per node the search
      finalizes and 22 when it finds the destination (line 155), one per
      step back along [previous] and one at the end of the
      reconstruction. *)

From S2P Require Import Prelude Graph Snapshot Frontier Search Reconstruct Pipeline.
Local Open Scope nat_scope.

Module Frames.

Import Snapshot Frontier Search Reconstruct Pipeline.

(** ** What only [save_frame] changes *)

Definition fr_part (s : St) : nat * list Frame := (frame_count s, frames s).

Lemma keeps_fr_get_node n : keeps fr_part (get_node n).
Proof. intros s a s' E. unfold get_node in E. by destruct (nattr s !! n); invc E. Qed.

Lemma keeps_fr_update_node n f : keeps fr_part (update_node n f).
Proof. intros s a s' E. unfold update_node in E. by destruct (nattr s !! n); invc E. Qed.

Lemma keeps_fr_set_edge_style g k x : keeps fr_part (set_edge_style g k x).
Proof. intros s a s' E. unfold set_edge_style in E. by destruct (is_edge g k); invc E. Qed.

Lemma keeps_fr_set_stage x : keeps fr_part (set_stage x).
Proof. by apply keeps_modify. Qed.

Lemma keeps_fr_print x : keeps fr_part (print x).
Proof. by apply keeps_modify. Qed.

Lemma keeps_fr_count_use g alg k : keeps fr_part (count_use g alg k).
Proof.
  intros s a s' E. unfold count_use in E. destruct alg as [x|]; [|by invc E].
  destruct (String.eqb x ""); [by invc E|]. by destruct (is_edge g k); invc E.
Qed.

(** Whether the frames are numbered in order. *)
Definition numbered_b (s : St) : bool := bool_decide (frames_numbered s).

Lemma keeps_numbered_save_frame step : keeps numbered_b (save_frame step).
Proof.
  intros s a s' E. unfold save_frame in E. destruct (sample (stage s) step); invc E; [|done].
  unfold numbered_b, frames_numbered. apply bool_decide_ext. cbn [add_frame frames frame_count].
  rewrite fmap_app, seq_S. split; [|by intros ->]. intros H. by apply app_inj_tail in H as [? _].
Qed.

(** The counter and the numbering are read off [fr_part]. *)
Lemma keeps_fc_of {A} (m : PyM St A) : keeps fr_part m -> keeps frame_count m.
Proof. intros H s a s' E. specialize (H s a s' E). by injection H. Qed.

Lemma keeps_numbered_of {A} (m : PyM St A) : keeps fr_part m -> keeps numbered_b m.
Proof.
  intros H s a s' E. specialize (H s a s' E). unfold fr_part in H.
  unfold numbered_b, frames_numbered. by injection H as -> ->.
Qed.

#[local] Hint Resolve keeps_fc_of keeps_numbered_of keeps_fr_get_node keeps_fr_update_node
  keeps_fr_set_edge_style keeps_fr_set_stage keeps_fr_print keeps_fr_count_use keeps_numbered_save_frame : keeps.

#[local] Hint Resolve keeps_adj_edges keeps_get_edge : keeps.

Lemma adds_save_frame step : adds frame_count 1 (save_frame step).
Proof. intros s a s' E. unfold save_frame in E. destruct (sample (stage s) step); invc E; simpl; lia. Qed.

#[local] Hint Resolve adds_save_frame : adds.

Section Run.

Context {F : Type} `{FL : FrontierLaws F}.
Variable g : Graph.

(** ** The numbering *)

Lemma keeps_numbered_main_script orig dest anim : keeps numbered_b (main_script g orig dest anim).
Proof.
  unfold main_script. apply keeps_bind; [|intros _].
  - apply keeps_search; auto with keeps.
  - apply keeps_reconstruct_path; auto with keeps.
Qed.

(** ** The count *)

(** One iteration of [while pq:] saves at most one frame per step it
    counts, or at most 22 when it returns. *)
Lemma body_frames dest anim (pq : F) step s r s' :
  dijkstra_body g dest anim pq step s = Ok r s' ->
  match r with
  | inl (_, step') => step <= step' /\ frame_count s' + step <= frame_count s + step'
  | inr n => n = step /\ frame_count s' <= frame_count s + 22
  end.
Proof.
  unfold dijkstra_body. destruct (heappop pq) as [[[? node] pq1]|]; [|intros E; invc E; lia].
  case_decide.
  - intros (? & s1 & E1 & (? & s2 & E2 & E3)%bind_Ok_inv)%bind_Ok_inv. invc E3. split; [done|].
    assert (A1 : frame_count s1 = frame_count s) by (eapply keeps_fc_of; [apply keeps_fr_set_stage|exact E1]).
    assert (A2 : adds frame_count 22 (if anim then repeat_m 22 (save_frame step) else save_frame step)).
    { destruct anim; [apply (adds_repeat_m _ 22 1), adds_save_frame|].
      eapply adds_mono; [|apply adds_save_frame]. lia. }
    specialize (A2 _ _ _ E2). lia.
  - intros (a & s1 & E1 & E2)%bind_Ok_inv.
    assert (A1 : frame_count s1 = frame_count s) by (eapply keeps_fc_of; [apply keeps_fr_get_node|exact E1]).
    destruct (visited a); [invc E2; lia|].
    apply bind_Ok_inv in E2 as (? & s2 & E2 & (pq2 & s3 & E3 & (? & s4 & E4 & E5)%bind_Ok_inv)%bind_Ok_inv).
    invc E5.
    assert (A2 : frame_count s2 = frame_count s1).
    { unfold mark_visited in E2. eapply keeps_fc_of; [apply keeps_fr_update_node|exact E2]. }
    assert (A3 : frame_count s3 = frame_count s2).
    { eapply (keeps_relax_edges g frame_count); [auto with keeps..|exact E3]. }
    assert (A4 : adds frame_count 1 (if anim then save_frame step else ret tt)) by (destruct anim; auto with adds).
    specialize (A4 _ _ _ E4). lia.
Qed.

Lemma loop_frames fuel dest anim (pq : F) step s n s' :
  dijkstra_loop g fuel dest anim pq step s = Ok n s' ->
  step <= n /\ frame_count s' + step <= frame_count s + n + 22.
Proof.
  revert pq step s. induction fuel as [|f IH]; intros pq step s E; [done|].
  cbn [dijkstra_loop] in E. apply bind_Ok_inv in E as (r & s1 & E1 & E2).
  pose proof (body_frames _ _ _ _ _ _ _ E1) as Hb.
  destruct r as [[pq' step']|m]; [destruct (IH _ _ _ E2); lia|]. invc E2. lia.
Qed.

(** The search saves at most one frame per node it finalizes, and 22 more. *)
Lemma dijkstra_frames fuel orig dest anim s n s' :
  dijkstra g fuel orig dest anim s = Ok n s' -> frame_count s' <= frame_count s + n + 22.
Proof.
  unfold dijkstra. intros (pq & s1 & E1 & E2)%bind_Ok_inv.
  assert (A : keeps frame_count (dijkstra_init g orig dest)).
  { unfold dijkstra_init, reset_nodes, set_distance. keeps_solve. by apply keeps_modify. }
  specialize (A _ _ _ E1). destruct (loop_frames _ _ _ _ _ _ _ _ E2). lia.
Qed.

(** The walk back saves at most one frame per step, and one at the end. *)
Lemma adds_recon_loop fuel orig anim alg curr dist speeds step :
  adds frame_count fuel (recon_loop g fuel orig anim alg curr dist speeds step).
Proof.
  revert curr dist speeds step. induction fuel as [|f IH]; intros curr dist speeds step; [by intros ???|].
  cbn [recon_loop]. case_decide; [apply adds_ret|].
  apply (adds_bind _ 1 f); [|intros [[[[p d'] sp'] st']|]; [apply IH|apply adds_ret]].
  unfold recon_body. adds_solve.
Qed.

Lemma adds_reconstruct_path fuel orig dest anim alg :
  adds frame_count (fuel + 1) (reconstruct_path g fuel orig dest anim alg).
Proof.
  unfold reconstruct_path, mean_speed. apply adds_bind_keeps; [keeps_solve|intros _].
  apply adds_bind_keeps; [keeps_solve|intros _].
  apply adds_bind; [apply adds_recon_loop|intros [[[dist speeds] step]|]; [|apply adds_ret]].
  adds_solve.
Qed.

(** The frames of a run of the script stay numbered in order. *)
Lemma main_script_numbered orig dest anim s s' :
  frames_numbered s -> main_script g orig dest anim s = Ok tt s' -> frames_numbered s'.
Proof.
  intros Hn E. pose proof (keeps_numbered_main_script orig dest anim s tt s' E) as Hk.
  unfold numbered_b in Hk. rewrite (bool_decide_eq_true_2 _ Hn) in Hk. by apply bool_decide_eq_true in Hk.
Qed.

(** C12: A run of the script on a graph with [|V|] nodes, from any two of
    its nodes, saves at most [2 |V| + 24] frames, whatever [animation]
    is: at most one per node the search finalizes, 22 when it finds the
    destination, one per step back along [previous] and one at the end. *)
Theorem main_script_frames_bounded orig dest anim s s' :
  wf_graph g -> nonneg_weights g -> wf_state g s -> orig ∈ g_nodes g -> dest ∈ g_nodes g ->
  main_script g orig dest anim s = Ok tt s' ->
  frame_count s' <= frame_count s + 2 * length (g_nodes g) + 24.
Proof.
  intros Hg Hw Hwf Ho Hd. unfold main_script. intros (n & s1 & E1 & E2)%bind_Ok_inv.
  destruct (dijkstra_total g orig dest Hg Hw (dijkstra_fuel g) anim s Hwf Ho Hd) as (n0 & s0 & E0 & Hpost);
    [done|].
  rewrite E0 in E1. injection E1 as <- <-. apply dpost_steps_le in Hpost.
  pose proof (dijkstra_frames _ _ _ _ _ _ _ E0). pose proof (adds_reconstruct_path _ _ _ _ _ _ _ _ E2).
  unfold recon_fuel in *. lia.
Qed.

End Run.

(** ** Witness on the scenario of [Search] *)

(** The state after the script from node 1 to node 4, animated. *)
Definition spec_script_state : St :=
  match main_script (F := ListHeap) spec_graph 1 4 true (blank_state [1; 2; 3; 4]) with
  | Ok _ s => s
  | _ => blank_state []
  end.

Lemma main_script_frames_bounded_witness :
  main_script (F := ListHeap) spec_graph 1 4 true (blank_state [1; 2; 3; 4]) = Ok tt spec_script_state /\
  frame_count spec_script_state <= frame_count (blank_state [1; 2; 3; 4]) + 2 * length (g_nodes spec_graph) + 24.
Proof.
  assert (E : main_script (F := ListHeap) spec_graph 1 4 true (blank_state [1; 2; 3; 4]) = Ok tt spec_script_state)
    by (vm_compute; reflexivity).
  split; [exact E|]. apply (main_script_frames_bounded spec_graph 1 4 true _ _); solve_graph_hyps. exact E.
Defined.

End Frames.
