(* ===== verification/Program.v ===== *)
(** * Program: the whole script, main.py lines 15-24 and 246-253

    The script makes the frames folder ([os.makedirs], line 23), starts
    with the globals [stage = "finding"] and [frame_count = 0] (lines
    21-24), runs [dijkstra] and [reconstruct_path] between the two drawn
    nodes (lines 249-250, [Pipeline.main_script]) and, since
    [animation = True], turns the frames into [output.mp4] with
    [generate_video] (lines 252-253).

    The state of the program is the pair of the script's state [St] and
    the file system [Disk].  The searches do not read the disk; each frame
    [save_frame] records is written by [plt.savefig] into the folder
    (line 122), which [with_frames] does, in order, for the frames a
    computation recorded, also when it ends by raising.

    The theorems compose the search and reconstruction ([Pipeline]), the
    frame count ([Frames]) and the video ([Disk]): on a graph of fewer
    than 49988 nodes the video shows every frame of the run in the order
    it was saved; a [.png] file an earlier run left in the folder is in
    the video too, unless the run writes over it; when [start = end] the
    run raises before [generate_video] and leaves its frames in the
    folder. *)

From S2P Require Import Prelude PyString Graph Snapshot Disk Frontier Search Reconstruct Pipeline Frames.
Local Open Scope nat_scope.

Module Program.

Import PyString Snapshot Disk Frontier Search Reconstruct Pipeline Frames.

(** A computation on the file system, in the program's state. *)
Definition on_disk {A} (m : PyM Disk A) : PyM (St * Disk) A :=
  fun sk => match m sk.2 with
            | Ok a k => Ok a (sk.1, k)
            | Raise e k => Raise e (sk.1, k)
            | OutOfFuel => OutOfFuel
            end.

(** A computation of the script, with the frames it records written to
    the frames folder in the order it recorded them (line 122). *)
Definition with_frames {A} (m : PyM St A) : PyM (St * Disk) A :=
  fun sk =>
    let new s' := drop (length (frames sk.1)) (frames s') in
    match m sk.1 with
    | Ok a s' =>
        match write_frames frames_folder (new s') sk.2 with
        | Ok _ k' => Ok a (s', k')
        | Raise e k' => Raise e (s', k')
        | OutOfFuel => OutOfFuel
        end
    | Raise e s' =>
        match write_frames frames_folder (new s') sk.2 with
        | Ok _ k' => Raise e (s', k')
        | Raise e' k' => Raise e' (s', k')
        | OutOfFuel => OutOfFuel
        end
    | OutOfFuel => OutOfFuel
    end.

(** The video file of line 253. *)
Definition output_video : string := "output.mp4".

Section Program.

Context {F : Type} `{FL : FrontierLaws F}.
Variable g : Graph.

(** Lines 23 and 249-253, for the drawn [start] and [end]. *)
Definition program (start end_ : node) : PyM (St * Disk) unit :=
  on_disk (makedirs frames_folder) ;;;
  with_frames (main_script g start end_ animation) ;;;
  if animation then on_disk (generate_video frames_folder output_video) else ret tt.

(** The state of lines 21-24: every node with a dictionary, stage
    [finding], no frame yet. *)
Definition init_state : St := blank_state (g_nodes g).

Lemma init_state_wf : wf_state g init_state.
Proof.
  apply wf_nodes_dom. unfold init_state, blank_state. simpl. rewrite dom_list_to_map_L.
  f_equal. rewrite <- list_fmap_compose. apply list_fmap_id.
Qed.

Lemma with_frames_Ok {A} (m : PyM St A) s k a s' :
  frames s = [] -> frames_folder ∈ dirs k -> m s = Ok a s' ->
  with_frames m (s, k) = Ok a (s', set_files (written frames_folder (frames s') (files k)) k).
Proof.
  intros Hf Hd E. unfold with_frames. simpl. rewrite E, Hf. simpl. by rewrite write_frames_Ok.
Qed.

Lemma with_frames_Raise {A} (m : PyM St A) s k e s' :
  frames s = [] -> frames_folder ∈ dirs k -> m s = Raise e s' ->
  with_frames m (s, k) = Raise e (s', set_files (written frames_folder (frames s') (files k)) k).
Proof.
  intros Hf Hd E. unfold with_frames. simpl. rewrite E, Hf. simpl. by rewrite write_frames_Ok.
Qed.

Hypothesis Hg : wf_graph g.
Hypothesis Hpos : pos_weights g.
Hypothesis Hk0 : keys_from_zero g.

(** Between two different nodes joined by a path, the script returns. *)
Lemma main_returns anim orig dest s :
  pos_speeds g -> wf_state g s -> orig ∈ g_nodes g -> dest ∈ g_nodes g -> orig <> dest ->
  (exists es, walk g orig es dest) -> exists s', main_script g orig dest anim s = Ok tt s'.
Proof.
  intros Hspd Hwf Ho Hd Hne [es Hes].
  destruct (search_phase g Hg Hpos orig dest anim s Hwf Ho Hd) as (n & s1 & E1 & _ & _ & _ & _ & Htree & Hend).
  destruct Hend as [[_ [(d & Hdd & _) _]]|[_ Hno]]; [|by destruct (Hno es)].
  destruct (recon_reached g orig Hg Hpos Hk0 Hspd anim None dest d s1 Htree Hdd (not_eq_sym Hne))
    as (r & s' & _ & _ & _ & E2 & _).
  exists s'. unfold main_script. by rewrite (bind_Ok _ _ _ _ _ E1).
Qed.

Lemma makedirs_Ok s k :
  on_disk (makedirs frames_folder) (s, k) = Ok tt (s, set_dirs ({[frames_folder]} ∪ dirs k) k).
Proof. reflexivity. Qed.

Lemma frames_folder_made k : frames_folder ∈ dirs (set_dirs ({[frames_folder]} ∪ dirs k) k).
Proof. apply elem_of_union_l, elem_of_singleton. reflexivity. Qed.

(** C4: End to end, the video: on a graph of at most 49988 nodes, between
    two different nodes joined by a path, and with no file left in the
    frames folder [Try] by an earlier run, the program returns; the
    frames the run saved are numbered [0, 1, ...] in the order they were
    saved, [output.mp4] holds exactly those frames in that order at 40
    frames per second, the folder is gone and the two messages of
    [generate_video] are printed. *)
Theorem program_video start end_ k :
  pos_speeds g -> start ∈ g_nodes g -> end_ ∈ g_nodes g -> start <> end_ ->
  (exists es, walk g start es end_) -> 2 * length (g_nodes g) + 24 <= 10 ^ 5 ->
  (forall p f, files k !! p = Some f -> strip_prefix (String.append frames_folder "/") p = None) ->
  exists s' k', program start end_ (init_state, k) = Ok tt (s', k') /\
    fr_index <$> frames s' = seq 0 (length (frames s')) /\
    videos k' !! output_video = Some (fps, frames s') /\ (frames_folder ∉ dirs k') /\
    console k' = console k ++
      [String.append "Video generado exitosamente: " output_video; "Carpeta de frames eliminada."].
Proof.
  intros Hspd Ho Hd Hne Hw Hsz He.
  destruct (main_returns animation start end_ init_state Hspd init_state_wf Ho Hd Hne Hw) as [s' E].
  assert (Hnum : frames_numbered s') by (eapply main_script_numbered; [|exact E]; reflexivity).
  pose proof (main_script_frames_bounded g start end_ animation init_state s' Hg (pos_nonneg_weights g Hpos)
    init_state_wf Ho Hd E) as Hcnt.
  assert (Hix : fr_index <$> frames s' = seq 0 (length (frames s'))).
  { rewrite Hnum. f_equal. by rewrite <- (length_fmap fr_index), Hnum, length_seq. }
  set (k1 := set_dirs ({[frames_folder]} ∪ dirs k) k).
  destruct (video_in_saved_order frames_folder output_video (frames s') k1) as (k' & Ev & Hv & Hnd & _ & Hc).
  { split; [apply frames_folder_made|exact He]. }
  { done. }
  { rewrite <- (length_fmap fr_index), Hnum, length_seq. simpl in Hcnt. lia. }
  exists s', k'. split_and!; try done.
  unfold program, bind at 1. rewrite makedirs_Ok. fold k1.
  unfold bind at 1. rewrite (with_frames_Ok _ init_state k1 tt s') by (done || apply frames_folder_made).
  unfold bind in Ev. rewrite write_frames_Ok in Ev by apply frames_folder_made.
  change animation with true. unfold on_disk. cbn [fst snd]. by rewrite Ev.
Qed.

(** C14: Error path: when [random.choice] draws the same node twice, the
    run raises [ZeroDivisionError] in [reconstruct_path] (line 220), so
    [generate_video] is never called: no video is made, the folder [Try]
    stays, and every frame the run saved stays in it under its name. *)
Theorem program_same_node start k :
  start ∈ g_nodes g ->
  exists s' k', program start start (init_state, k) = Raise ZeroDivisionError (s', k') /\
    frames_folder ∈ dirs k' /\ videos k' = videos k /\
    files k' = written frames_folder (frames s') (files k).
Proof.
  intros Ho.
  destruct (search_phase g Hg Hpos start start animation init_state init_state_wf Ho Ho) as (n & s1 & E1 & _).
  destruct (recon_same_node g start (length (g_nodes g)) animation None s1) as (s' & E2 & _).
  assert (E : main_script g start start animation init_state = Raise ZeroDivisionError s').
  { unfold main_script. rewrite (bind_Ok _ _ _ _ _ E1). exact E2. }
  eexists s', _. unfold program, bind at 1. rewrite makedirs_Ok.
  unfold bind at 1. rewrite (with_frames_Raise _ init_state _ ZeroDivisionError s')
    by (done || apply frames_folder_made).
  split; [reflexivity|]. split_and!; [apply frames_folder_made|done|done].
Qed.

(** C15: Nothing empties the frames folder before a run: [os.makedirs]
    with [exist_ok=True] (line 23) keeps the files an earlier run left in
    [Try] (one that raised before [generate_video], as in [program_same_node]).  Every
    such [.png] file whose name the run does not write over ends up in
    [output.mp4] with the frames of this run. *)
Theorem program_stale_frame start end_ k name f :
  pos_speeds g -> start ∈ g_nodes g -> end_ ∈ g_nodes g -> start <> end_ ->
  (exists es, walk g start es end_) ->
  files k !! path_join frames_folder name = Some f -> no_slash name = true -> ends_with ".png" name = true ->
  exists s' k' vs, program start end_ (init_state, k) = Ok tt (s', k') /\
    videos k' !! output_video = Some (fps, vs) /\
    (name ∉ frame_file <$> seq 0 (length (frames s')) -> f ∈ vs).
Proof.
  intros Hspd Ho Hd Hne Hw Hf Hn Hpng.
  destruct (main_returns animation start end_ init_state Hspd init_state_wf Ho Hd Hne Hw) as [s' E].
  assert (Hnum : frames_numbered s') by (eapply main_script_numbered; [|exact E]; reflexivity).
  assert (Hix : fr_index <$> frames s' = seq 0 (length (frames s'))).
  { rewrite Hnum. f_equal. by rewrite <- (length_fmap fr_index), Hnum, length_seq. }
  set (k1 := set_dirs ({[frames_folder]} ∪ dirs k) k).
  set (k2 := set_files (written frames_folder (frames s') (files k1)) k1).
  destruct (generate_video_reads frames_folder output_video k2) as (k' & vs & Eg & Hv & Hin);
    [apply frames_folder_made|].
  exists s', k', vs. split_and!; [|done|].
  - unfold program, bind at 1. rewrite makedirs_Ok. fold k1.
    unfold bind at 1. rewrite (with_frames_Ok _ init_state k1 tt s') by (done || apply frames_folder_made).
    fold k2. change animation with true. unfold on_disk. cbn [fst snd]. by rewrite Eg.
  - intros Hno. apply (Hin name f); [|done|done]. unfold k2. simpl. by rewrite written_stale.
Qed.

End Program.

(** ** Witnesses on the scenario of [Search] *)

Definition blank_disk : Disk := mkDisk ∅ ∅ ∅ [].

Lemma program_video_witness :
  exists s' k', program (F := ListHeap) spec_graph 1 4 (init_state spec_graph, blank_disk) = Ok tt (s', k') /\
    fr_index <$> frames s' = seq 0 (length (frames s')) /\
    videos k' !! output_video = Some (fps, frames s') /\ (frames_folder ∉ dirs k') /\
    console k' = console blank_disk ++
      [String.append "Video generado exitosamente: " output_video; "Carpeta de frames eliminada."].
Proof.
  apply (program_video (F := ListHeap) spec_graph); try (apply Nat.leb_le; vm_compute; reflexivity);
    solve_graph_hyps.
  - lia.
  - exists [road 1 2 1000 50; road 2 4 1000 50].
    refine (walk_cons _ (road 1 2 1000 50) _ _ _ (walk_cons _ (road 2 4 1000 50) _ _ _ (walk_nil _ _)));
      apply (bool_decide_unpack (_ ∈ _)); vm_compute; exact I.
  - intros p f Hp. unfold blank_disk in Hp. simpl in Hp. by rewrite lookup_empty in Hp.
Defined.

Lemma program_same_node_witness :
  exists s' k', program (F := ListHeap) spec_graph 1 1 (init_state spec_graph, blank_disk) =
      Raise ZeroDivisionError (s', k') /\
    frames_folder ∈ dirs k' /\ videos k' = videos blank_disk /\
    files k' = written frames_folder (frames s') (files blank_disk).
Proof. apply (program_same_node (F := ListHeap) spec_graph); solve_graph_hyps. Defined.

(** A frame an earlier, longer run left in the folder. *)
Definition old_frame : Frame := mkFrame 500 ∅ [(7, 25, "#FFFFFF")].

Definition stale_disk : Disk := mkDisk {[frame_path frames_folder 500 := old_frame]} {[frames_folder]} ∅ [].

Lemma program_stale_frame_witness :
  exists s' k' vs, program (F := ListHeap) spec_graph 1 4 (init_state spec_graph, stale_disk) = Ok tt (s', k') /\
    videos k' !! output_video = Some (fps, vs) /\
    (frame_file 500 ∉ frame_file <$> seq 0 (length (frames s')) -> old_frame ∈ vs).
Proof.
  apply (program_stale_frame (F := ListHeap) spec_graph); solve_graph_hyps.
  - lia.
  - exists [road 1 2 1000 50; road 2 4 1000 50].
    refine (walk_cons _ (road 1 2 1000 50) _ _ _ (walk_cons _ (road 2 4 1000 50) _ _ _ (walk_nil _ _)));
      apply (bool_decide_unpack (_ ∈ _)); vm_compute; exact I.
  - vm_compute. reflexivity.
  - vm_compute. reflexivity.
  - vm_compute. reflexivity.
Defined.

End Program.
