(* ===== verification/Determinism.v ===== *)
(** * Determinism: what a run of [dijkstra] depends on

    [dijkstra] reads, of the node dictionaries, only the search fields
    [visited], [distance] and [previous], and it resets them first (lines
    131-135).  Two runs from states holding the same nodes therefore end
    alike: the same result or exception, the same step count, the same
    stage, and the same search fields everywhere, whatever the display
    fields ([size], [highlight], [color]), the edge styles or the frames
    were.  In particular running [dijkstra] a second time on its own result
    reproduces the same [distance] and [previous] assignments, the
    idempotence the specification asks for.  The same holds of the whole
    script ([Pipeline.main_script]): [reconstruct_path] reads only the
    [previous] fields, so a second run prints exactly the lines of the
    first, the same route metrics.

    The equivalence [attr_equiv] identifies node dictionaries with the same
    search fields; it is an [Equivalence] and the readers [dist_of],
    [vis_of], [prev_of] are [Proper] for it.  The proofs run the two
    executions side by side with the relational reading [rel] of the monad
    (Prelude), the state relation [srel] parameterized by how the two
    printed logs relate. *)

From S2P Require Import Prelude Graph Snapshot Frontier Search Reconstruct Pipeline.
From Stdlib Require Import Morphisms.
Local Open Scope nat_scope.

Module Determinism.

Import Snapshot Frontier Search Reconstruct Pipeline.

(** ** Node dictionaries with the same search fields *)

Definition strip (a : NodeAttr) : bool * Dist * option node := (visited a, distance a, previous a).

Definition same_fields (a b : NodeAttr) : Prop := strip a = strip b.

Definition attr_equiv (m1 m2 : gmap node NodeAttr) : Prop :=
  forall n, strip <$> m1 !! n = strip <$> m2 !! n.

#[export] Instance attr_equiv_equiv : Equivalence attr_equiv.
Proof.
  split.
  - by intros m n.
  - intros m1 m2 H n. by rewrite H.
  - intros m1 m2 m3 H1 H2 n. by rewrite H1, H2.
Qed.

#[export] Instance dist_of_proper : Proper (attr_equiv ==> eq ==> eq) dist_of.
Proof.
  intros m1 m2 H n ? <-. specialize (H n). unfold dist_of.
  destruct (m1 !! n), (m2 !! n); simplify_eq/=; done.
Qed.

#[export] Instance vis_of_proper : Proper (attr_equiv ==> eq ==> eq) vis_of.
Proof.
  intros m1 m2 H n ? <-. specialize (H n). unfold vis_of.
  destruct (m1 !! n), (m2 !! n); simplify_eq/=; done.
Qed.

#[export] Instance prev_of_proper : Proper (attr_equiv ==> eq ==> eq) prev_of.
Proof.
  intros m1 m2 H n ? <-. specialize (H n). unfold prev_of.
  destruct (m1 !! n), (m2 !! n); simplify_eq/=; done.
Qed.

#[export] Instance insert_proper n : Proper (same_fields ==> attr_equiv ==> attr_equiv) (insert n).
Proof.
  intros a b Hab m1 m2 H k. rewrite !lookup_insert. case_decide; simpl; [by rewrite Hab|apply H].
Qed.

Lemma attr_equiv_fields m1 m2 :
  attr_equiv m1 m2 <-> forall n, dist_of m1 n = dist_of m2 n /\ vis_of m1 n = vis_of m2 n /\
                                 prev_of m1 n = prev_of m2 n /\ (is_Some (m1 !! n) <-> is_Some (m2 !! n)).
Proof.
  split.
  - intros H n. split_and!; [exact (dist_of_proper _ _ H n n eq_refl)|exact (vis_of_proper _ _ H n n eq_refl)|
      exact (prev_of_proper _ _ H n n eq_refl)|]. specialize (H n).
    destruct (m1 !! n), (m2 !! n); simplify_eq/=; split; intros; by eauto.
  - intros H n. destruct (H n) as (D & V & P & S). unfold dist_of, vis_of, prev_of in *.
    destruct (m1 !! n), (m2 !! n); simpl in *; [|by destruct (proj1 S ltac:(by eexists))|
      by destruct (proj2 S ltac:(by eexists))|done].
    unfold strip. by rewrite D, V, P.
Qed.

(** The states of two runs: same search fields, same stage, and printed
    logs related by [LR]. *)
Definition srel (LR : list Printed -> list Printed -> Prop) (s1 s2 : St) : Prop :=
  attr_equiv (nattr s1) (nattr s2) /\ stage s1 = stage s2 /\ LR (printed s1) (printed s2).

(** ** The primitives, run twice *)

Section Prims.

Variable LR : list Printed -> list Printed -> Prop.

Lemma rel_get_node n : rel (srel LR) same_fields (get_node n) (get_node n).
Proof.
  intros s1 s2 Hr. pose proof Hr as (He & Hs & Hp). unfold get_node. specialize (He n).
  destruct (nattr s1 !! n), (nattr s2 !! n); simpl in He; try discriminate; [|by split].
  split; [|exact Hr]. unfold same_fields. congruence.
Qed.

Lemma rel_update_node n f :
  (forall a b, same_fields a b -> same_fields (f a) (f b)) ->
  rel (srel LR) eq (update_node n f) (update_node n f).
Proof.
  intros Hf s1 s2 Hr. pose proof Hr as (He & Hs & Hp). unfold update_node. pose proof (He n) as Hn.
  destruct (nattr s1 !! n) as [a|] eqn:E1, (nattr s2 !! n) as [b|] eqn:E2; simpl in Hn;
    try discriminate; [|by split].
  assert (Hab : same_fields a b) by (unfold same_fields; congruence).
  split; [done|]. split_and!; [|done|done]. simpl. apply insert_proper; [by apply Hf|done].
Qed.

Lemma rel_set_edge_style g k x : rel (srel LR) eq (set_edge_style g k x) (set_edge_style g k x).
Proof. intros s1 s2 Hr. unfold set_edge_style. by destruct (is_edge g k). Qed.

Lemma rel_set_stage x : rel (srel LR) eq (set_stage x) (set_stage x).
Proof. apply rel_modify. intros s1 s2 (He & _ & Hp). by split_and!. Qed.

Lemma rel_save_frame step : rel (srel LR) eq (save_frame step) (save_frame step).
Proof.
  intros s1 s2 Hr. pose proof Hr as (He & Hs & Hp). unfold save_frame. rewrite Hs.
  destruct (sample (stage s2) step); (split; [done|]); [by split_and!|exact Hr].
Qed.

(** A line printed by both runs keeps their logs related. *)
Lemma rel_print x :
  (forall p1 p2, LR p1 p2 -> LR (p1 ++ [x]) (p2 ++ [x])) -> rel (srel LR) eq (print x) (print x).
Proof. intros Hx. apply rel_modify. intros s1 s2 (He & Hs & Hp). split_and!; simpl; auto. Qed.

Lemma rel_py_div x y : rel (srel LR) eq (py_div x y) (py_div x y).
Proof. intros s1 s2 Hr. unfold py_div. by destruct (Qeq_bool y 0). Qed.

End Prims.

(** After a [same_fields] read, the two programs read the same fields. *)
Ltac rel_post H :=
  lazymatch type of H with
  | same_fields _ _ =>
      unfold same_fields, strip in H; injection H as ?H1 ?H2 ?H3;
      repeat match goal with
             | E : visited _ = visited _ |- _ => rewrite E; clear E
             | E : distance _ = distance _ |- _ => rewrite E; clear E
             | E : previous _ = previous _ |- _ => rewrite E; clear E
             end
  | _ = _ => subst
  end.

Ltac rel_prim ext :=
  first
    [ apply rel_get_node
    | apply rel_update_node; unfold same_fields, strip; intros ?? ?Hab; simpl in *; congruence
    | apply rel_set_edge_style
    | apply rel_set_stage
    | apply rel_save_frame
    | ext ].

(** Run the two copies of a computation in lockstep. *)
Ltac rel_solve ext :=
  repeat first
    [ progress cbv zeta
    | apply rel_ret; reflexivity
    | apply (rel_ret _ eq); reflexivity
    | apply rel_raise
    | apply rel_fuel
    | apply rel_for_each; intros ?
    | apply rel_repeat_m
    | eapply rel_bind; [solve [rel_solve ext]|]; intros ?a ?b ?Hq; rel_post Hq
    | progress case_match
    | rel_prim ext ].

(** ** The search, run twice *)

Section Runs.

Context {F : Type} `{Frontier F}.
Variable g : Graph.
Variable LR : list Printed -> list Printed -> Prop.

Lemma rel_relax_edges u es (pq : F) : rel (srel LR) eq (relax_edges g u es pq) (relax_edges g u es pq).
Proof.
  revert pq. induction es as [|e es IH]; intros pq; simpl; [by apply rel_ret|].
  eapply rel_bind; [|intros ?? ->; apply IH].
  unfold relax_edge, set_distance, set_previous, style_active_out. rel_solve fail.
Qed.

Lemma rel_dijkstra_loop fuel dest anim (pq : F) step :
  rel (srel LR) eq (dijkstra_loop g fuel dest anim pq step) (dijkstra_loop g fuel dest anim pq step).
Proof.
  revert pq step. induction fuel as [|f IH]; intros pq step; simpl; [apply rel_fuel|].
  eapply rel_bind; [|intros r ? <-; destruct r as [[pq' step']|n]; [apply IH|by apply rel_ret]].
  unfold dijkstra_body, mark_visited. rel_solve ltac:(apply rel_relax_edges).
Qed.

(** States holding the same nodes, whatever their fields. *)
Definition same_nodes (s1 s2 : St) : Prop := forall n, is_Some (nattr s1 !! n) <-> is_Some (nattr s2 !! n).

(** Lines 128-135 turn states with the same nodes into related ones. *)
Lemma reset_same_nodes s1 s2 x :
  same_nodes s1 s2 -> LR (printed s1) (printed s2) ->
  srel LR (set_nattr (reset_attr <$> nattr (set_stage_st x s1)) (set_stage_st x s1))
       (set_nattr (reset_attr <$> nattr (set_stage_st x s2)) (set_stage_st x s2)).
Proof.
  intros Hn Hp. split_and!; [|done|done]. intros n. simpl. rewrite !lookup_fmap.
  specialize (Hn n). destruct (nattr s1 !! n), (nattr s2 !! n); try done;
    [by destruct (proj1 Hn ltac:(by eexists))|by destruct (proj2 Hn ltac:(by eexists))].
Qed.

(** [dijkstra] is its reset (lines 128-135) followed by the rest. *)
Lemma dijkstra_after_reset fuel orig dest anim s :
  dijkstra g fuel orig dest anim s =
  (pq <- (style_all_unvisited g ;;; set_distance orig (Fin 0) ;;; style_start_end orig ;;;
          style_start_end dest ;;; ret (heappush (Fin 0, orig) fr_empty)) ;;
   dijkstra_loop g fuel dest anim pq 0)
    (set_nattr (reset_attr <$> nattr (set_stage_st Finding s)) (set_stage_st Finding s)).
Proof. reflexivity. Qed.

Lemma rel_dijkstra fuel orig dest anim s1 s2 :
  same_nodes s1 s2 -> LR (printed s1) (printed s2) ->
  res_rel (srel LR) eq (dijkstra g fuel orig dest anim s1) (dijkstra g fuel orig dest anim s2).
Proof.
  intros Hn Hp. rewrite !dijkstra_after_reset.
  match goal with |- res_rel _ _ (?m _) (?m _) => enough (Hm : rel (srel LR) eq m m) end.
  { by apply Hm, reset_same_nodes. }
  unfold style_all_unvisited, set_distance, style_start_end.
  rel_solve ltac:(apply rel_dijkstra_loop).
Qed.

Lemma srel_fields t1 t2 :
  srel LR t1 t2 -> stage t1 = stage t2 /\
    forall v, dist_at t1 v = dist_at t2 v /\ vis_at t1 v = vis_at t2 v /\ prev_at t1 v = prev_at t2 v.
Proof.
  intros (He & Hs & _). split; [done|]. intros v.
  destruct (proj1 (attr_equiv_fields _ _) He v) as (D & V & P & _). done.
Qed.

End Runs.

(** C7: [dijkstra] depends, of its state, only on which nodes have a
    dictionary: from two states holding the same nodes (whatever their
    search and display fields, edge styles, stage or frames), two runs
    both return the same step count, or both raise the same exception, or
    both run out of fuel; and when they return, they end in the same stage
    with the same [distance], [visited] and [previous] on every node. *)
Theorem dijkstra_deterministic {F : Type} `{Frontier F} (g : Graph) fuel orig dest anim s1 s2 :
  same_nodes s1 s2 ->
  match dijkstra g fuel orig dest anim s1, dijkstra g fuel orig dest anim s2 with
  | Ok n1 t1, Ok n2 t2 => n1 = n2 /\ stage t1 = stage t2 /\
      forall v, dist_at t1 v = dist_at t2 v /\ vis_at t1 v = vis_at t2 v /\ prev_at t1 v = prev_at t2 v
  | Raise e1 _, Raise e2 _ => e1 = e2
  | OutOfFuel, OutOfFuel => True
  | _, _ => False
  end.
Proof.
  intros Hn. pose proof (rel_dijkstra g (fun _ _ => True) fuel orig dest anim s1 s2 Hn I) as Hr.
  destruct (dijkstra g fuel orig dest anim s1), (dijkstra g fuel orig dest anim s2); try done.
  - destruct Hr as [-> Ht]. split; [done|]. by apply (srel_fields (fun _ _ => True)).
  - by destruct Hr.
Qed.


(** ** The whole script, run twice *)

Section Script.

Context {F : Type} `{Frontier F}.
Variable g : Graph.
Variable LR : list Printed -> list Printed -> Prop.
Hypothesis LR_snoc : forall p1 p2 x, LR p1 p2 -> LR (p1 ++ [x]) (p2 ++ [x]).

Lemma rel_adj_edges u v : rel (srel LR) eq (adj_edges g u v) (adj_edges g u v).
Proof. intros s1 s2 Hr. unfold adj_edges. by destruct (edges_between g u v). Qed.

Lemma rel_get_edge k : rel (srel LR) eq (get_edge g k) (get_edge g k).
Proof. intros s1 s2 Hr. unfold get_edge. by destruct (find_edge g k). Qed.

Lemma rel_count_use alg k : rel (srel LR) eq (count_use g alg k) (count_use g alg k).
Proof.
  intros s1 s2 Hr. unfold count_use. destruct alg as [x|]; [|by split].
  destruct (String.eqb x ""); [by split|]. by destruct (is_edge g k).
Qed.

Ltac recon_prims :=
  first [ apply rel_adj_edges | apply rel_get_edge | apply rel_count_use | apply rel_py_div
        | apply rel_print; intros ??; apply LR_snoc ].

Lemma rel_recon_loop fuel orig anim alg curr dist speeds step :
  rel (srel LR) eq (recon_loop g fuel orig anim alg curr dist speeds step)
                   (recon_loop g fuel orig anim alg curr dist speeds step).
Proof.
  revert curr dist speeds step. induction fuel as [|f IH]; intros curr dist speeds step; simpl; [apply rel_fuel|].
  case_decide; [by apply rel_ret|].
  eapply rel_bind; [|intros r ? <-; destruct r as [[[[p d'] sp'] st']|]; [apply IH|by apply rel_ret]].
  unfold recon_body. rel_solve recon_prims.
Qed.

Lemma rel_main_script orig dest anim s1 s2 :
  same_nodes s1 s2 -> LR (printed s1) (printed s2) ->
  res_rel (srel LR) eq (main_script g orig dest anim s1) (main_script g orig dest anim s2).
Proof.
  intros Hn Hp. unfold main_script, bind.
  pose proof (rel_dijkstra g LR (dijkstra_fuel g) orig dest anim s1 s2 Hn Hp) as Hd.
  destruct (dijkstra g _ orig dest anim s1), (dijkstra g _ orig dest anim s2); try done.
  - destruct Hd as [_ Hr].
    match goal with |- res_rel _ _ (?m _) (?m _) => enough (Hm : rel (srel LR) eq m m) by (apply Hm; exact Hr) end.
    unfold reconstruct_path, mean_speed, style_all_unvisited.
    rel_solve ltac:(first [apply rel_recon_loop | recon_prims]).
Qed.

End Script.

Lemma keeps_nodes_main_script {F : Type} `{Frontier F} g orig dest anim :
  keeps nodes_of (main_script g orig dest anim).
Proof.
  apply keeps_bind; [apply keeps_nodes_dijkstra|]. intros _. apply keeps_nodes_reconstruct_path.
Qed.

Lemma same_nodes_of s1 s2 : nodes_of s1 = nodes_of s2 -> same_nodes s1 s2.
Proof. unfold nodes_of. intros E n. by rewrite <- !elem_of_dom, E. Qed.

(** C8: Running the script a second time with the same endpoints, on the
    state the first run left (as when [main.py] is re-run in the same
    session), returns again, prints exactly the lines the first run
    printed, and leaves the same stage and the same [distance],
    [visited] and [previous] on every node: the route metrics are
    reproduced. *)
Theorem main_script_repeat {F : Type} `{Frontier F} g orig dest anim s u :
  main_script g orig dest anim s = Ok tt u ->
  exists u', main_script g orig dest anim u = Ok tt u' /\
    (exists L, printed u = printed s ++ L /\ printed u' = printed u ++ L) /\
    stage u' = stage u /\
    forall v, dist_at u' v = dist_at u v /\ vis_at u' v = vis_at u v /\ prev_at u' v = prev_at u v.
Proof.
  intros E.
  assert (Hn : same_nodes s u) by (apply same_nodes_of; symmetry; exact (keeps_nodes_main_script g orig dest anim s tt u E)).
  set (LR := fun p1 p2 => exists L, p1 = printed s ++ L /\ p2 = printed u ++ L).
  assert (HLR : forall p1 p2 x, LR p1 p2 -> LR (p1 ++ [x]) (p2 ++ [x])).
  { intros p1 p2 x (L & -> & ->). exists (L ++ [x]). by rewrite !app_assoc. }
  pose proof (rel_main_script g LR HLR orig dest anim s u Hn ltac:(exists []; by rewrite !app_nil_r)) as Hr.
  rewrite E in Hr. destruct (main_script g orig dest anim u) as [[] u'| |] eqn:E2; try done.
  destruct Hr as [_ Hr]. destruct (srel_fields _ _ _ Hr) as [Hs Hv]. pose proof Hr as (_ & _ & (L & HL1 & HL2)).
  exists u'. split_and!; [done|by exists L|done|]. intros v. destruct (Hv v) as (? & ? & ?). done.
Qed.

Section Idempotence.

Context {F : Type} `{FL : FrontierLaws F}.
Variables (g : Graph) (orig dest : node).
Hypothesis Hg : wf_graph g.
Hypothesis Hw : nonneg_weights g.

Lemma wf_same_nodes s1 s2 : wf_state g s1 -> wf_state g s2 -> same_nodes s1 s2.
Proof. intros H1 H2 n. by rewrite <- (H1 n), <- (H2 n). Qed.

End Idempotence.

(** ** Witnesses on the scenario of [Search] *)

Lemma dijkstra_deterministic_witness :
  match dijkstra (F := ListHeap) spec_graph (dijkstra_fuel spec_graph) 2 4 true (blank_state [1; 2; 3; 4]),
        dijkstra (F := ListHeap) spec_graph (dijkstra_fuel spec_graph) 2 4 true spec_searched_once with
  | Ok n1 t1, Ok n2 t2 => n1 = n2 /\ stage t1 = stage t2 /\
      forall v, dist_at t1 v = dist_at t2 v /\ vis_at t1 v = vis_at t2 v /\ prev_at t1 v = prev_at t2 v
  | Raise e1 _, Raise e2 _ => e1 = e2
  | OutOfFuel, OutOfFuel => True
  | _, _ => False
  end.
Proof. apply dijkstra_deterministic. apply (wf_same_nodes spec_graph); solve_graph_hyps. Defined.

(** The state the script leaves on [spec_graph]. *)
Definition spec_after_script : St :=
  match main_script (F := ListHeap) spec_graph 1 4 false (blank_state [1; 2; 3; 4]) with
  | Ok _ u => u
  | _ => blank_state []
  end.

Lemma main_script_repeat_witness :
  exists u', main_script (F := ListHeap) spec_graph 1 4 false spec_after_script = Ok tt u' /\
    (exists L, printed spec_after_script = printed (blank_state [1; 2; 3; 4]) ++ L /\
               printed u' = printed spec_after_script ++ L) /\
    stage u' = stage spec_after_script /\
    forall v, dist_at u' v = dist_at spec_after_script v /\ vis_at u' v = vis_at spec_after_script v /\
      prev_at u' v = prev_at spec_after_script v.
Proof. apply (main_script_repeat (F := ListHeap) spec_graph 1 4 false (blank_state [1; 2; 3; 4])). vm_compute. reflexivity. Defined.

End Determinism.
